(** * Submission evaluation and ranking engine

    A shallow embedding of the backend of the analyzer application:
    - [metrics]      : backend/utils/metrics.js, on exact rationals
    - [binary64]     : backend/utils/metrics.js, on the numbers of the engine
    - [auth]         : backend/middleware/auth.js
    - [Submission], [User] : backend/models
    - [submissions]  : backend/routes/submissions.js
    - [leaderboard]  : backend/routes/leaderboard.js
    - [submissions_get] : the reading routes of backend/routes/submissions.js
    - [admin]        : backend/routes/admin.js

    Counts and lengths are integers ([Z]).  The ratios of the metrics exist
    twice.  In [metrics] they are exact rationals ([Q], compared with [==]):
    that is the calculator with no rounding but the final one to six
    decimals, and the numbers stored with a submission and ranked by the
    leaderboard are taken from it.  In [binary64] every operation rounds to
    the nearest binary64 number as the engine does; the two differ where a
    ratio falls within the rounding error of a six-decimal tie.
    Strings hold the UTF-8 bytes of a JavaScript string and are compared
    with [===], i.e. plain equality. *)

From Stdlib Require Import Ascii QArith Qround Lqa.
From Stdlib Require SpecFloat.
From stdpp Require Import gmap strings list fin_maps relations sorting.

Open Scope Q_scope.

Set Warnings "-clear-no-such-hyp".

(** ** Numbers *)

(** [0 < x] as the test the source writes [x > 0]. *)
Definition Qpositive (x : Q) : bool := (0 <? Qnum x)%Z.

(** [Number.prototype.toFixed(6)] followed by [parseFloat], on an exact
    rational: the decimal with six fractional digits nearest to [x]; of two
    equally near ones the larger in magnitude is taken. *)
Definition round_half_up (x : Q) : Z := Qfloor (x * 1000000 + (1 # 2)).

Definition toFixed6 (x : Q) : Q :=
  if (Qnum x <? 0)%Z
  then - (round_half_up (- x) # 1000000)
  else round_half_up x # 1000000.

(** Length of an array as a number. *)
Definition len {A : Type} (l : list A) : Z := Z.of_nat (length l).

(** * backend/utils/metrics.js, in exact arithmetic *)
Module metrics.

(** An element of the [predictions] array: [{ row_id, predicted, actual }],
    with the [match] flag that [compareCSVData] adds. *)
Record Prediction : Type := {
  row_id : string;
  predicted : string;
  actual : string;
  matched : bool
}.

(** The object returned by [computeMetrics]. *)
Record Metrics : Type := {
  accuracy : Q;
  precision : Q;
  recall : Q;
  f1 : Q;
  matches : Z
}.

(** [Set.prototype.add] on a set kept in insertion order. *)
Definition Set_add (x : string) (s : list string) : list string :=
  if bool_decide (x ∈ s) then s else s ++ [x].

(** The first [forEach]: the counter [matches]. *)
Definition count_matches (predictions : list Prediction) : Z :=
  fold_left
    (λ matches pred,
       if bool_decide (predicted pred = actual pred)
       then (matches + 1)%Z else matches)
    predictions 0%Z.

(** The second [forEach], then [Array.from(allLabels)]. *)
Definition allLabels (predictions : list Prediction) : list string :=
  fold_left
    (λ s pred, Set_add (actual pred) (Set_add (predicted pred) s))
    predictions [].

Definition tp (predictions : list Prediction) (label : string) : Z :=
  len (List.filter
         (λ pred, bool_decide (predicted pred = label)
                  && bool_decide (actual pred = label))
         predictions).

Definition fp (predictions : list Prediction) (label : string) : Z :=
  len (List.filter
         (λ pred, bool_decide (predicted pred = label)
                  && negb (bool_decide (actual pred = label)))
         predictions).

Definition fn (predictions : list Prediction) (label : string) : Z :=
  len (List.filter
         (λ pred, negb (bool_decide (predicted pred = label))
                  && bool_decide (actual pred = label))
         predictions).

(** Precision and recall of one class, as pushed on [precisions] and
    [recalls]. *)
Definition class_precision (predictions : list Prediction) (label : string) : Q :=
  let tp := tp predictions label in
  let fp := fp predictions label in
  if (0 <? tp + fp)%Z then inject_Z tp / inject_Z (tp + fp) else 0.

Definition class_recall (predictions : list Prediction) (label : string) : Q :=
  let tp := tp predictions label in
  let fn := fn predictions label in
  if (0 <? tp + fn)%Z then inject_Z tp / inject_Z (tp + fn) else 0.

(** [xs.reduce((sum, p) => sum + p, 0) / xs.length]. *)
Definition average (xs : list Q) : Q :=
  fold_left (λ sum p, sum + p) xs 0 / inject_Z (len xs).

Definition avgPrecision (predictions : list Prediction) : Q :=
  average (map (class_precision predictions) (allLabels predictions)).

Definition avgRecall (predictions : list Prediction) : Q :=
  average (map (class_recall predictions) (allLabels predictions)).

(** The unrounded [f1] of the source. *)
Definition f1_score (avgPrecision avgRecall : Q) : Q :=
  if Qpositive (avgPrecision + avgRecall)
  then 2 * (avgPrecision * avgRecall) / (avgPrecision + avgRecall)
  else 0.

Definition zero_metrics : Metrics :=
  {| accuracy := 0; precision := 0; recall := 0; f1 := 0; matches := 0 |}.

(** [computeMetrics(predictions)]; [None] is an absent ([null] or
    [undefined]) argument. *)
Definition computeMetrics (predictions : option (list Prediction)) : Metrics :=
  match predictions with
  | None => zero_metrics
  | Some [] => zero_metrics
  | Some predictions =>
      let total := len predictions in
      let matches := count_matches predictions in
      let accuracy := inject_Z matches / inject_Z total in
      let avgPrecision := avgPrecision predictions in
      let avgRecall := avgRecall predictions in
      let f1 := f1_score avgPrecision avgRecall in
      {| accuracy := toFixed6 accuracy;
         precision := toFixed6 avgPrecision;
         recall := toFixed6 avgRecall;
         f1 := toFixed6 f1;
         matches := matches |}
  end.

(** A row of a parsed CSV: [{ row_id, label }]. *)
Module Row.
Record t : Type := {
  row_id : string;
  label : string
}.
End Row.

(** The object returned by [compareCSVData]. *)
Record Comparison : Type := {
  comparisons : list Prediction;
  metrics : Metrics;
  rowsInCanonical : Z;
  rowsInSubmission : Z;
  rowsCompared : Z;
  missingRows : Z;
  extraRows : Z;
  missingRowIds : list string;
  extraRowIds : list string
}.

(** [new Map()] filled by [rows.forEach(row => map.set(row.row_id, row.label))]. *)
Definition label_map (rows : list Row.t) : gmap string string :=
  fold_left (λ m row, <[Row.row_id row := Row.label row]> m) rows ∅.

(** One step of the loop over the canonical rows: the state is the pair
    ([comparisons], [missingInUser]). *)
Definition check_answer_row (userMap : gmap string string)
    (acc : list Prediction * list string) (answerRow : Row.t)
    : list Prediction * list string :=
  let rowId := Row.row_id answerRow in
  match userMap !! rowId with
  | Some predicted =>
      let actual := Row.label answerRow in
      (acc.1 ++ [ {| row_id := rowId;
                     predicted := predicted;
                     actual := actual;
                     matched := bool_decide (predicted = actual) |} ],
       acc.2)
  | None => (acc.1, acc.2 ++ [rowId])
  end.

(** One step of the loop over the submitted rows: the state is [extraInUser]. *)
Definition check_user_row (answerMap : gmap string string)
    (extraInUser : list string) (userRow : Row.t) : list string :=
  match answerMap !! Row.row_id userRow with
  | Some _ => extraInUser
  | None => extraInUser ++ [Row.row_id userRow]
  end.

(** [compareCSVData(userCSVData, answerCSVData)]. *)
Definition compareCSVData (userCSVData answerCSVData : list Row.t) : Comparison :=
  let answerMap := label_map answerCSVData in
  let userMap := label_map userCSVData in
  let '(comparisons, missingInUser) :=
    fold_left (check_answer_row userMap) answerCSVData ([], []) in
  let extraInUser := fold_left (check_user_row answerMap) userCSVData [] in
  let metrics := computeMetrics (Some comparisons) in
  {| comparisons := comparisons;
     metrics := metrics;
     rowsInCanonical := len answerCSVData;
     rowsInSubmission := len userCSVData;
     rowsCompared := len comparisons;
     missingRows := len missingInUser;
     extraRows := len extraInUser;
     missingRowIds := take 10 missingInUser;
     extraRowIds := take 10 extraInUser |}.

End metrics.

(** * backend/utils/metrics.js on binary64 numbers

    The numbers of the engine: IEEE 754 binary64 ([prec] 53, [emax] 1024),
    every operation rounded to nearest, ties to even. *)
Module binary64.

Import metrics.

Definition number : Type := SpecFloat.spec_float.

Definition zero : number := SpecFloat.S754_zero false.

(** An integer as a number. *)
Definition of_Z (z : Z) : number := SpecFloat.binary_normalize 53 1024 z 0 false.

Definition add : number → number → number := SpecFloat.SFadd 53 1024.
Definition mul : number → number → number := SpecFloat.SFmul 53 1024.
Definition div : number → number → number := SpecFloat.SFdiv 53 1024.

(** [x > y] and [x === y]. *)
Definition gt (x y : number) : bool := SpecFloat.SFltb y x.

(** The rational a finite number stands for. *)
Definition value (x : number) : option Q :=
  match x with
  | SpecFloat.S754_zero _ => Some 0
  | SpecFloat.S754_finite s m e =>
      Some ((if s then -1 else 1) * (inject_Z (Z.pos m) * 2 ^ e))
  | _ => None
  end.

(** [parseFloat] of the decimal with the digits [n] and six of them after
    the point: the number nearest to [n / 1000000]. *)
Definition decimal6 (negative : bool) (n : positive) : number :=
  div (SpecFloat.S754_finite negative n 0) (SpecFloat.S754_finite false 1000000 0).

(** [parseFloat(x.toFixed(6))]: [toFixed] takes the integer [n] for which
    [n / 1000000] is nearest to the magnitude of [x], the larger one of two,
    and writes the sign of a negative [x]; from 10^21 on it writes [x] as
    [String(x)] does, and so it does for [NaN] and the infinities. *)
Definition toFixed6 (x : number) : number :=
  match x with
  | SpecFloat.S754_zero _ => zero
  | SpecFloat.S754_finite s m e =>
      let magnitude := inject_Z (Z.pos m) * 2 ^ e in
      if Qle_bool (10 ^ 21) magnitude then x
      else match round_half_up magnitude with
           | Z.pos n => decimal6 s n
           | _ => SpecFloat.S754_zero s
           end
  | _ => x
  end.

(** The object returned by [computeMetrics]. *)
Record Metrics : Type := {
  accuracy : number;
  precision : number;
  recall : number;
  f1 : number;
  matches : Z
}.

Definition class_precision (predictions : list Prediction) (label : string)
    : number :=
  let tp := tp predictions label in
  let fp := fp predictions label in
  if (0 <? tp + fp)%Z then div (of_Z tp) (of_Z (tp + fp)) else zero.

Definition class_recall (predictions : list Prediction) (label : string)
    : number :=
  let tp := tp predictions label in
  let fn := fn predictions label in
  if (0 <? tp + fn)%Z then div (of_Z tp) (of_Z (tp + fn)) else zero.

(** [xs.reduce((sum, p) => sum + p, 0) / xs.length]. *)
Definition average (xs : list number) : number :=
  div (fold_left (λ sum p, add sum p) xs zero) (of_Z (len xs)).

Definition avgPrecision (predictions : list Prediction) : number :=
  average (map (class_precision predictions) (allLabels predictions)).

Definition avgRecall (predictions : list Prediction) : number :=
  average (map (class_recall predictions) (allLabels predictions)).

(** The unrounded [f1] of the source. *)
Definition f1_score (avgPrecision avgRecall : number) : number :=
  if gt (add avgPrecision avgRecall) zero
  then div (mul (of_Z 2) (mul avgPrecision avgRecall)) (add avgPrecision avgRecall)
  else zero.

Definition zero_metrics : Metrics :=
  {| accuracy := zero; precision := zero; recall := zero; f1 := zero;
     matches := 0 |}.

(** [computeMetrics(predictions)]; [None] is an absent ([null] or
    [undefined]) argument. *)
Definition computeMetrics (predictions : option (list Prediction)) : Metrics :=
  match predictions with
  | None => zero_metrics
  | Some [] => zero_metrics
  | Some predictions =>
      let total := len predictions in
      let matches := count_matches predictions in
      let accuracy := div (of_Z matches) (of_Z total) in
      let avgPrecision := avgPrecision predictions in
      let avgRecall := avgRecall predictions in
      let f1 := f1_score avgPrecision avgRecall in
      {| accuracy := toFixed6 accuracy;
         precision := toFixed6 avgPrecision;
         recall := toFixed6 avgRecall;
         f1 := toFixed6 f1;
         matches := matches |}
  end.

End binary64.

(** * backend/middleware/auth.js *)
Module auth.

(** The user object of a request: the login route stores it as
    [req.session.user], and the handlers read the same fields from
    [req.user] as well.  [uploadLimit] is [None] for [null]. *)
Record User : Type := {
  id : N;
  uploadLimit : option Z
}.

(** [requireAuth(req, res, next)]: a request without [req.session.user] is
    answered with 401; otherwise [next()] is called.  Nothing is assigned to
    [req]. *)
Definition requireAuth {R : Type} (session_user : option User)
    (unauthorized : R) (next : User → R) : R :=
  match session_user with
  | None => unauthorized
  | Some user => next user
  end.

End auth.

(** * backend/models/User.js *)
Module User.

(** A document of the [User] collection, by the fields the leaderboard
    selects. *)
Record t : Type := {
  email : string;
  teamName : string
}.

End User.

(** * backend/models/Submission.js *)
Module Submission.

(** A document of the [Submission] collection.  The fields the store fills in
    by itself ([_id], [uploadedAt]) are left out; documents are kept in the
    order in which they were saved. *)
Record t : Type := {
  userId : N;
  filename : string;
  rowsTotal : Z;
  matches : Z;
  accuracy : Q;
  precision : Q;
  recall : Q;
  f1 : Q;
  fileDataPreview : list metrics.Prediction;
  status : string;
  attemptNumber : Z;
  rowsInCanonical : Z;
  rowsInSubmission : Z;
  rowsCompared : Z;
  extraRows : Z;
  missingRows : Z
}.

(** The validation [save] runs: of the paths marked [required], [filename]
    is the one that can be present and still fail, as the empty string. *)
Definition valid (doc : t) : bool :=
  negb (bool_decide (filename doc = EmptyString)).

End Submission.

(** * The collections and the upload directory *)
Module db.

(** A document of the [AnswerCSV] collection. *)
Record AnswerCSV : Type := {
  answer_filename : string;
  data : list metrics.Row.t
}.

(** The validation [save] runs on a document of the [AnswerCSV] collection:
    [filename], and [row_id] and [label] of every row, are [required], which
    a string meets when it is not empty. *)
Definition valid_AnswerCSV (doc : AnswerCSV) : bool :=
  negb (bool_decide (answer_filename doc = EmptyString))
  && forallb
       (λ row, negb (bool_decide (metrics.Row.row_id row = EmptyString))
               && negb (bool_decide (metrics.Row.label row = EmptyString)))
       (data doc).

(** Modelled from the spec: the value of a document of the [Config]
    collection (backend/models/Config.js is not among the sources).  The one
    key in use is [defaultUploadLimit]; its value, the global default quota,
    is an integer. *)
Definition Config : Type := Z.

(** The collections ([AnswerCSV], [Submission], [Config] by key, [User] by
    [_id]) and the files of the upload directory. *)
Record World : Type := {
  answercsvs : list AnswerCSV;
  submissions : list Submission.t;
  configs : gmap string Config;
  users : gmap N User.t;
  uploads : gset string
}.

(** The queries a handler waits for with [await].  [Submission_save] answers
    [false] when the promise is rejected by the validation;
    [Submission_aggregate] carries its pipeline as a function of the
    documents of the collection. *)
Inductive Query : Type → Type :=
| AnswerCSV_findOne : Query (option AnswerCSV)
| Submission_countDocuments (userId : N) : Query Z
| Config_findOne (key : string) : Query (option Config)
| Submission_save (doc : Submission.t) : Query bool
| Submission_aggregate {X : Type} (pipeline : list Submission.t → X) : Query X
| User_find_in (ids : list N) : Query (list (N * User.t)).

Definition exec {X : Type} (q : Query X) (w : World) : X * World :=
  match q in Query X return X * World with
  | AnswerCSV_findOne => (head (answercsvs w), w)
  | Submission_countDocuments userId =>
      (len (List.filter (λ s, bool_decide (Submission.userId s = userId))
              (submissions w)), w)
  | Config_findOne key => (configs w !! key, w)
  | Submission_save doc =>
      if Submission.valid doc then
        (true, {| answercsvs := answercsvs w;
                  submissions := submissions w ++ [doc];
                  configs := configs w;
                  users := users w;
                  uploads := uploads w |})
      else (false, w)
  | Submission_aggregate pipeline => (pipeline (submissions w), w)
  | User_find_in ids =>
      (List.filter (λ user, bool_decide (user.1 ∈ ids)) (map_to_list (users w)),
       w)
  end.

(** [fs.unlinkSync(path)], on a file that is there: a handler removes the
    file multer has stored for its request, and it does so once. *)
Definition unlinkSync (path : string) (w : World) : World :=
  {| answercsvs := answercsvs w;
     submissions := submissions w;
     configs := configs w;
     users := users w;
     uploads := uploads w ∖ {[path]} |}.

End db.

(** * Asynchronous handlers

    An [async] function is a tree of the queries it awaits; the code between
    two [await]s runs without interruption, so a synchronous effect
    ([Unlink]) belongs to the step of the query before it. *)
Inductive Prog (R : Type) : Type :=
| Return (r : R)
| Await {X : Type} (q : db.Query X) (k : X → Prog R)
| Unlink (path : string) (k : Prog R).

Arguments Return {R} r.
Arguments Await {R X} q k.
Arguments Unlink {R} path k.

Fixpoint prog_bind {A B : Type} (f : A → Prog B) (p : Prog A) : Prog B :=
  match p with
  | Return a => f a
  | Await q k => Await q (λ x, prog_bind f (k x))
  | Unlink path k => Unlink path (prog_bind f k)
  end.

#[global] Instance prog_ret : MRet Prog := λ A a, Return a.
#[global] Instance prog_mbind : MBind Prog := λ A B f p, prog_bind f p.

Definition await {X : Type} (q : db.Query X) : Prog X := Await q Return.
Definition unlink (path : string) : Prog unit := Unlink path (Return tt).

(** A request served alone: every query is answered at once. *)
Fixpoint run {R : Type} (p : Prog R) (w : db.World) : R * db.World :=
  match p with
  | Return r => (r, w)
  | Await q k => let '(x, w') := db.exec q w in run (k x) w'
  | Unlink path k => run k (db.unlinkSync path w)
  end.



(** * backend/routes/submissions.js *)
Module submissions.

Import metrics.

(** [String.prototype.trim]: the white space and the line terminators of
    ECMAScript, in UTF-8.  One byte: U+0009 to U+000D and U+0020; two bytes:
    U+00A0; three bytes: U+1680, U+2000 to U+200A, U+2028, U+2029, U+202F,
    U+205F, U+3000 and U+FEFF. *)
Definition is_space (c : Ascii.ascii) : bool :=
  let n := Ascii.nat_of_ascii c in
  (n =? 32)%nat || ((9 <=? n)%nat && (n <=? 13)%nat).

Definition is_space2 (c1 c2 : Ascii.ascii) : bool :=
  (Ascii.N_of_ascii c1 =? 194)%N && (Ascii.N_of_ascii c2 =? 160)%N.

Definition is_space3 (c1 c2 c3 : Ascii.ascii) : bool :=
  let n1 := Ascii.N_of_ascii c1 in
  let n2 := Ascii.N_of_ascii c2 in
  let n3 := Ascii.N_of_ascii c3 in
  ((n1 =? 225) && (n2 =? 154) && (n3 =? 128))%N
  || ((n1 =? 226) && (n2 =? 128)
      && (((128 <=? n3) && (n3 <=? 138)) || (n3 =? 168) || (n3 =? 169)
          || (n3 =? 175)))%N
  || ((n1 =? 226) && (n2 =? 129) && (n3 =? 159))%N
  || ((n1 =? 227) && (n2 =? 128) && (n3 =? 128))%N
  || ((n1 =? 239) && (n2 =? 187) && (n3 =? 191))%N.

(** White space removed from the front of the bytes; with [backwards] the
    bytes are those of the string from its end. *)
Fixpoint trim_start (backwards : bool) (s : list Ascii.ascii)
    : list Ascii.ascii :=
  match s with
  | c1 :: s1 =>
      if is_space c1 then trim_start backwards s1
      else
        match s1 with
        | c2 :: s2 =>
            if (if backwards then is_space2 c2 c1 else is_space2 c1 c2)
            then trim_start backwards s2
            else
              match s2 with
              | c3 :: s3 =>
                  if (if backwards then is_space3 c3 c2 c1
                      else is_space3 c1 c2 c3)
                  then trim_start backwards s3
                  else s
              | [] => s
              end
        | [] => s
        end
  | [] => []
  end.

Definition trim (s : string) : string :=
  String.string_of_list_ascii
    (rev (trim_start true
            (rev (trim_start false (String.list_ascii_of_string s))))).

(** What [Papa.parse] returns for the content of the uploaded file:
    [errors], [meta.fields] and [data]; a row of [data] is kept by its
    [row_id] and [label] columns. *)
Record ParseResult : Type := {
  errors : list string;
  fields : list string;
  data : list Row.t
}.

(** [req.file] with the result of reading and parsing it.  multer has
    stored the file in the upload directory at [path], a name of its own
    making. *)
Record File : Type := {
  path : string;
  originalname : string;
  parseResult : ParseResult
}.

(** The parts of [req] the handler reads: [req.file],
    [req.session.user.id], which [requireAuth] has checked, and [req.user],
    which is [None] when it is [undefined]. *)
Record Request : Type := {
  file : option File;
  userId : N;
  user : option auth.User
}.

Inductive Response : Type :=
| AuthenticationRequired                                 (* 401 *)
| BadRequest (error : string)                            (* 400 *)
| ParsingError (details : list string)                   (* 400 *)
| MissingColumns (foundColumns : list string)            (* 400 *)
| LimitReached (userSubmissionCount uploadLimit : Z)     (* 403 *)
| Processed (submission : Submission.t) (mismatches : Z) (* 200 *)
| ServerError (error : string)                           (* 500 *).

(** Step 5: the rows as strings without surrounding white space. *)
Definition extract (rows : list Row.t) : list Row.t :=
  map (λ row, {| Row.row_id := trim (Row.row_id row);
                 Row.label := trim (Row.label row) |}) rows.

(** Step 8: the preview. *)
Definition preview (comparisons : list Prediction) : list Prediction :=
  let mismatches := List.filter (λ c, negb (matched c)) comparisons in
  let matches := List.filter (λ c, matched c) comparisons in
  take 20 (take 15 mismatches ++ take 5 matches).

(** Step 9: the document handed to [save]. *)
Definition new_Submission (userId : N) (file : File)
    (comparisonResult : Comparison) (attemptNumber : Z) : Submission.t :=
  {| Submission.userId := userId;
     Submission.filename := originalname file;
     Submission.rowsTotal := rowsCompared comparisonResult;
     Submission.matches := matches (metrics comparisonResult);
     Submission.accuracy := accuracy (metrics comparisonResult);
     Submission.precision := precision (metrics comparisonResult);
     Submission.recall := recall (metrics comparisonResult);
     Submission.f1 := f1 (metrics comparisonResult);
     Submission.fileDataPreview := preview (comparisons comparisonResult);
     Submission.status := "done";
     Submission.attemptNumber := attemptNumber;
     Submission.rowsInCanonical := rowsInCanonical comparisonResult;
     Submission.rowsInSubmission := rowsInSubmission comparisonResult;
     Submission.rowsCompared := rowsCompared comparisonResult;
     Submission.extraRows := extraRows comparisonResult;
     Submission.missingRows := missingRows comparisonResult |}.

(** The [catch] block: the model goes there from the places of the [try]
    block that throw. *)
Definition failed (req : Request) : Prog Response :=
  match file req with
  | Some file => unlink (path file)
  | None => mret tt
  end;;
  mret (ServerError "Failed to process submission").

(** Step 2: the limit of the user, or the global default. *)
Definition resolve_uploadLimit (user : auth.User) : Prog Z :=
  match auth.uploadLimit user with
  | Some uploadLimit => mret uploadLimit
  | None =>
      config ← await (db.Config_findOne "defaultUploadLimit");
      mret (match config with Some value => value | None => 15%Z end)
  end.

(** Steps 3 to 10, after the limit check. *)
Definition evaluate (req : Request) (file : File) (answerCSV : db.AnswerCSV)
    (userSubmissionCount : Z) : Prog Response :=
  let parseResult := parseResult file in
  if (0 <? len (errors parseResult))%Z then
    unlink (path file);; mret (ParsingError (errors parseResult))
  else
    let columns := fields parseResult in
    if negb (bool_decide ("row_id" ∈ columns))
       || negb (bool_decide ("label" ∈ columns)) then
      unlink (path file);; mret (MissingColumns columns)
    else
      let userCSVData := extract (data parseResult) in
      if (len userCSVData =? 0)%Z then
        unlink (path file);; mret (BadRequest "CSV file is empty")
      else
        let comparisonResult := compareCSVData userCSVData (db.data answerCSV) in
        let attemptNumber := (userSubmissionCount + 1)%Z in
        let submission :=
          new_Submission (userId req) file comparisonResult attemptNumber in
        saved ← await (db.Submission_save submission);
        if saved : bool then
          unlink (path file);;
          mret (Processed submission
                  (rowsCompared comparisonResult
                   - matches (metrics comparisonResult))%Z)
        else failed req.

(** The handler of [router.post('/upload', ...)].  Reading
    [req.user.uploadLimit] throws when [req.user] is [undefined]. *)
Definition upload (req : Request) : Prog Response :=
  match file req with
  | None => mret (BadRequest "No file uploaded")
  | Some file =>
      answerCSV ← await db.AnswerCSV_findOne;
      match answerCSV with
      | None =>
          unlink (path file);;
          mret (BadRequest "No canonical answer CSV has been uploaded yet. Please contact admin.")
      | Some answerCSV =>
          userSubmissionCount ← await (db.Submission_countDocuments (userId req));
          match user req with
          | None => failed req
          | Some user =>
              uploadLimit ← resolve_uploadLimit user;
              if (uploadLimit <=? userSubmissionCount)%Z then
                unlink (path file);;
                mret (LimitReached userSubmissionCount uploadLimit)
              else evaluate req file answerCSV userSubmissionCount
          end
      end
  end.

(** The route as the router mounts it: [router.use(requireAuth)], then
    [upload.single('file')], then the handler.  The session comes from
    express-session; no middleware of the application assigns [req.user]. *)
Definition post_upload (session_user : option auth.User) (file : option File)
    : Prog Response :=
  auth.requireAuth session_user (mret AuthenticationRequired)
    (λ session_user,
       upload {| file := file; userId := auth.id session_user; user := None |}).

End submissions.

(** * backend/routes/leaderboard.js *)
Module leaderboard.

(** ** The stages of the aggregation pipeline *)

(** The order in which the documents reach a [$sort].  A pipeline names no
    key beyond those it sorts on, and the store leaves the relative order of
    documents with equal keys open: it may hand the documents over in any
    arrangement. *)
Record Order (A : Type) : Type := {
  arrange : list A → list A;
  arrange_perm : ∀ l, arrange l ≡ₚ l
}.

Arguments arrange {A} _ _.
Arguments arrange_perm {A} _ _.

(** [$sort]: the documents, as arranged by the store, are inserted one by
    one, each before the first document it is not behind. *)
Fixpoint sort_insert {A : Type} (before : A → A → bool) (x : A) (l : list A)
    : list A :=
  match l with
  | [] => [x]
  | y :: l' => if before x y then x :: y :: l' else y :: sort_insert before x l'
  end.

Definition sort_stage {A : Type} (store : Order A) (before : A → A → bool)
    (l : list A) : list A :=
  foldr (sort_insert before) [] (arrange store l).

(** Descending order on a pair of numeric keys: [{ k1: -1, k2: -1 }]. *)
Definition desc2 (k1 k2 : Q) (k1' k2' : Q) : bool :=
  match k1 ?= k1' with
  | Gt => true
  | Lt => false
  | Eq => Qle_bool k2' k2
  end.

(** The output document of the [$group] stage ([bestSubmissionId] and
    [submissionDate] copy fields the store fills in). *)
Record Group : Type := {
  _id : N;
  bestAccuracy : Q;
  bestF1 : Q;
  bestPrecision : Q;
  bestRecall : Q;
  attemptNumber : Z
}.

(** [{ $first: ... }] of every accumulator. *)
Definition first_of (doc : Submission.t) : Group :=
  {| _id := Submission.userId doc;
     bestAccuracy := Submission.accuracy doc;
     bestF1 := Submission.f1 doc;
     bestPrecision := Submission.precision doc;
     bestRecall := Submission.recall doc;
     attemptNumber := Submission.attemptNumber doc |}.

(** [$group] by [userId]: one group per user, made from the first document
    of the user in the incoming order. *)
Definition group_stage (docs : list Submission.t) : list Group :=
  fold_left
    (λ groups doc,
       if bool_decide (Submission.userId doc ∈ map _id groups)
       then groups else groups ++ [first_of doc])
    docs [].

Definition by_accuracy_f1 (a b : Submission.t) : bool :=
  desc2 (Submission.accuracy a) (Submission.f1 a)
        (Submission.accuracy b) (Submission.f1 b).

Definition by_bestAccuracy_bestF1 (a b : Group) : bool :=
  desc2 (bestAccuracy a) (bestF1 a) (bestAccuracy b) (bestF1 b).

(** The arrangements of the store for the two [$sort] stages of one
    [aggregate]. *)
Record Orders : Type := {
  of_submissions : Order Submission.t;
  of_groups : Order Group
}.

(** [$sort], [$group], [$sort]: the ranking of all users. *)
Definition allRankings (store : Orders) (docs : list Submission.t)
    : list Group :=
  sort_stage (of_groups store) by_bestAccuracy_bestF1
    (group_stage (sort_stage (of_submissions store) by_accuracy_f1 docs)).

(** The first pipeline: the ranking, then [$limit]; a [$limit] that is not
    positive is refused by the store ([None]). *)
Definition leaderboard_pipeline (store : Orders) (limit : Z)
    (docs : list Submission.t) : option (list Group) :=
  if (limit <=? 0)%Z then None
  else Some (take (Z.to_nat limit) (allRankings store docs)).

(** ** The route *)

Record Entry : Type := {
  rank : Z;
  userId : N;
  entry_teamName : string;
  entry_email : string;
  accuracy : Q;
  f1 : Q;
  precision : Q;
  recall : Q;
  entry_attemptNumber : Z
}.

Record UserRank : Type := {
  my_rank : Z;
  my_accuracy : Q;
  my_f1 : Q;
  totalUsers : Z
}.

(** The parts of [req] the handler reads: [parseInt(req.query.limit)]
    ([None] is [NaN]), [req.query.includeRank === 'true'] and
    [req.user?.id]. *)
Record Request : Type := {
  query_limit : option Z;
  includeRank : bool;
  currentUserId : option N
}.

Inductive Response : Type :=
| Ranking (leaderboard : list Entry) (userRank : option UserRank) (totalEntries : Z)
| Failed (error : string).                                          (* 500 *)

(** [value || 'Unknown'] on an optional string. *)
Definition or_Unknown (value : option string) : string :=
  match value with
  | Some (String c s) => String c s
  | _ => "Unknown"
  end.

(** [parseInt(req.query.limit) || 50]. *)
Definition limit_of (query_limit : option Z) : Z :=
  match query_limit with
  | Some n => if (n =? 0)%Z then 50%Z else n
  | None => 50%Z
  end.

(** [leaderboardData.map((entry, index) => ...)]. *)
Definition combine_data (userMap : gmap N User.t) (leaderboardData : list Group)
    : list Entry :=
  imap (λ index entry,
          let user := userMap !! _id entry in
          {| rank := (Z.of_nat index + 1)%Z;
             userId := _id entry;
             entry_teamName := or_Unknown (User.teamName <$> user);
             entry_email := or_Unknown (User.email <$> user);
             accuracy := bestAccuracy entry;
             f1 := bestF1 entry;
             precision := bestPrecision entry;
             recall := bestRecall entry;
             entry_attemptNumber := attemptNumber entry |})
       leaderboardData.

(** [allRankings.findIndex(entry => entry._id.toString() === currentUserId)]. *)
Fixpoint findIndex (currentUserId : N) (rankings : list Group) : option nat :=
  match rankings with
  | [] => None
  | entry :: rest =>
      if bool_decide (_id entry = currentUserId) then Some 0%nat
      else S <$> findIndex currentUserId rest
  end.

(** The object [userRank] made from the result of the second [aggregate]. *)
Definition find_userRank (currentUserId : N) (allRankings : list Group)
    : option UserRank :=
  rankIndex ← findIndex currentUserId allRankings;
  entry ← allRankings !! rankIndex;
  Some {| my_rank := (Z.of_nat rankIndex + 1)%Z;
          my_accuracy := bestAccuracy entry;
          my_f1 := bestF1 entry;
          totalUsers := len allRankings |}.

(** [router.get('/', ...)].  The two [aggregate]s are separate queries:
    each meets the collection as it is when the query is answered, and each
    has the arrangements the store makes for it. *)
Definition get (store_leaderboard store_rank : Orders) (req : Request)
    : Prog Response :=
  let limit := limit_of (query_limit req) in
  leaderboardData ←
    await (db.Submission_aggregate (leaderboard_pipeline store_leaderboard limit));
  match leaderboardData with
  | None => mret (Failed "Failed to fetch leaderboard")
  | Some leaderboardData =>
      let userIds := map _id leaderboardData in
      users ← await (db.User_find_in userIds);
      let userMap : gmap N User.t := list_to_map users in
      let leaderboard := combine_data userMap leaderboardData in
      userRank ←
        match currentUserId req with
        | Some currentUserId =>
            if includeRank req then
              allRankings ←
                await (db.Submission_aggregate (allRankings store_rank));
              mret (find_userRank currentUserId allRankings)
            else mret None
        | None => mret None
        end;
      mret (Ranking leaderboard userRank (len leaderboardData))
  end.

End leaderboard.

(** * Vocabulary of the statements *)

(** A compared row whose prediction is the canonical label. *)
Definition is_hit (pred : metrics.Prediction) : bool :=
  bool_decide (metrics.predicted pred = metrics.actual pred).

(** Sample compared rows: a correct one and a wrong one. *)
Definition hit_row : metrics.Prediction :=
  {| metrics.row_id := "1"; metrics.predicted := "A";
     metrics.actual := "A"; metrics.matched := true |}.

Definition miss_row : metrics.Prediction :=
  {| metrics.row_id := "2"; metrics.predicted := "B";
     metrics.actual := "A"; metrics.matched := false |}.

(** A compared row with the given predicted and canonical labels. *)
Definition compared (predicted actual : string) : metrics.Prediction :=
  {| metrics.row_id := "0"; metrics.predicted := predicted;
     metrics.actual := actual;
     metrics.matched := bool_decide (predicted = actual) |}.


(** Seven compared rows, in two orders. *)
Definition seven_rows : list metrics.Prediction :=
  [compared "D" "B"; compared "D" "D"; compared "B" "B"; compared "A" "A";
   compared "B" "D"; compared "C" "C"; compared "A" "D"].

Definition seven_rows_reordered : list metrics.Prediction :=
  [compared "C" "C"; compared "B" "B"; compared "A" "D"; compared "D" "D";
   compared "D" "B"; compared "B" "D"; compared "A" "A"].

(** Two million correct rows and a wrong one; two million wrong rows and a
    correct one. *)
Definition nearly_perfect : list metrics.Prediction :=
  repeat hit_row (N.to_nat 2000000) ++ [miss_row].

Definition nearly_hopeless : list metrics.Prediction :=
  repeat miss_row (N.to_nat 2000000) ++ [hit_row].

(** The set of identifiers of a list of rows. *)
Definition ids (rows : list metrics.Row.t) : gset string :=
  list_to_set (metrics.Row.row_id <$> rows).

(** The triple emitted for a canonical row, if its identifier was submitted. *)
Definition join_row (userMap : gmap string string) (answerRow : metrics.Row.t)
    : option metrics.Prediction :=
  (λ predicted,
     {| metrics.row_id := metrics.Row.row_id answerRow;
        metrics.predicted := predicted;
        metrics.actual := metrics.Row.label answerRow;
        metrics.matched :=
          bool_decide (predicted = metrics.Row.label answerRow) |})
  <$> userMap !! metrics.Row.row_id answerRow.

(** The body of the loop that fills a [Map] with the labels. *)
Definition set_row (m : gmap string string) (row : metrics.Row.t)
    : gmap string string :=
  <[metrics.Row.row_id row := metrics.Row.label row]> m.

(** Sample rows. *)
Definition row (row_id label : string) : metrics.Row.t :=
  {| metrics.Row.row_id := row_id; metrics.Row.label := label |}.

(** The number of persisted submissions of a participant. *)
Definition submission_count (userId : N) (w : db.World) : Z :=
  len (List.filter (λ s, bool_decide (Submission.userId s = userId))
         (db.submissions w)).

(** The quota of a request: the override of the participant when it is set,
    otherwise the global default (the configured value, or 15). *)
Definition global_default (w : db.World) : Z :=
  match db.configs w !! "defaultUploadLimit" with
  | Some value => value
  | None => 15%Z
  end.

Definition effective_quota (user : auth.User) (w : db.World) : Z :=
  match auth.uploadLimit user with
  | Some override => override
  | None => global_default w
  end.

(** The store after a document has been saved. *)
Definition saved (doc : Submission.t) (w : db.World) : db.World :=
  (db.exec (db.Submission_save doc) w).2.

(** A request that passes every check of the handler and whose document
    passes the validation of [save]: in particular [req.user] is set. *)
Record accepted (req : submissions.Request) (file : submissions.File)
    (answerCSV : db.AnswerCSV) (w : db.World) : Prop := {
  accepted_file : submissions.file req = Some file;
  accepted_answer : head (db.answercsvs w) = Some answerCSV;
  accepted_user : is_Some (submissions.user req);
  accepted_quota :
    ∀ user, submissions.user req = Some user →
      (submission_count (submissions.userId req) w < effective_quota user w)%Z;
  accepted_name : submissions.originalname file ≠ EmptyString;
  accepted_parse : submissions.errors (submissions.parseResult file) = [];
  accepted_row_id : "row_id" ∈ submissions.fields (submissions.parseResult file);
  accepted_label : "label" ∈ submissions.fields (submissions.parseResult file);
  accepted_rows : submissions.data (submissions.parseResult file) ≠ []
}.

(** The comparison made for an accepted request. *)
Definition comparison_of (file : submissions.File) (answerCSV : db.AnswerCSV)
    : metrics.Comparison :=
  metrics.compareCSVData
    (submissions.extract (submissions.data (submissions.parseResult file)))
    (db.data answerCSV).

(** The same request with other rows in the uploaded file. *)
Definition with_parseResult (parseResult : submissions.ParseResult)
    (req : submissions.Request) : submissions.Request :=
  {| submissions.file :=
       (λ file, {| submissions.path := submissions.path file;
                   submissions.originalname := submissions.originalname file;
                   submissions.parseResult := parseResult |})
       <$> submissions.file req;
     submissions.userId := submissions.userId req;
     submissions.user := submissions.user req |}.

(** A store with one canonical row and no submission; participant 7, without
    a limit of their own; an upload of the participant as the handler gets
    it when [req.user] is set. *)
Definition sample_world : db.World :=
  {| db.answercsvs :=
       [ {| db.answer_filename := "answers.csv"; db.data := [row "1" "A"] |} ];
     db.submissions := [];
     db.configs := ∅;
     db.users := ∅;
     db.uploads := {[ "uploads/a" ]} ∪ {[ "uploads/b" ]} |}.

Definition participant7 : auth.User :=
  {| auth.id := 7%N; auth.uploadLimit := None |}.

Definition sample_upload (path : string) (rows : list metrics.Row.t)
    : submissions.Request :=
  {| submissions.file :=
       Some {| submissions.path := path;
               submissions.originalname := "submission.csv";
               submissions.parseResult :=
                 {| submissions.errors := [];
                    submissions.fields := ["row_id"; "label"];
                    submissions.data := rows |} |};
     submissions.userId := 7%N;
     submissions.user := Some participant7 |}.



(** Requests served one after the other. *)
Definition serve (reqs : list submissions.Request) (w : db.World) : db.World :=
  fold_left (λ w req, (run (submissions.upload req) w).2) reqs w.

(** The attempt numbers of a participant, in the order in which the
    submissions were saved, are 1, 2, ..., up to the number of submissions. *)
Definition numbered (userId : N) (w : db.World) : Prop :=
  Submission.attemptNumber
    <$> List.filter (λ s, bool_decide (Submission.userId s = userId))
          (db.submissions w)
  = seqZ 1 (submission_count userId w).

(** Descending order on the pair (accuracy, f1): the first pair is not
    behind the second. *)
Definition not_behind (a f a' f' : Q) : Prop := a' < a ∨ (a == a' ∧ f' <= f).

(** The order of the specification on ranked entries: accuracy descending,
    then f1 descending, then the earlier attempt first. *)
Definition spec_not_behind (e e' : leaderboard.Entry) : Prop :=
  leaderboard.accuracy e' < leaderboard.accuracy e
  ∨ (leaderboard.accuracy e == leaderboard.accuracy e'
     ∧ (leaderboard.f1 e' < leaderboard.f1 e
        ∨ (leaderboard.f1 e == leaderboard.f1 e'
           ∧ (leaderboard.entry_attemptNumber e
              <= leaderboard.entry_attemptNumber e')%Z))).

(** A sample document of the [Submission] collection. *)
Definition scored (userId : N) (attemptNumber : Z) (score : Q) : Submission.t :=
  {| Submission.userId := userId;
     Submission.filename := "submission.csv";
     Submission.rowsTotal := 10;
     Submission.matches := 0;
     Submission.accuracy := score;
     Submission.precision := score;
     Submission.recall := score;
     Submission.f1 := score;
     Submission.fileDataPreview := [];
     Submission.status := "done";
     Submission.attemptNumber := attemptNumber;
     Submission.rowsInCanonical := 10;
     Submission.rowsInSubmission := 10;
     Submission.rowsCompared := 10;
     Submission.extraRows := 0;
     Submission.missingRows := 0 |}.

(** Participant 1 reaches 0.9 at the second attempt, then participant 2
    reaches 0.9 at the first attempt. *)
Definition sample_history : list Submission.t :=
  [scored 1 1 (1 # 2); scored 1 2 (9 # 10); scored 2 1 (9 # 10)].

(** The body of the loop of the [$group] stage. *)
Definition add_group (groups : list leaderboard.Group) (doc : Submission.t)
    : list leaderboard.Group :=
  if bool_decide (Submission.userId doc ∈ map leaderboard._id groups)
  then groups else groups ++ [leaderboard.first_of doc].

(** The ranked list of a response. *)
Definition board_of (response : leaderboard.Response) : list leaderboard.Entry :=
  match response with
  | leaderboard.Ranking board _ _ => board
  | leaderboard.Failed _ => []
  end.

(** Arrangements of the store: the documents in the order in which they were
    saved, and in the opposite order. *)
Definition saving_order {A : Type} : leaderboard.Order A :=
  {| leaderboard.arrange := λ l, l;
     leaderboard.arrange_perm := λ l, reflexivity l |}.

Definition latest_first {A : Type} : leaderboard.Order A :=
  {| leaderboard.arrange := λ l, rev l;
     leaderboard.arrange_perm := λ l, symmetry (Permutation_rev l) |}.

Definition in_saving_order : leaderboard.Orders :=
  {| leaderboard.of_submissions := saving_order;
     leaderboard.of_groups := saving_order |}.

Definition from_latest : leaderboard.Orders :=
  {| leaderboard.of_submissions := latest_first;
     leaderboard.of_groups := latest_first |}.

(** * backend/routes/submissions.js, the reading routes *)
Module submissions_get.

(** A document of the [Submission] collection after
    [.select('-fileDataPreview')]. *)
Record Listed : Type := {
  userId : N;
  filename : string;
  rowsTotal : Z;
  matches : Z;
  accuracy : Q;
  precision : Q;
  recall : Q;
  f1 : Q;
  status : string;
  attemptNumber : Z;
  rowsInCanonical : Z;
  rowsInSubmission : Z;
  rowsCompared : Z;
  extraRows : Z;
  missingRows : Z
}.

Definition select_without_preview (doc : Submission.t) : Listed :=
  {| userId := Submission.userId doc;
     filename := Submission.filename doc;
     rowsTotal := Submission.rowsTotal doc;
     matches := Submission.matches doc;
     accuracy := Submission.accuracy doc;
     precision := Submission.precision doc;
     recall := Submission.recall doc;
     f1 := Submission.f1 doc;
     status := Submission.status doc;
     attemptNumber := Submission.attemptNumber doc;
     rowsInCanonical := Submission.rowsInCanonical doc;
     rowsInSubmission := Submission.rowsInSubmission doc;
     rowsCompared := Submission.rowsCompared doc;
     extraRows := Submission.extraRows doc;
     missingRows := Submission.missingRows doc |}.

(** [Submission.find({ userId })]. *)
Definition find (userId : N) (w : db.World) : list Submission.t :=
  List.filter (λ s, bool_decide (Submission.userId s = userId)) (db.submissions w).

(** [{ attemptNumber: -1 }]. *)
Definition by_attemptNumber (a b : Submission.t) : bool :=
  (Submission.attemptNumber b <=? Submission.attemptNumber a)%Z.

Inductive Response : Type :=
| AuthenticationRequired                                  (* 401 *)
| Submissions (submissions : list Listed)
| BestSubmission (submission : option Submission.t)
| ServerError (error : string).                           (* 500 *)

(** [router.get('/', ...)]: the submissions of the user, latest attempt
    first, without their previews.  [user] is [req.user]: reading
    [req.user.id] throws when it is [undefined] ([None]).  [store] is the
    arrangement in which the documents reach the sort. *)
Definition get_all (store : leaderboard.Order Submission.t)
    (user : option auth.User) (w : db.World) : Response :=
  match user with
  | None => ServerError "Failed to fetch submissions"
  | Some user =>
      Submissions
        (select_without_preview
           <$> leaderboard.sort_stage store by_attemptNumber
                 (find (auth.id user) w))
  end.

(** [router.get('/user/best', ...)]: [BestSubmission None] is the answer
    [{ submission: null }]. *)
Definition get_best (store : leaderboard.Order Submission.t)
    (user : option auth.User) (w : db.World) : Response :=
  match user with
  | None => ServerError "Failed to fetch best submission"
  | Some user =>
      BestSubmission
        (head (leaderboard.sort_stage store leaderboard.by_accuracy_f1
                 (find (auth.id user) w)))
  end.

(** The two routes as the router mounts them, behind [requireAuth]: no
    middleware of the application assigns [req.user]. *)
Definition router_get_all (store : leaderboard.Order Submission.t)
    (session_user : option auth.User) (w : db.World) : Response :=
  auth.requireAuth session_user AuthenticationRequired
    (λ _, get_all store None w).

Definition router_get_best (store : leaderboard.Order Submission.t)
    (session_user : option auth.User) (w : db.World) : Response :=
  auth.requireAuth session_user AuthenticationRequired
    (λ _, get_best store None w).

End submissions_get.

(** * backend/routes/admin.js *)
Module admin.

Inductive AnswerResponse : Type :=
| AnswerRefused (error : string)                          (* 400 *)
| AnswerParsingError (details : list string)              (* 400 *)
| AnswerMissingColumns                                    (* 400 *)
| AnswerUploaded (rowCount : Z) (columns : list string)   (* 200 *)
| AnswerFailed (error : string)                           (* 500 *).

(** The store with other documents in the [AnswerCSV] collection. *)
Definition with_answercsvs (answercsvs : list db.AnswerCSV) (w : db.World)
    : db.World :=
  {| db.answercsvs := answercsvs;
     db.submissions := db.submissions w;
     db.configs := db.configs w;
     db.users := db.users w;
     db.uploads := db.uploads w |}.

(** [router.post('/answer-csv', ...)], served alone: the uploaded file
    replaces the canonical answers.  [deleteMany] comes before [save]; when
    [save] rejects the new document the [catch] block answers, and the
    collection stays empty. *)
Definition post_answer_csv (file : option submissions.File) (w : db.World)
    : AnswerResponse * db.World :=
  match file with
  | None => (AnswerRefused "No file uploaded", w)
  | Some file =>
      let parseResult := submissions.parseResult file in
      if (0 <? len (submissions.errors parseResult))%Z then
        (AnswerParsingError (submissions.errors parseResult),
         db.unlinkSync (submissions.path file) w)
      else
        let columns := submissions.fields parseResult in
        if negb (bool_decide ("row_id" ∈ columns))
           || negb (bool_decide ("label" ∈ columns)) then
          (AnswerMissingColumns, db.unlinkSync (submissions.path file) w)
        else
          let data := submissions.extract (submissions.data parseResult) in
          if (len data =? 0)%Z then
            (AnswerRefused "CSV file is empty",
             db.unlinkSync (submissions.path file) w)
          else
            let answerCSV :=
              {| db.answer_filename := submissions.originalname file;
                 db.data := data |} in
            if db.valid_AnswerCSV answerCSV then
              (AnswerUploaded (len data) columns,
               db.unlinkSync (submissions.path file)
                 (with_answercsvs [answerCSV] w))
            else
              (AnswerFailed "Failed to upload answer CSV",
               db.unlinkSync (submissions.path file) (with_answercsvs [] w))
  end.

Inductive ConfigResponse : Type :=
| ConfigRefused (error : string)                          (* 400 *)
| ConfigNotFound                                          (* 404 *)
| ConfigUpdated (key : string) (value : db.Config)
| ConfigValue (key : string) (value : db.Config) (isDefault : bool).

(** [router.put('/config', ...)]: [value] is [None] when the body has no
    value; only the key [defaultUploadLimit] is allowed. *)
Definition put_config (key : string) (value : option db.Config) (w : db.World)
    : ConfigResponse * db.World :=
  match key, value with
  | EmptyString, _ | _, None => (ConfigRefused "Key and value are required", w)
  | _, Some value =>
      if negb (bool_decide (key ∈ ["defaultUploadLimit"])) then
        (ConfigRefused "Invalid config key. Allowed keys: defaultUploadLimit", w)
      else
        (ConfigUpdated key value,
         {| db.answercsvs := db.answercsvs w;
            db.submissions := db.submissions w;
            db.configs := <[key := value]> (db.configs w);
            db.users := db.users w;
            db.uploads := db.uploads w |})
  end.

(** [router.get('/config/:key', ...)]. *)
Definition get_config (key : string) (w : db.World) : ConfigResponse :=
  match db.configs w !! key with
  | None =>
      if bool_decide (key = "defaultUploadLimit")
      then ConfigValue key 15%Z true
      else ConfigNotFound
  | Some value => ConfigValue key value false
  end.

Inductive DeleteResponse : Type :=
| DeleteRefused (error : string)                          (* 400 *)
| UserNotFound                                            (* 404 *)
| UserDeleted.

(** [router.delete('/users/:id', ...)], served alone: [sessionUserId] is
    [req.session.user.id]. *)
Definition delete_user (id sessionUserId : N) (w : db.World)
    : DeleteResponse * db.World :=
  if bool_decide (id = sessionUserId) then
    (DeleteRefused "Cannot delete your own account", w)
  else
    match db.users w !! id with
    | None => (UserNotFound, w)
    | Some _ =>
        (UserDeleted,
         {| db.answercsvs := db.answercsvs w;
            db.submissions :=
              List.filter
                (λ s, negb (bool_decide (Submission.userId s = id)))
                (db.submissions w);
            db.configs := db.configs w;
            db.users := delete id (db.users w);
            db.uploads := db.uploads w |})
    end.

End admin.

(** A store whose submissions are the sample history. *)
Definition history_world : db.World :=
  {| db.answercsvs := [];
     db.submissions := sample_history;
     db.configs := ∅;
     db.users := ∅;
     db.uploads := ∅ |}.

(** Participant 1 reaches 0.9 at the first attempt and again at the second,
    participant 2 reaches 0.9 at the first attempt. *)
Definition tied_history : list Submission.t :=
  [scored 1 1 (9 # 10); scored 1 2 (9 # 10); scored 2 1 (9 # 10)].

Definition tied_world : db.World :=
  {| db.answercsvs := [];
     db.submissions := tied_history;
     db.configs := ∅;
     db.users := ∅;
     db.uploads := ∅ |}.

(** The participants: the users that have a submission. *)
Definition participants (docs : list Submission.t) : gset N :=
  list_to_set (Submission.userId <$> docs).

(** A sample uploaded file. *)
Definition sample_file (path : string) (rows : list metrics.Row.t)
    : submissions.File :=
  {| submissions.path := path;
     submissions.originalname := "submission.csv";
     submissions.parseResult :=
       {| submissions.errors := [];
          submissions.fields := ["row_id"; "label"];
          submissions.data := rows |} |}.

(** * Properties *)
(** ** Rounding to six decimals *)
Section rounding.

Lemma Qpositive_spec (x : Q) : Qpositive x = true ↔ 0 < x.
Proof.
  unfold Qpositive, Qlt. simpl. rewrite Z.ltb_lt. lia.
Qed.

Lemma toFixed6_nonneg (x : Q) : 0 <= x → toFixed6 x = round_half_up x # 1000000.
Proof.
  intros Hx. unfold toFixed6.
  destruct (Z.ltb_spec (Qnum x) 0) as [Hneg|]; [|done].
  unfold Qle in Hx. simpl in Hx. lia.
Qed.

Lemma round_half_up_lower (x : Q) :
  inject_Z (round_half_up x) <= x * 1000000 + (1 # 2).
Proof. apply Qfloor_le. Qed.

Lemma round_half_up_upper (x : Q) :
  x * 1000000 + (1 # 2) < inject_Z (round_half_up x) + 1.
Proof.
  unfold round_half_up.
  pose proof (Qlt_floor (x * 1000000 + (1 # 2))) as H.
  rewrite inject_Z_plus in H. exact H.
Qed.

Lemma toFixed6_range (x : Q) : 0 <= x → x <= 1 → 0 <= toFixed6 x ∧ toFixed6 x <= 1.
Proof.
  intros H0 H1. rewrite toFixed6_nonneg by done.
  pose proof (round_half_up_lower x) as Hl.
  pose proof (round_half_up_upper x) as Hu.
  assert (0 <= round_half_up x <= 1000000)%Z as [Ha Hb].
  { split.
    - destruct (Z_le_gt_dec 0 (round_half_up x)) as [Hle|Hgt]; [done|].
      assert (round_half_up x + 1 <= 0)%Z as Hge by lia.
      rewrite Zle_Qle, inject_Z_plus in Hge.
      change (inject_Z 1) with 1 in Hge. change (inject_Z 0) with 0 in Hge. lra.
    - destruct (Z_le_gt_dec (round_half_up x) 1000000) as [Hle|Hgt]; [done|].
      assert (1000001 <= round_half_up x)%Z as Hge by lia.
      rewrite Zle_Qle in Hge. change (inject_Z 1000001) with 1000001 in Hge. lra. }
  unfold Qle. simpl. lia.
Qed.

Lemma toFixed6_0 : toFixed6 0 == 0.
Proof. reflexivity. Qed.

Lemma toFixed6_1 : toFixed6 1 == 1.
Proof. reflexivity. Qed.

#[local] Instance toFixed6_proper : Proper (Qeq ==> Qeq) toFixed6.
Proof.
  intros x y Hxy. unfold toFixed6.
  assert ((Qnum x <? 0)%Z = (Qnum y <? 0)%Z) as ->.
  { apply eq_true_iff_eq. rewrite !Z.ltb_lt.
    assert (x < 0 ↔ y < 0) as Hiff by (rewrite Hxy; tauto).
    unfold Qlt in Hiff. simpl in Hiff. lia. }
  unfold round_half_up.
  destruct (Qnum y <? 0)%Z.
  - assert (Qfloor (- x * 1000000 + (1 # 2)) = Qfloor (- y * 1000000 + (1 # 2))) as ->; [|reflexivity].
    apply Qfloor_comp. by rewrite Hxy.
  - assert (Qfloor (x * 1000000 + (1 # 2)) = Qfloor (y * 1000000 + (1 # 2))) as ->; [|reflexivity].
    apply Qfloor_comp. by rewrite Hxy.
Qed.

(** A value that rounds to one is within half a millionth of one. *)
Lemma toFixed6_eq_1 (x : Q) : 0 <= x → toFixed6 x == 1 → 1 - (1 # 2000000) <= x.
Proof.
  intros H0 H. rewrite toFixed6_nonneg in H by done.
  pose proof (round_half_up_lower x) as Hl.
  assert (round_half_up x = 1000000%Z) as Hr.
  { unfold Qeq in H. simpl in H. lia. }
  rewrite Hr in Hl. change (inject_Z 1000000) with 1000000 in Hl. lra.
Qed.

Lemma toFixed6_eq_0 (x : Q) : 0 <= x → toFixed6 x == 0 → x < (1 # 2000000).
Proof.
  intros H0 H. rewrite toFixed6_nonneg in H by done.
  pose proof (round_half_up_upper x) as Hu.
  assert (round_half_up x = 0%Z) as Hr.
  { unfold Qeq in H. simpl in H. lia. }
  rewrite Hr in Hu. change (inject_Z 0) with 0 in Hu. lra.
Qed.

End rounding.

(** ** The metrics calculator *)
Section metrics_facts.

Import metrics.

Implicit Types (l predictions : list Prediction) (pred : Prediction).

Lemma count_matches_from l (start : Z) :
  fold_left
    (λ matches pred, if is_hit pred then (matches + 1)%Z else matches) l start
  = (start + len (List.filter is_hit l))%Z.
Proof.
  revert start. induction l as [|pred l IH]; intros start; simpl.
  - unfold len. simpl. lia.
  - rewrite IH. destruct (is_hit pred); unfold len; simpl; lia.
Qed.

Lemma count_matches_filter l : count_matches l = len (List.filter is_hit l).
Proof. unfold count_matches. apply (count_matches_from l 0). Qed.

Lemma count_matches_app l1 l2 :
  count_matches (l1 ++ l2) = (count_matches l1 + count_matches l2)%Z.
Proof.
  rewrite !count_matches_filter, List.filter_app. unfold len.
  rewrite length_app. lia.
Qed.

Lemma count_matches_bounds l : (0 <= count_matches l <= len l)%Z.
Proof.
  rewrite count_matches_filter. unfold len.
  pose proof (List.filter_length_le is_hit l). lia.
Qed.

Lemma count_matches_all l :
  count_matches l = len l ↔ Forall (λ pred, predicted pred = actual pred) l.
Proof.
  rewrite count_matches_filter. unfold len.
  induction l as [|pred l IH]; simpl.
  - split; [constructor|done].
  - rewrite Forall_cons. unfold is_hit at 1. case_bool_decide as Hp; simpl.
    + rewrite <- IH. split; [intros; split; [done|lia] | intros [_ ?]; lia].
    + pose proof (List.filter_length_le is_hit l). split; [lia | tauto].
Qed.

Lemma count_matches_none l :
  count_matches l = 0%Z ↔ Forall (λ pred, predicted pred ≠ actual pred) l.
Proof.
  rewrite count_matches_filter. unfold len.
  induction l as [|pred l IH]; simpl.
  - split; [constructor|done].
  - rewrite Forall_cons. unfold is_hit at 1. case_bool_decide as Hp; simpl.
    + split; [lia | tauto].
    + rewrite <- IH. tauto.
Qed.

Lemma len_pos {A : Type} (l : list A) : l ≠ [] → (0 < len l)%Z.
Proof. destruct l; [done|]. unfold len. simpl. lia. Qed.

(** The accuracy field on a non-empty array. *)
Lemma accuracy_computeMetrics l :
  l ≠ [] →
  accuracy (computeMetrics (Some l))
  = toFixed6 (inject_Z (count_matches l) / inject_Z (len l)).
Proof. destruct l; [done|reflexivity]. Qed.

Lemma ratio_range (m t : Z) :
  (0 <= m <= t)%Z → (0 < t)%Z →
  0 <= inject_Z m / inject_Z t ∧ inject_Z m / inject_Z t <= 1.
Proof.
  intros [Hm Hmt] Ht.
  assert (0 < inject_Z t) as HT by (rewrite (Zlt_Qlt 0 t) in Ht; exact Ht).
  rewrite Zle_Qle in Hm, Hmt. change (inject_Z 0) with 0 in Hm.
  split.
  - apply Qle_shift_div_l; [done|]. lra.
  - apply Qle_shift_div_r; [done|]. lra.
Qed.

End metrics_facts.

Section metrics_claims.

Import metrics.

Implicit Types (l predictions : list Prediction) (pred : Prediction).

Lemma len_nonneg {A : Type} (xs : list A) : (0 <= len xs)%Z.
Proof. unfold len. lia. Qed.

Lemma class_precision_nonneg l label : 0 <= class_precision l label.
Proof.
  unfold class_precision. pose proof (len_nonneg
    (List.filter (λ pred, bool_decide (predicted pred = label)
                          && bool_decide (actual pred = label)) l)) as Htp.
  fold (tp l label) in Htp.
  destruct (Z.ltb_spec 0 (tp l label + fp l label)) as [Hpos|]; [|done].
  apply Qle_shift_div_l.
  - by rewrite (Zlt_Qlt 0) in Hpos.
  - rewrite Qmult_0_l. by rewrite (Zle_Qle 0) in Htp.
Qed.

Lemma class_recall_nonneg l label : 0 <= class_recall l label.
Proof.
  unfold class_recall. pose proof (len_nonneg
    (List.filter (λ pred, bool_decide (predicted pred = label)
                          && bool_decide (actual pred = label)) l)) as Htp.
  fold (tp l label) in Htp.
  destruct (Z.ltb_spec 0 (tp l label + fn l label)) as [Hpos|]; [|done].
  apply Qle_shift_div_l.
  - by rewrite (Zlt_Qlt 0) in Hpos.
  - rewrite Qmult_0_l. by rewrite (Zle_Qle 0) in Htp.
Qed.

Lemma sum_nonneg (xs : list Q) (start : Q) :
  0 <= start → Forall (λ x, 0 <= x) xs →
  0 <= fold_left (λ sum p, sum + p) xs start.
Proof.
  intros Hs Hxs. revert start Hs.
  induction Hxs as [|x xs Hx _ IH]; intros start Hs; simpl; [done|].
  apply IH. lra.
Qed.

Lemma average_nonneg (xs : list Q) : Forall (λ x, 0 <= x) xs → 0 <= average xs.
Proof.
  intros Hxs. unfold average.
  pose proof (sum_nonneg xs 0 (Qle_refl 0) Hxs) as Hsum.
  pose proof (len_nonneg xs) as Hlen.
  destruct (Z.eq_dec (len xs) 0%Z) as [->|Hne].
  - unfold Qdiv. change (/ inject_Z 0) with 0. lra.
  - apply Qle_shift_div_l; [|lra].
    assert (0 < len xs)%Z as Hpos by lia. by rewrite (Zlt_Qlt 0) in Hpos.
Qed.

Lemma avgPrecision_nonneg l : 0 <= avgPrecision l.
Proof.
  apply average_nonneg, Forall_forall. intros x Hx.
  apply list_elem_of_In, in_map_iff in Hx as (label & <- & _).
  apply class_precision_nonneg.
Qed.

Lemma avgRecall_nonneg l : 0 <= avgRecall l.
Proof.
  apply average_nonneg, Forall_forall. intros x Hx.
  apply list_elem_of_In, in_map_iff in Hx as (label & <- & _).
  apply class_recall_nonneg.
Qed.

(** C10. Called on an absent or on an empty array, [computeMetrics] returns
    the fixed object with accuracy, precision, recall, f1 and matches all
    zero: the function is defined there and the numbers are proper ones. *)
Theorem computeMetrics_empty_is_zero :
  computeMetrics None
    = {| accuracy := 0; precision := 0; recall := 0; f1 := 0; matches := 0 |}
  ∧ computeMetrics (Some [])
    = {| accuracy := 0; precision := 0; recall := 0; f1 := 0; matches := 0 |}.
Proof. split; reflexivity. Qed.

Lemma count_matches_repeat pred (n : nat) :
  count_matches (repeat pred n)
  = if is_hit pred then Z.of_nat n else 0%Z.
Proof.
  rewrite count_matches_filter. unfold len.
  induction n as [|n IH]; simpl.
  - by destruct (is_hit pred).
  - destruct (is_hit pred) eqn:Hp; simpl; rewrite ?Hp in IH; lia.
Qed.

Lemma len_snoc_repeat {A : Type} (x y : A) (n : N) :
  len (repeat x (N.to_nat n) ++ [y]) = (Z.of_N n + 1)%Z.
Proof.
  unfold len. rewrite length_app, repeat_length. simpl length.
  rewrite Nat2Z.inj_add, N_nat_Z. reflexivity.
Qed.

Lemma snoc_not_nil {A : Type} (xs : list A) (y : A) : xs ++ [y] ≠ [].
Proof. by destruct xs. Qed.

(** C6, as amended. On a non-empty array the accuracy is a number between 0
    and 1; it is 1 when every compared row matches and 0 when none does; and
    on fewer than two million rows the converses hold as well: an accuracy
    of 1 means that every row matches, an accuracy of 0 that none does. *)
Theorem accuracy_range_and_extremes l :
  l ≠ [] →
  let acc := accuracy (computeMetrics (Some l)) in
  (0 <= acc ∧ acc <= 1)
  ∧ (Forall (λ pred, predicted pred = actual pred) l → acc == 1)
  ∧ (Forall (λ pred, predicted pred ≠ actual pred) l → acc == 0)
  ∧ ((len l < 2000000)%Z →
     (acc == 1 ↔ Forall (λ pred, predicted pred = actual pred) l)
     ∧ (acc == 0 ↔ Forall (λ pred, predicted pred ≠ actual pred) l)).
Proof.
  intros Hne acc. subst acc. rewrite accuracy_computeMetrics by done.
  pose proof (count_matches_bounds l) as Hm.
  pose proof (len_pos l Hne) as Ht.
  destruct (ratio_range _ _ Hm Ht) as [Hr0 Hr1].
  assert (0 < inject_Z (len l)) as HT by (by rewrite (Zlt_Qlt 0) in Ht).
  assert (inject_Z (count_matches l) / inject_Z (len l) * inject_Z (len l)
          == inject_Z (count_matches l)) as Hratio.
  { field. lra. }
  assert (Forall (λ pred, predicted pred = actual pred) l →
          toFixed6 (inject_Z (count_matches l) / inject_Z (len l)) == 1) as Hall.
  { intros Hall. apply count_matches_all in Hall. rewrite Hall.
    rewrite <- toFixed6_1. apply toFixed6_proper. field. lra. }
  assert (Forall (λ pred, predicted pred ≠ actual pred) l →
          toFixed6 (inject_Z (count_matches l) / inject_Z (len l)) == 0) as Hnone.
  { intros Hnone. apply count_matches_none in Hnone. rewrite Hnone.
    rewrite <- toFixed6_0. apply toFixed6_proper. field. lra. }
  split; [by apply toFixed6_range|].
  split; [done|]. split; [done|].
  intros Hsmall.
  assert (inject_Z (len l) < 2000000) as HS.
  { rewrite Zlt_Qlt in Hsmall. exact Hsmall. }
  split; (split; [|done]); intros Hacc.
  - apply count_matches_all.
    apply toFixed6_eq_1 in Hacc; [|done].
    destruct (Z.eq_dec (count_matches l) (len l)) as [|Hlt]; [done|exfalso].
    assert (count_matches l + 1 <= len l)%Z as Hle by lia.
    rewrite Zle_Qle, inject_Z_plus in Hle. change (inject_Z 1) with 1 in Hle.
    pose proof (Qmult_le_compat_r _ _ (inject_Z (len l)) Hacc (Qlt_le_weak _ _ HT)) as Hmul.
    rewrite Hratio in Hmul. lra.
  - apply count_matches_none.
    apply toFixed6_eq_0 in Hacc; [|done].
    destruct (Z.eq_dec (count_matches l) 0%Z) as [|Hpos]; [done|exfalso].
    assert (1 <= count_matches l)%Z as Hle by lia.
    rewrite Zle_Qle in Hle. change (inject_Z 1) with 1 in Hle.
    pose proof (Qmult_lt_compat_r _ _ (inject_Z (len l)) HT Hacc) as Hmul.
    rewrite Hratio in Hmul. lra.
Qed.

Lemma accuracy_range_and_extremes_witness :
  let acc := accuracy (computeMetrics (Some [hit_row; miss_row])) in
  (0 <= acc ∧ acc <= 1)
  ∧ (Forall (λ pred, predicted pred = actual pred) [hit_row; miss_row] → acc == 1)
  ∧ (Forall (λ pred, predicted pred ≠ actual pred) [hit_row; miss_row] → acc == 0)
  ∧ ((len [hit_row; miss_row] < 2000000)%Z →
     (acc == 1 ↔ Forall (λ pred, predicted pred = actual pred) [hit_row; miss_row])
     ∧ (acc == 0 ↔ Forall (λ pred, predicted pred ≠ actual pred) [hit_row; miss_row])).
Proof. apply (accuracy_range_and_extremes [hit_row; miss_row]). discriminate. Defined.

(** C6, the claim as written fails: with two million correct rows and one
    wrong row the accuracy is 1 although a compared row does not match, and
    with two million wrong rows and one correct row it is 0 although a row
    matches. *)
Lemma accuracy_extremes_not_exact :
  nearly_perfect ≠ []
  ∧ accuracy (computeMetrics (Some nearly_perfect)) == 1
  ∧ ¬ Forall (λ pred, predicted pred = actual pred) nearly_perfect
  ∧ nearly_hopeless ≠ []
  ∧ accuracy (computeMetrics (Some nearly_hopeless)) == 0
  ∧ ¬ Forall (λ pred, predicted pred ≠ actual pred) nearly_hopeless.
Proof.
  unfold nearly_perfect, nearly_hopeless.
  split; [apply snoc_not_nil|]. split; [|split; [|split; [apply snoc_not_nil|split]]].
  - rewrite accuracy_computeMetrics by apply snoc_not_nil.
    rewrite count_matches_app, count_matches_repeat, len_snoc_repeat, N_nat_Z.
    vm_compute. reflexivity.
  - rewrite Forall_app, Forall_singleton. intros [_ H]. discriminate H.
  - rewrite accuracy_computeMetrics by apply snoc_not_nil.
    rewrite count_matches_app, count_matches_repeat, len_snoc_repeat, N_nat_Z.
    vm_compute. reflexivity.
  - rewrite Forall_app, Forall_singleton. intros [_ H]. by apply H.
Qed.

End metrics_claims.

(** ** The calculator on binary64 numbers *)
Section binary64_facts.

Import metrics.


Lemma accuracy_binary64 l :
  l ≠ [] →
  binary64.accuracy (binary64.computeMetrics (Some l))
  = binary64.toFixed6
      (binary64.div (binary64.of_Z (count_matches l)) (binary64.of_Z (len l))).
Proof. by destruct l. Qed.

Lemma matches_binary64 l :
  binary64.matches (binary64.computeMetrics (Some l)) = count_matches l.
Proof. by destruct l. Qed.






End binary64_facts.
(** ** The comparison engine *)
Section comparison_facts.

Import metrics.

Implicit Types (rows user answer : list Row.t) (m : gmap string string).

Lemma label_map_app rows1 rows2 :
  label_map (rows1 ++ rows2) = fold_left set_row rows2 (label_map rows1).
Proof. unfold label_map. by rewrite fold_left_app. Qed.

Lemma set_rows_lookup_notin rows m (i : string) :
  i ∉ Row.row_id <$> rows → fold_left set_row rows m !! i = m !! i.
Proof.
  revert m. induction rows as [|row rows IH]; intros m Hi; simpl; [done|].
  rewrite fmap_cons, not_elem_of_cons in Hi. destruct Hi as [Hne Hi].
  rewrite IH by done. unfold set_row. by rewrite lookup_insert_ne.
Qed.

Lemma set_rows_lookup_in rows m m' (i : string) :
  i ∈ Row.row_id <$> rows →
  fold_left set_row rows m !! i = fold_left set_row rows m' !! i.
Proof.
  revert m m'. induction rows as [|row rows IH]; intros m m' Hi; simpl.
  - by apply elem_of_nil in Hi.
  - destruct (decide (i ∈ Row.row_id <$> rows)) as [Hin|Hout].
    + by apply IH.
    + rewrite !set_rows_lookup_notin by done.
      rewrite fmap_cons, elem_of_cons in Hi. destruct Hi as [->|]; [|done].
      unfold set_row. by rewrite !lookup_insert_eq.
Qed.

Lemma label_map_dom rows (i : string) :
  is_Some (label_map rows !! i) ↔ i ∈ ids rows.
Proof.
  unfold ids. rewrite elem_of_list_to_set.
  induction rows as [|row rows IH] using rev_ind.
  - split; [intros [? H]; unfold label_map in H; simpl in H;
              by rewrite lookup_empty in H|].
    intros H. by apply elem_of_nil in H.
  - rewrite label_map_app, fmap_app, elem_of_app. simpl.
    unfold set_row. rewrite list_elem_of_singleton.
    destruct (decide (Row.row_id row = i)) as [<-|Hne].
    + rewrite lookup_insert_eq. split; [by right|by eexists].
    + rewrite lookup_insert_ne by done. rewrite IH.
      split; [by left | by intros [?|?]].
Qed.

Lemma label_map_None rows (i : string) :
  label_map rows !! i = None ↔ i ∉ ids rows.
Proof. rewrite <- label_map_dom, eq_None_not_Some. done. Qed.

(** The loops of [compareCSVData] as list functions. *)
Lemma fold_check_answer_row m answer (acc : list Prediction * list string) :
  fold_left (check_answer_row m) answer acc
  = (acc.1 ++ omap (join_row m) answer,
     acc.2 ++ (Row.row_id <$> filter (λ row, m !! Row.row_id row = None) answer)).
Proof.
  revert acc. induction answer as [|row answer IH]; intros [cs ms]; simpl.
  - by rewrite !app_nil_r.
  - rewrite IH. unfold check_answer_row, join_row at 2. simpl.
    rewrite filter_cons.
    destruct (m !! Row.row_id row) as [lab|] eqn:Hm; simpl.
    + by rewrite <- app_assoc.
    + by rewrite <- app_assoc.
Qed.

Lemma fold_check_user_row m user (acc : list string) :
  fold_left (check_user_row m) user acc
  = acc ++ (Row.row_id <$> filter (λ row, m !! Row.row_id row = None) user).
Proof.
  revert acc. induction user as [|row user IH]; intros acc; simpl.
  - by rewrite app_nil_r.
  - rewrite IH. unfold check_user_row. rewrite filter_cons.
    destruct (m !! Row.row_id row) as [lab|] eqn:Hm; simpl.
    + done.
    + by rewrite <- app_assoc.
Qed.

Lemma comparisons_compareCSVData user answer :
  comparisons (compareCSVData user answer) = omap (join_row (label_map user)) answer.
Proof. unfold compareCSVData. by rewrite fold_check_answer_row. Qed.

Lemma rowsCompared_compareCSVData user answer :
  rowsCompared (compareCSVData user answer)
  = len (omap (join_row (label_map user)) answer).
Proof. unfold compareCSVData. by rewrite fold_check_answer_row. Qed.

Lemma missingRows_compareCSVData user answer :
  missingRows (compareCSVData user answer)
  = len (filter (λ row, label_map user !! Row.row_id row = None) answer).
Proof.
  unfold compareCSVData. rewrite fold_check_answer_row. simpl.
  unfold len. by rewrite length_fmap.
Qed.

Lemma extraRows_compareCSVData user answer :
  extraRows (compareCSVData user answer)
  = len (filter (λ row, label_map answer !! Row.row_id row = None) user).
Proof.
  unfold compareCSVData. rewrite fold_check_answer_row, fold_check_user_row.
  simpl. unfold len. by rewrite length_fmap.
Qed.

Lemma ids_cons (row : Row.t) rows : ids (row :: rows) = {[Row.row_id row]} ∪ ids rows.
Proof. reflexivity. Qed.

Lemma length_omap_join m answer :
  length (omap (join_row m) answer)
  = length (filter (λ row, is_Some (m !! Row.row_id row)) answer).
Proof.
  induction answer as [|row answer IH]; [done|].
  rewrite filter_cons. simpl. unfold join_row at 1.
  destruct (m !! Row.row_id row) as [lab|] eqn:Hm; simpl.
  - f_equal. exact IH.
  - exact IH.
Qed.

Lemma count_rows_in rows (X : gset string) :
  NoDup (Row.row_id <$> rows) →
  length (filter (λ row, Row.row_id row ∈ X) rows) = size (ids rows ∩ X).
Proof.
  induction rows as [|row rows IH]; intros Hnd.
  - unfold ids. simpl. by rewrite intersection_empty_l_L, size_empty.
  - rewrite fmap_cons, NoDup_cons in Hnd. destruct Hnd as [Hfresh Hnd].
    assert (Row.row_id row ∉ ids rows) as Hfresh'.
    { unfold ids. by rewrite elem_of_list_to_set. }
    rewrite filter_cons, ids_cons.
    destruct (decide (Row.row_id row ∈ X)) as [Hin|Hout].
    + replace (({[Row.row_id row]} ∪ ids rows) ∩ X)
        with ({[Row.row_id row]} ∪ (ids rows ∩ X)) by set_solver.
      rewrite size_union by set_solver.
      rewrite size_singleton. simpl. by rewrite IH.
    + replace (({[Row.row_id row]} ∪ ids rows) ∩ X)
        with (ids rows ∩ X) by set_solver.
      by apply IH.
Qed.

Lemma count_rows_out rows (X : gset string) :
  NoDup (Row.row_id <$> rows) →
  length (filter (λ row, Row.row_id row ∉ X) rows) = size (ids rows ∖ X).
Proof.
  induction rows as [|row rows IH]; intros Hnd.
  - unfold ids. simpl. by rewrite difference_disjoint_L, size_empty by set_solver.
  - rewrite fmap_cons, NoDup_cons in Hnd. destruct Hnd as [Hfresh Hnd].
    assert (Row.row_id row ∉ ids rows) as Hfresh'.
    { unfold ids. by rewrite elem_of_list_to_set. }
    rewrite filter_cons, ids_cons.
    destruct (decide (Row.row_id row ∉ X)) as [Hout|Hin].
    + replace (({[Row.row_id row]} ∪ ids rows) ∖ X)
        with ({[Row.row_id row]} ∪ (ids rows ∖ X)) by set_solver.
      rewrite size_union by set_solver.
      rewrite size_singleton. simpl. by rewrite IH.
    + apply dec_stable in Hin.
      replace (({[Row.row_id row]} ∪ ids rows) ∖ X)
        with (ids rows ∖ X) by set_solver.
      by apply IH.
Qed.

Lemma filter_rows_ext (P Q : Row.t → Prop) `{!∀ x, Decision (P x)}
    `{!∀ x, Decision (Q x)} rows :
  (∀ row, P row ↔ Q row) → filter P rows = filter Q rows.
Proof. intros Hiff. apply list_filter_iff. exact Hiff. Qed.

(** C3, as amended. [rowsCompared] is the number of canonical rows whose
    identifier was submitted, [missingRows] the number of canonical rows
    whose identifier was not, and [extraRows] the number of submitted rows
    whose identifier is not canonical.  When no identifier is repeated in the
    canonical rows the first two are the sizes of the intersection and of
    canonical minus submitted; when none is repeated in the submitted rows
    the third is the size of submitted minus canonical. *)
Theorem counts_are_set_sizes user answer :
  let result := compareCSVData user answer in
  (rowsCompared result = len (filter (λ row, Row.row_id row ∈ ids user) answer)
   ∧ missingRows result = len (filter (λ row, Row.row_id row ∉ ids user) answer)
   ∧ extraRows result = len (filter (λ row, Row.row_id row ∉ ids answer) user))
  ∧ (NoDup (Row.row_id <$> answer) →
     rowsCompared result = Z.of_nat (size (ids answer ∩ ids user))
     ∧ missingRows result = Z.of_nat (size (ids answer ∖ ids user)))
  ∧ (NoDup (Row.row_id <$> user) →
     extraRows result = Z.of_nat (size (ids user ∖ ids answer))).
Proof.
  intros result. subst result.
  assert (rowsCompared (compareCSVData user answer)
          = len (filter (λ row, Row.row_id row ∈ ids user) answer)) as Hcompared.
  { rewrite rowsCompared_compareCSVData. unfold len. rewrite length_omap_join.
    f_equal; f_equal. apply filter_rows_ext. intros row. apply label_map_dom. }
  assert (missingRows (compareCSVData user answer)
          = len (filter (λ row, Row.row_id row ∉ ids user) answer)) as Hmissing.
  { rewrite missingRows_compareCSVData. unfold len.
    f_equal; f_equal. apply filter_rows_ext. intros row. apply label_map_None. }
  assert (extraRows (compareCSVData user answer)
          = len (filter (λ row, Row.row_id row ∉ ids answer) user)) as Hextra.
  { rewrite extraRows_compareCSVData. unfold len.
    f_equal; f_equal. apply filter_rows_ext. intros row. apply label_map_None. }
  rewrite Hcompared, Hmissing, Hextra. unfold len.
  split; [done|]. split.
  - intros Hnd. by rewrite count_rows_in, count_rows_out.
  - intros Hnd. by rewrite count_rows_out.
Qed.

Lemma counts_are_set_sizes_witness :
  let user := [row "1" "A"; row "2" "B"] in
  let answer := [row "1" "A"; row "3" "C"] in
  let result := compareCSVData user answer in
  (rowsCompared result = Z.of_nat (size (ids answer ∩ ids user))
   ∧ missingRows result = Z.of_nat (size (ids answer ∖ ids user)))
  ∧ extraRows result = Z.of_nat (size (ids user ∖ ids answer)).
Proof.
  intros user answer result.
  destruct (counts_are_set_sizes user answer) as (_ & Hanswer & Huser).
  split; [apply Hanswer | apply Huser]; compute_done.
Defined.

(** C3, the claim as written fails: a submission that repeats an identifier
    unknown to the canonical rows has [extraRows] 2 for a set difference of
    one element; canonical rows that repeat an identifier give [rowsCompared]
    2 for an intersection of one element. *)
Lemma counts_differ_from_set_sizes :
  (let user := [row "2" "A"; row "2" "B"] in
   let answer := [row "1" "A"] in
   extraRows (compareCSVData user answer) = 2%Z
   ∧ size (ids user ∖ ids answer) = 1%nat)
  ∧ (let user := [row "1" "A"] in
     let answer := [row "1" "A"; row "1" "B"] in
     rowsCompared (compareCSVData user answer) = 2%Z
     ∧ size (ids answer ∩ ids user) = 1%nat).
Proof. split; split; vm_compute; reflexivity. Qed.


Lemma label_map_snoc_cons pre (r : Row.t) post :
  label_map (pre ++ r :: post) = fold_left set_row post (set_row (label_map pre) r).
Proof. by rewrite label_map_app. Qed.

(** The map of a submission reads, at an identifier, the label of the last
    row that carries it. *)
Lemma label_map_last pre (r : Row.t) post :
  Row.row_id r ∉ Row.row_id <$> post →
  label_map (pre ++ r :: post) !! Row.row_id r = Some (Row.label r).
Proof.
  intros Hlast. rewrite label_map_snoc_cons, set_rows_lookup_notin by done.
  unfold set_row. by rewrite lookup_insert_eq.
Qed.

Lemma label_map_shadowed pre (r : Row.t) post :
  Row.row_id r ∈ Row.row_id <$> post →
  label_map (pre ++ r :: post) = label_map (pre ++ post).
Proof.
  intros Hlater. apply map_eq. intros i.
  rewrite label_map_snoc_cons, label_map_app.
  destruct (decide (i ∈ Row.row_id <$> post)) as [Hin|Hout].
  - by apply set_rows_lookup_in.
  - rewrite !set_rows_lookup_notin by done.
    unfold set_row. rewrite lookup_insert_ne; [done|].
    intros Heq. subst i. contradiction.
Qed.

Lemma elem_of_comparisons user answer (c : Prediction) :
  c ∈ comparisons (compareCSVData user answer) →
  label_map user !! row_id c = Some (predicted c)
  ∧ matched c = bool_decide (predicted c = actual c)
  ∧ ∃ answerRow, answerRow ∈ answer
      ∧ Row.row_id answerRow = row_id c ∧ Row.label answerRow = actual c.
Proof.
  rewrite comparisons_compareCSVData, list_elem_of_omap.
  intros (answerRow & Hin & Hjoin). unfold join_row in Hjoin.
  destruct (label_map user !! Row.row_id answerRow) as [lab|] eqn:Hm;
    simpl in Hjoin; [|done].
  injection Hjoin as <-. simpl. split; [done|]. split; [done|].
  by exists answerRow.
Qed.

(** The triples of one identifier: one for each canonical row that carries
    it, with the label the map of the submission holds for it. *)
Lemma omap_join_at (m : gmap string string) answer (i lab : string) :
  m !! i = Some lab →
  filter (λ c, row_id c = i) (omap (join_row m) answer)
  = (λ answerRow,
       {| row_id := i; predicted := lab; actual := Row.label answerRow;
          matched := bool_decide (lab = Row.label answerRow) |})
    <$> filter (λ answerRow, Row.row_id answerRow = i) answer.
Proof.
  intros Hm. induction answer as [|answerRow answer IH]; [done|].
  rewrite (filter_cons (λ answerRow, Row.row_id answerRow = i)).
  change (omap (join_row m) (answerRow :: answer))
    with (match join_row m answerRow with
          | Some c => c :: omap (join_row m) answer
          | None => omap (join_row m) answer
          end).
  unfold join_row at 1.
  destruct (decide (Row.row_id answerRow = i)) as [Hid|Hid].
  - rewrite Hid, Hm. simpl. rewrite filter_cons, decide_True by done.
    f_equal. exact IH.
  - destruct (m !! Row.row_id answerRow) as [other|]; simpl; [|exact IH].
    rewrite filter_cons, decide_False by done. exact IH.
Qed.

(** C9. When an identifier occurs several times in a submission, the join
    uses the label of its last occurrence.  For a row [r] with no later row
    of the same identifier, the emitted triples of that identifier are, in
    canonical order, one for each canonical row that carries the identifier,
    and each has [predicted] equal to the label of [r]: so there is such a
    triple as soon as the identifier is canonical, and there is no triple of
    that identifier with another label.  A row that is followed by a later
    row of the same identifier can be left out without changing any emitted
    triple. *)
Theorem last_occurrence_wins pre (r : Row.t) post answer :
  (Row.row_id r ∉ Row.row_id <$> post →
   filter (λ c, row_id c = Row.row_id r)
     (comparisons (compareCSVData (pre ++ r :: post) answer))
   = (λ answerRow,
        {| row_id := Row.row_id r; predicted := Row.label r;
           actual := Row.label answerRow;
           matched := bool_decide (Row.label r = Row.label answerRow) |})
     <$> filter (λ answerRow, Row.row_id answerRow = Row.row_id r) answer)
  ∧ (Row.row_id r ∈ Row.row_id <$> post →
     comparisons (compareCSVData (pre ++ r :: post) answer)
     = comparisons (compareCSVData (pre ++ post) answer)).
Proof.
  split.
  - intros Hlast. rewrite comparisons_compareCSVData.
    apply omap_join_at. by apply label_map_last.
  - intros Hlater.
    by rewrite !comparisons_compareCSVData, label_map_shadowed.
Qed.

Lemma last_occurrence_wins_witness :
  let answer := [row "1" "B"; row "2" "C"; row "1" "A"] in
  filter (λ c, row_id c = "1")
    (comparisons
       (compareCSVData ([row "1" "A"] ++ row "1" "B" :: [row "2" "C"]) answer))
  = [ {| row_id := "1"; predicted := "B"; actual := "B"; matched := true |};
      {| row_id := "1"; predicted := "B"; actual := "A"; matched := false |} ]
  ∧ comparisons (compareCSVData ([] ++ row "1" "A" :: [row "1" "B"; row "2" "C"]) answer)
    = comparisons (compareCSVData ([] ++ [row "1" "B"; row "2" "C"]) answer).
Proof.
  intros answer. split.
  - apply (last_occurrence_wins [row "1" "A"] (row "1" "B") [row "2" "C"] answer).
    compute_done.
  - apply (last_occurrence_wins [] (row "1" "A") [row "1" "B"; row "2" "C"] answer).
    compute_done.
Defined.

End comparison_facts.


(** ** The upload handler *)
Section upload_facts.

Import metrics submissions.

Lemma run_bind {A B : Type} (p : Prog A) (f : A → Prog B) (w : db.World) :
  run (p ≫= f) w = run (f (run p w).1) (run p w).2.
Proof.
  revert w. unfold mbind, prog_mbind.
  induction p as [a|X q k IH|path k IH]; intros w; simpl.
  - done.
  - destruct (db.exec q w) as [x w']. apply IH.
  - apply IH.
Qed.

Lemma run_await {X : Type} (q : db.Query X) (w : db.World) :
  run (await q) w = db.exec q w.
Proof. unfold await. simpl. by destruct (db.exec q w). Qed.

Lemma run_resolve_uploadLimit user w :
  run (resolve_uploadLimit user) w = (effective_quota user w, w).
Proof.
  unfold resolve_uploadLimit, effective_quota, global_default.
  destruct (auth.uploadLimit user) as [override|]; [done|].
  rewrite run_bind, run_await. simpl.
  by destruct (db.configs w !! "defaultUploadLimit").
Qed.

(** The [catch] block answers with the error of the server and removes the
    uploaded file. *)
Lemma run_failed req file w :
  submissions.file req = Some file →
  run (failed req) w
  = (ServerError "Failed to process submission", db.unlinkSync (path file) w).
Proof. intros Hfile. unfold failed. by rewrite Hfile. Qed.

(** The handler when [req.user] is not set: with a file and with canonical
    answers it ends in the [catch] block. *)
Lemma run_upload_unset req file answerCSV w :
  submissions.file req = Some file →
  head (db.answercsvs w) = Some answerCSV →
  user req = None →
  run (upload req) w
  = (ServerError "Failed to process submission", db.unlinkSync (path file) w).
Proof.
  intros Hfile Hanswer Huser. unfold upload. rewrite Hfile.
  rewrite run_bind, run_await. simpl. rewrite Hanswer. simpl.
  rewrite Huser. by apply run_failed.
Qed.

(** The handler up to the limit check. *)
Lemma run_upload req file user answerCSV w :
  submissions.file req = Some file →
  head (db.answercsvs w) = Some answerCSV →
  submissions.user req = Some user →
  run (upload req) w
  = if (effective_quota user w <=? submission_count (userId req) w)%Z
    then (LimitReached (submission_count (userId req) w) (effective_quota user w),
          db.unlinkSync (path file) w)
    else run (evaluate req file answerCSV (submission_count (userId req) w)) w.
Proof.
  intros Hfile Hanswer Huser. unfold upload. rewrite Hfile.
  rewrite run_bind, run_await. simpl. rewrite Hanswer. simpl.
  rewrite Huser.
  rewrite run_bind, run_resolve_uploadLimit. simpl.
  fold (submission_count (userId req) w).
  by destruct (effective_quota user w <=? submission_count (userId req) w)%Z.
Qed.

Lemma len_extract rows : len (extract rows) = len rows.
Proof. unfold len, extract. by rewrite length_map. Qed.

(** What [save] does with a document that has a file name. *)
Lemma saved_named doc w :
  Submission.filename doc ≠ EmptyString →
  saved doc w
  = {| db.answercsvs := db.answercsvs w;
       db.submissions := db.submissions w ++ [doc];
       db.configs := db.configs w;
       db.users := db.users w;
       db.uploads := db.uploads w |}.
Proof.
  intros Hname. unfold saved. cbn [db.exec]. unfold Submission.valid.
  by rewrite bool_decide_eq_false_2.
Qed.

Lemma submissions_saved doc w :
  Submission.filename doc ≠ EmptyString →
  db.submissions (saved doc w) = db.submissions w ++ [doc].
Proof. intros Hname. by rewrite saved_named. Qed.

(** The last steps: the document is saved when its file has a name. *)
Lemma run_evaluate req file answerCSV (count : Z) w :
  submissions.file req = Some file →
  errors (parseResult file) = [] →
  "row_id" ∈ fields (parseResult file) →
  "label" ∈ fields (parseResult file) →
  data (parseResult file) ≠ [] →
  let result := comparison_of file answerCSV in
  let doc := new_Submission (userId req) file result (count + 1) in
  run (evaluate req file answerCSV count) w
  = if bool_decide (originalname file = EmptyString)
    then (ServerError "Failed to process submission",
          db.unlinkSync (path file) w)
    else (Processed doc (rowsCompared result - matches (metrics.metrics result)),
          db.unlinkSync (path file) (saved doc w)).
Proof.
  intros Hfile Hparse Hid Hlabel Hrows result doc.
  unfold evaluate. rewrite Hparse. simpl.
  rewrite !bool_decide_eq_true_2 by done. simpl.
  rewrite len_extract.
  destruct (Z.eqb_spec (len (data (parseResult file))) 0) as [Hzero|_].
  { pose proof (len_pos _ Hrows). lia. }
  fold (comparison_of file answerCSV). fold result. fold doc.
  unfold saved. cbn [run db.exec]. unfold Submission.valid.
  change (Submission.filename doc) with (originalname file).
  destruct (bool_decide (originalname file = EmptyString)); simpl.
  - by apply run_failed.
  - reflexivity.
Qed.

(** An accepted request is evaluated, saved and answered. *)
Lemma run_upload_accepted req file answerCSV w :
  accepted req file answerCSV w →
  let result := comparison_of file answerCSV in
  let doc := new_Submission (userId req) file result
               (submission_count (userId req) w + 1) in
  run (upload req) w
  = (Processed doc (rowsCompared result - matches (metrics.metrics result)),
     db.unlinkSync (path file) (saved doc w)).
Proof.
  intros [Hfile Hanswer [user Huser] Hquota Hname Hparse Hid Hlabel Hrows]
    result doc.
  rewrite (run_upload _ _ _ _ _ Hfile Hanswer Huser).
  specialize (Hquota _ Huser).
  destruct (Z.leb_spec (effective_quota user w) (submission_count (userId req) w));
    [lia|].
  rewrite run_evaluate by done.
  by rewrite bool_decide_eq_false_2.
Qed.

(** Every run of the handler: without a file nothing happens; with a file the
    request is either accepted or answered with an error after the file has
    been removed. *)
Lemma run_upload_outcome req w :
  match submissions.file req with
  | None => run (upload req) w = (BadRequest "No file uploaded", w)
  | Some file =>
      (∃ answerCSV, accepted req file answerCSV w)
      ∨ ∃ response,
          run (upload req) w = (response, db.unlinkSync (path file) w)
          ∧ ∀ doc mismatches, response ≠ Processed doc mismatches
  end.
Proof.
  destruct (submissions.file req) as [file|] eqn:Hfile.
  2: { unfold upload. rewrite Hfile. reflexivity. }
  destruct (head (db.answercsvs w)) as [answerCSV|] eqn:Hanswer.
  2: { right. eexists. split.
       - unfold upload. rewrite Hfile, run_bind, run_await. simpl.
         rewrite Hanswer. reflexivity.
       - done. }
  destruct (submissions.user req) as [user|] eqn:Huser.
  2: { right. eexists. split; [by eapply run_upload_unset|done]. }
  rewrite (run_upload _ _ _ _ _ Hfile Hanswer Huser).
  destruct (Z.leb_spec (effective_quota user w) (submission_count (userId req) w))
    as [Hfull|Hroom]; [right; eexists; split; [reflexivity|done]|].
  destruct (errors (parseResult file)) as [|e es] eqn:Herrors.
  2: { right. unfold evaluate. rewrite Herrors.
       eexists; split; [reflexivity|done]. }
  destruct (decide ("row_id" ∈ fields (parseResult file))) as [Hid|Hid].
  2: { right. unfold evaluate. rewrite Herrors. simpl.
       rewrite (bool_decide_eq_false_2 _ Hid).
       eexists; split; [reflexivity|done]. }
  destruct (decide ("label" ∈ fields (parseResult file))) as [Hlabel|Hlabel].
  2: { right. unfold evaluate. rewrite Herrors. simpl.
       rewrite (bool_decide_eq_false_2 _ Hlabel), orb_true_r.
       eexists; split; [reflexivity|done]. }
  destruct (decide (data (parseResult file) = [])) as [Hrows|Hrows].
  { right. unfold evaluate. rewrite Herrors. simpl.
    rewrite !bool_decide_eq_true_2 by done. simpl.
    rewrite len_extract, Hrows.
    eexists; split; [reflexivity|done]. }
  rewrite run_evaluate by done.
  case_bool_decide as Hname.
  - right. eexists; split; [reflexivity|done].
  - left. exists answerCSV. split; [done|done|by eexists| |done..].
    intros user' Huser'. by replace user' with user by congruence.
Qed.

(** The route as it is mounted: a request of a logged-in user with a file
    ends in the [catch] block as soon as there are canonical answers. *)
Lemma run_post_upload session_user file answerCSV w :
  head (db.answercsvs w) = Some answerCSV →
  run (post_upload (Some session_user) (Some file)) w
  = (ServerError "Failed to process submission", db.unlinkSync (path file) w).
Proof. intros Hanswer. by eapply run_upload_unset. Qed.

(** C5. The handler takes as limit the override of the user when it is set
    and the global default otherwise, and a request whose participant already
    has that many submissions or more is answered with the limit error
    before anything is compared or saved: the collection of submissions is
    left as it was, only the uploaded file is removed, and the outcome is
    the same whatever rows the file holds.  But the handler reads the
    override from [req.user], and as the route is mounted [req.user] is not
    set: the request of a logged-in participant who is over the limit
    persists nothing either, and is answered with the error of the server
    and not with the limit error. *)
Theorem quota_exceeded_is_a_server_error user file answerCSV w :
  head (db.answercsvs w) = Some answerCSV →
  (effective_quota user w <= submission_count (auth.id user) w)%Z →
  let cleaned := db.unlinkSync (path file) w in
  run (post_upload (Some user) (Some file)) w
  = (ServerError "Failed to process submission", cleaned)
  ∧ db.submissions cleaned = db.submissions w
  ∧ ∀ req,
      submissions.file req = Some file →
      userId req = auth.id user →
      submissions.user req = Some user →
      run (upload req) w
      = (LimitReached (submission_count (auth.id user) w) (effective_quota user w),
         cleaned)
      ∧ ∀ parseResult, run (upload (with_parseResult parseResult req)) w
                       = run (upload req) w.
Proof.
  intros Hanswer Hquota cleaned. split; [by eapply run_post_upload|].
  split; [done|]. intros req Hfile Hid Huser.
  assert (∀ req' file',
            submissions.file req' = Some file' → path file' = path file →
            userId req' = auth.id user → submissions.user req' = Some user →
            run (upload req') w
            = (LimitReached (submission_count (auth.id user) w)
                 (effective_quota user w), cleaned)) as Hrun.
  { intros req' file' Hfile' Hpath Hid' Huser'.
    rewrite (run_upload _ _ _ _ _ Hfile' Hanswer Huser'), Hid', Hpath.
    destruct (Z.leb_spec (effective_quota user w)
                (submission_count (auth.id user) w)); [done|lia]. }
  rewrite (Hrun req file) by done. split; [done|].
  intros parseResult.
  eapply Hrun;
    [unfold with_parseResult; simpl; rewrite Hfile; reflexivity | done..].
Qed.

Lemma quota_exceeded_is_a_server_error_witness :
  let user := {| auth.id := 7; auth.uploadLimit := Some 0%Z |} in
  let file := sample_file "uploads/a" [row "1" "A"] in
  run (post_upload (Some user) (Some file)) sample_world
  = (ServerError "Failed to process submission",
     db.unlinkSync "uploads/a" sample_world)
  ∧ run (upload {| submissions.file := Some file; userId := 7;
                   submissions.user := Some user |}) sample_world
    = (LimitReached 0 0, db.unlinkSync "uploads/a" sample_world).
Proof.
  intros user file.
  destruct (quota_exceeded_is_a_server_error user file _ sample_world eq_refl)
    as (Hmounted & _ & Hhandler).
  { vm_compute. discriminate. }
  split; [exact Hmounted|].
  by apply (Hhandler {| submissions.file := Some file; userId := 7;
                        submissions.user := Some user |}).
Defined.

Lemma rowsCompared_0 user answer :
  rowsCompared (compareCSVData user answer) = 0%Z →
  comparisons (compareCSVData user answer) = []
  ∧ metrics.metrics (compareCSVData user answer) = zero_metrics.
Proof.
  unfold compareCSVData.
  destruct (fold_left (check_answer_row (label_map user)) answer ([], []))
    as [compared missing]. simpl.
  destruct compared; [done|]. unfold len. simpl. lia.
Qed.

(** C1, what the code does with a well-formed submission that shares no
    identifier with the canonical rows, so that [rowsCompared] is 0.  As the
    route is mounted the request ends in the [catch] block, as every upload
    does once there are canonical answers: the answer is the error of the
    server, not an error of its own.  And the handler has no check of
    [rowsCompared]: were [req.user] set, the request of a participant under
    the limit would be answered as processed, with a submission of zero
    metrics saved under the next attempt number. *)
Theorem upload_without_overlap_has_no_error_of_its_own user file answerCSV w :
  head (db.answercsvs w) = Some answerCSV →
  errors (parseResult file) = [] →
  "row_id" ∈ fields (parseResult file) →
  "label" ∈ fields (parseResult file) →
  data (parseResult file) ≠ [] →
  originalname file ≠ EmptyString →
  (submission_count (auth.id user) w < effective_quota user w)%Z →
  rowsCompared (comparison_of file answerCSV) = 0%Z →
  run (post_upload (Some user) (Some file)) w
  = (ServerError "Failed to process submission", db.unlinkSync (path file) w)
  ∧ ∃ doc,
      run (upload {| submissions.file := Some file; userId := auth.id user;
                     submissions.user := Some user |}) w
      = (Processed doc 0, db.unlinkSync (path file) (saved doc w))
      ∧ db.submissions (saved doc w) = db.submissions w ++ [doc]
      ∧ Submission.rowsCompared doc = 0%Z
      ∧ Submission.matches doc = 0%Z
      ∧ Submission.accuracy doc = 0
      ∧ Submission.precision doc = 0
      ∧ Submission.recall doc = 0
      ∧ Submission.f1 doc = 0
      ∧ Submission.attemptNumber doc = (submission_count (auth.id user) w + 1)%Z.
Proof.
  intros Hanswer Hparse Hid Hlabel Hrows Hname Hroom Hnone.
  split; [by eapply run_post_upload|].
  set (req := {| submissions.file := Some file; userId := auth.id user;
                 submissions.user := Some user |}).
  assert (accepted req file answerCSV w) as Hok.
  { split; [done|done|by eexists| |done..]. by intros user' [= <-]. }
  rewrite (run_upload_accepted _ _ _ _ Hok).
  destruct (rowsCompared_0 _ _ Hnone) as [_ Hmetrics].
  fold (comparison_of file answerCSV) in Hmetrics.
  eexists. split.
  - rewrite Hnone, Hmetrics. reflexivity.
  - cbn [new_Submission Submission.rowsCompared Submission.matches
         Submission.accuracy Submission.precision Submission.recall
         Submission.f1 Submission.attemptNumber].
    rewrite Hnone, Hmetrics. split; [by apply submissions_saved|].
    by repeat split.
Qed.

Lemma upload_without_overlap_has_no_error_of_its_own_witness :
  let file := sample_file "uploads/a" [row "2" "A"] in
  run (post_upload (Some participant7) (Some file)) sample_world
  = (ServerError "Failed to process submission",
     db.unlinkSync "uploads/a" sample_world)
  ∧ ∃ doc,
      run (upload (sample_upload "uploads/a" [row "2" "A"])) sample_world
      = (Processed doc 0, db.unlinkSync "uploads/a" (saved doc sample_world))
      ∧ Submission.rowsCompared doc = 0%Z
      ∧ Submission.accuracy doc = 0
      ∧ Submission.attemptNumber doc = 1%Z.
Proof.
  intros file.
  destruct (upload_without_overlap_has_no_error_of_its_own participant7 file _
              sample_world eq_refl eq_refl)
    as (Hmounted & doc & Hrun & _ & Hcompared & _ & Haccuracy & _ & _ & _ & Hattempt).
  - simpl. set_solver.
  - simpl. set_solver.
  - discriminate.
  - discriminate.
  - vm_compute. reflexivity.
  - reflexivity.
  - split; [exact Hmounted|]. exists doc. by repeat split.
Defined.




(** A request that is answered as processed was accepted, and the document
    of the answer is the one that was made and saved for it. *)
Lemma run_upload_processed req w doc (mismatches : Z) :
  (run (upload req) w).1 = Processed doc mismatches →
  ∃ file answerCSV,
    accepted req file answerCSV w
    ∧ doc = new_Submission (userId req) file (comparison_of file answerCSV)
              (submission_count (userId req) w + 1)
    ∧ mismatches
      = (rowsCompared (comparison_of file answerCSV)
         - matches (metrics.metrics (comparison_of file answerCSV)))%Z
    ∧ (run (upload req) w).2 = db.unlinkSync (path file) (saved doc w).
Proof.
  intros Hrun.
  pose proof (run_upload_outcome req w) as Hout.
  destruct (submissions.file req) as [file|].
  2: { by rewrite Hout in Hrun. }
  destruct Hout as [(answerCSV & Hok)|(response & Hrun' & Hno)].
  2: { rewrite Hrun' in Hrun. simpl in Hrun. by destruct (Hno doc mismatches). }
  exists file, answerCSV. split; [done|].
  rewrite (run_upload_accepted _ _ _ _ Hok) in Hrun |- *. simpl in Hrun.
  injection Hrun as <- <-. done.
Qed.




End upload_facts.
(** ** Attempt numbers *)
Section attempt_facts.

Import metrics submissions.





Lemma submissions_after_save doc path w :
  Submission.filename doc ≠ EmptyString →
  db.submissions (db.unlinkSync path (saved doc w)) = db.submissions w ++ [doc].
Proof. intros Hname. by rewrite saved_named. Qed.

Lemma submission_count_after_save doc path w userId :
  Submission.filename doc ≠ EmptyString →
  submission_count userId (db.unlinkSync path (saved doc w))
  = (submission_count userId w
     + if bool_decide (Submission.userId doc = userId) then 1 else 0)%Z.
Proof.
  intros Hname.
  unfold submission_count. rewrite submissions_after_save, List.filter_app by done.
  unfold len. rewrite length_app. simpl.
  destruct (bool_decide (Submission.userId doc = userId)); simpl; lia.
Qed.

(** A request either leaves the submissions as they were or is accepted. *)
Lemma run_upload_cases req w :
  db.submissions (run (upload req) w).2 = db.submissions w
  ∨ ∃ file answerCSV, accepted req file answerCSV w.
Proof.
  pose proof (run_upload_outcome req w) as Hout.
  destruct (submissions.file req) as [file|].
  - destruct Hout as [(answerCSV & Hok)|(response & Hrun & _)].
    + right. by exists file, answerCSV.
    + left. by rewrite Hrun.
  - left. by rewrite Hout.
Qed.

Lemma numbered_run_upload userId req w :
  numbered userId w → numbered userId (run (upload req) w).2.
Proof.
  intros Hnum.
  destruct (run_upload_cases req w) as [Hsame|(file & answerCSV & Hok)].
  - unfold numbered, submission_count in *. by rewrite Hsame.
  - rewrite (run_upload_accepted _ _ _ _ Hok). simpl.
    assert (originalname file ≠ EmptyString) as Hname by by destruct Hok.
    unfold numbered. rewrite submission_count_after_save by done.
    rewrite submissions_after_save, List.filter_app, fmap_app, Hnum by done.
    simpl.
    destruct (bool_decide (submissions.userId req = userId)) eqn:Huser; simpl.
    + apply bool_decide_eq_true_1 in Huser. subst userId.
      assert (0 <= submission_count (submissions.userId req) w)%Z as Hpos
        by apply len_nonneg.
      rewrite seqZ_app by lia. f_equal.
      rewrite seqZ_cons, seqZ_nil by lia. f_equal. lia.
    + by rewrite app_nil_r, Z.add_0_r.
Qed.





End attempt_facts.

(** ** The leaderboard *)

(** *** The sort stage *)
Section sort_facts.

Context {A : Type} (before : A → A → bool).
Hypothesis before_total : ∀ x y, before x y = false → before y x = true.
Hypothesis before_trans :
  ∀ x y z, before x y = true → before y z = true → before x z = true.

Let R (x y : A) : Prop := before x y = true.

Lemma sort_insert_perm (x : A) (l : list A) :
  leaderboard.sort_insert before x l ≡ₚ x :: l.
Proof.
  induction l as [|y l IH]; simpl; [done|].
  destruct (before x y); [done|].
  rewrite IH. apply Permutation_swap.
Qed.

Lemma insertion_perm (l : list A) :
  foldr (leaderboard.sort_insert before) [] l ≡ₚ l.
Proof.
  induction l as [|x l IH]; simpl; [done|].
  by rewrite sort_insert_perm, IH.
Qed.

Lemma sort_stage_perm (store : leaderboard.Order A) (l : list A) :
  leaderboard.sort_stage store before l ≡ₚ l.
Proof.
  unfold leaderboard.sort_stage.
  by rewrite insertion_perm, leaderboard.arrange_perm.
Qed.

Lemma sort_insert_sorted (x : A) (l : list A) :
  StronglySorted R l → StronglySorted R (leaderboard.sort_insert before x l).
Proof.
  induction 1 as [|y l Hsorted IH Hy]; simpl.
  - repeat constructor.
  - destruct (before x y) eqn:Hxy.
    + constructor; [by constructor|].
      constructor; [done|].
      eapply Forall_impl; [exact Hy|]. intros z Hz. by eapply before_trans.
    + constructor; [done|].
      rewrite sort_insert_perm. constructor; [|done].
      by apply before_total.
Qed.

Lemma insertion_sorted (l : list A) :
  StronglySorted R (foldr (leaderboard.sort_insert before) [] l).
Proof.
  induction l as [|x l IH]; simpl; [constructor|].
  by apply sort_insert_sorted.
Qed.

Lemma sort_stage_sorted (store : leaderboard.Order A) (l : list A) :
  StronglySorted R (leaderboard.sort_stage store before l).
Proof. apply insertion_sorted. Qed.

(** A list that is sorted already is left as it is, and so the stage can
    give every sorted arrangement of its documents: the model leaves the
    order of documents with equal keys as open as the store does. *)
Lemma insertion_of_sorted (l : list A) :
  StronglySorted R l → foldr (leaderboard.sort_insert before) [] l = l.
Proof.
  induction 1 as [|x l Hsorted IH Hx]; simpl; [done|].
  rewrite IH. destruct l as [|y l]; [done|]. simpl.
  apply Forall_cons in Hx as [Hxy _]. unfold R in Hxy. by rewrite Hxy.
Qed.

Lemma sort_stage_complete `{!EqDecision A} (l l' : list A) :
  l' ≡ₚ l → StronglySorted R l' →
  ∃ store, leaderboard.sort_stage store before l = l'.
Proof.
  intros Hperm Hsorted.
  unshelve eexists
    {| leaderboard.arrange := λ x, if decide (x ≡ₚ l') then l' else x |}.
  - intros x. simpl. destruct (decide (x ≡ₚ l')) as [Hx|]; [by symmetry|done].
  - unfold leaderboard.sort_stage. simpl.
    rewrite decide_True by done. by apply insertion_of_sorted.
Qed.

End sort_facts.

Section leaderboard_facts.

Import leaderboard.

Lemma desc2_spec (a f a' f' : Q) :
  desc2 a f a' f' = true ↔ not_behind a f a' f'.
Proof.
  unfold desc2, not_behind.
  destruct (a ?= a') eqn:Hcmp.
  - apply Qeq_alt in Hcmp. rewrite Qle_bool_iff. split; [by right|].
    intros [Hlt|[_ ?]]; [|done]. lra.
  - apply Qlt_alt in Hcmp. split; [done|]. intros [Hlt|[Heq _]]; lra.
  - apply Qgt_alt in Hcmp. split; [by left|done].
Qed.

Lemma not_behind_total (a f a' f' : Q) :
  ¬ not_behind a f a' f' → not_behind a' f' a f.
Proof.
  unfold not_behind. intros Hnot.
  destruct (Qlt_le_dec a a') as [?|Hle]; [by left|].
  destruct (Qlt_le_dec a' a) as [?|Hle']; [exfalso; apply Hnot; by left|].
  right. split; [lra|].
  destruct (Qlt_le_dec f f') as [?|Hf]; [lra|].
  exfalso. apply Hnot. right. split; [lra|done].
Qed.

Lemma not_behind_trans (a1 f1 a2 f2 a3 f3 : Q) :
  not_behind a1 f1 a2 f2 → not_behind a2 f2 a3 f3 → not_behind a1 f1 a3 f3.
Proof.
  unfold not_behind. intros [H12|[H12 Hf12]] [H23|[H23 Hf23]].
  - left. lra.
  - left. lra.
  - left. lra.
  - right. split; lra.
Qed.

Lemma desc2_total (a f a' f' : Q) :
  desc2 a f a' f' = false → desc2 a' f' a f = true.
Proof.
  intros Hfalse. apply desc2_spec, not_behind_total.
  rewrite <- desc2_spec. congruence.
Qed.

Lemma desc2_trans (a1 f1 a2 f2 a3 f3 : Q) :
  desc2 a1 f1 a2 f2 = true → desc2 a2 f2 a3 f3 = true → desc2 a1 f1 a3 f3 = true.
Proof. rewrite !desc2_spec. apply not_behind_trans. Qed.

Lemma desc2_refl (a f : Q) : desc2 a f a f = true.
Proof. apply desc2_spec. right. split; lra. Qed.


Lemma add_group_covers groups doc :
  Submission.userId doc ∈ _id <$> add_group groups doc.
Proof.
  unfold add_group. case_bool_decide as Hin; [done|].
  rewrite fmap_app, elem_of_app. right. simpl. set_solver.
Qed.

Lemma add_group_grows groups doc (u : N) :
  u ∈ _id <$> groups → u ∈ _id <$> add_group groups doc.
Proof.
  unfold add_group. case_bool_decide; [done|].
  rewrite fmap_app, elem_of_app. by left.
Qed.

(** Every group is made from the first document of its user. *)
Lemma group_fold_first docs groups (g : Group) :
  g ∈ fold_left add_group docs groups →
  g ∈ groups
  ∨ ∃ pre doc post,
      docs = pre ++ doc :: post
      ∧ g = first_of doc
      ∧ (Submission.userId doc ∉ Submission.userId <$> pre)
      ∧ (Submission.userId doc ∉ _id <$> groups).
Proof.
  revert groups. induction docs as [|d docs IH]; intros groups; simpl; [by left|].
  intros Hg. apply IH in Hg as [Hg|(pre & doc & post & -> & -> & Hpre & Hnew)].
  - unfold add_group in Hg. case_bool_decide as Hin; [by left|].
    apply elem_of_app in Hg as [Hg|Hg]; [by left|].
    apply list_elem_of_singleton in Hg as ->.
    right. exists [], d, docs. split; [done|]. split; [done|].
    split; [apply not_elem_of_nil|done].
  - right. exists (d :: pre), doc, post. split; [done|]. split; [done|]. split.
    + rewrite fmap_cons, not_elem_of_cons. split; [|done].
      intros Heq. apply Hnew. rewrite Heq. apply add_group_covers.
    + intros Hin. apply Hnew. by apply add_group_grows.
Qed.

Lemma group_fold_NoDup docs groups :
  NoDup (_id <$> groups) → NoDup (_id <$> fold_left add_group docs groups).
Proof.
  revert groups. induction docs as [|d docs IH]; intros groups Hnd; simpl; [done|].
  apply IH. unfold add_group. case_bool_decide as Hin; [done|].
  rewrite fmap_app. apply NoDup_app. split; [done|]. split.
  - intros u Hu Hd. simpl in Hd. apply list_elem_of_singleton in Hd as ->.
    by apply Hin.
  - simpl. apply NoDup_singleton.
Qed.

Lemma StronglySorted_lookup {A : Type} (R : relation A) (l : list A)
    (i j : nat) (x y : A) :
  StronglySorted R l → (i < j)%nat → l !! i = Some x → l !! j = Some y → R x y.
Proof.
  intros Hsorted. revert i j.
  induction Hsorted as [|z l _ IH Hz]; intros i j Hij Hi Hj; [done|].
  destruct j as [|j]; [lia|]. simpl in Hj.
  destruct i as [|i]; simpl in Hi.
  - injection Hi as ->. rewrite Forall_forall in Hz. apply Hz.
    by eapply list_elem_of_lookup_2.
  - apply (IH i j); [lia|done..].
Qed.


Lemma by_accuracy_f1_total (a b : Submission.t) :
  by_accuracy_f1 a b = false → by_accuracy_f1 b a = true.
Proof. apply desc2_total. Qed.

Lemma by_accuracy_f1_trans (a b c : Submission.t) :
  by_accuracy_f1 a b = true → by_accuracy_f1 b c = true → by_accuracy_f1 a c = true.
Proof. apply desc2_trans. Qed.

Lemma by_bestAccuracy_bestF1_total (a b : Group) :
  by_bestAccuracy_bestF1 a b = false → by_bestAccuracy_bestF1 b a = true.
Proof. apply desc2_total. Qed.

Lemma by_bestAccuracy_bestF1_trans (a b c : Group) :
  by_bestAccuracy_bestF1 a b = true → by_bestAccuracy_bestF1 b c = true →
  by_bestAccuracy_bestF1 a c = true.
Proof. apply desc2_trans. Qed.

(** A group of the ranking is the first document of its user after the
    first sort, which no document of that user precedes in the order. *)
Lemma allRankings_best store docs (g : Group) :
  g ∈ allRankings store docs →
  ∃ doc, doc ∈ docs ∧ g = first_of doc
    ∧ ∀ doc', doc' ∈ docs → Submission.userId doc' = Submission.userId doc →
        by_accuracy_f1 doc doc' = true.
Proof.
  unfold allRankings. rewrite sort_stage_perm. intros Hg.
  apply group_fold_first in Hg as [Hg|(pre & doc & post & Hdocs & -> & Hpre & _)].
  { by apply elem_of_nil in Hg. }
  pose proof (sort_stage_sorted by_accuracy_f1 by_accuracy_f1_total
                by_accuracy_f1_trans (of_submissions store) docs) as Hsorted.
  pose proof (sort_stage_perm by_accuracy_f1 (of_submissions store) docs)
    as Hperm.
  rewrite Hdocs in Hsorted, Hperm.
  exists doc. split; [|split; [done|]].
  - rewrite <- Hperm. set_solver.
  - intros doc' Hdoc' Huser. rewrite <- Hperm in Hdoc'.
    apply elem_of_app in Hdoc' as [Hin|Hin].
    + exfalso. apply Hpre. rewrite <- Huser. by apply list_elem_of_fmap_2.
    + apply elem_of_cons in Hin as [->|Hin]; [apply desc2_refl|].
      apply StronglySorted_app_1_r, StronglySorted_cons in Hsorted as [Hall _].
      rewrite Forall_forall in Hall. by apply Hall.
Qed.

Lemma allRankings_sorted store docs :
  StronglySorted (λ a b, by_bestAccuracy_bestF1 a b = true)
    (allRankings store docs).
Proof.
  apply sort_stage_sorted.
  - apply by_bestAccuracy_bestF1_total.
  - apply by_bestAccuracy_bestF1_trans.
Qed.

Lemma allRankings_NoDup store docs : NoDup (_id <$> allRankings store docs).
Proof.
  unfold allRankings. rewrite sort_stage_perm.
  apply (group_fold_NoDup _ []). constructor.
Qed.

(** The handler served alone: both pipelines meet the same collection. *)
Lemma run_get store_leaderboard store_rank req w :
  run (get store_leaderboard store_rank req) w
  = (match leaderboard_pipeline store_leaderboard (limit_of (query_limit req))
             (db.submissions w) with
     | None => Failed "Failed to fetch leaderboard"
     | Some leaderboardData =>
         Ranking
           (combine_data
              (list_to_map
                 (List.filter
                    (λ user, bool_decide (user.1 ∈ map _id leaderboardData))
                    (map_to_list (db.users w))))
              leaderboardData)
           (match currentUserId req with
            | Some currentUserId =>
                if includeRank req
                then find_userRank currentUserId
                       (allRankings store_rank (db.submissions w))
                else None
            | None => None
            end)
           (len leaderboardData)
     end, w).
Proof.
  unfold get. rewrite run_bind, run_await. cbn [db.exec fst snd].
  destruct (leaderboard_pipeline _ _ _) as [leaderboardData|]; [|done].
  rewrite run_bind, run_await. cbn [db.exec fst snd].
  rewrite run_bind.
  destruct (currentUserId req) as [currentUserId|]; [|done].
  destruct (includeRank req); [|done].
  by rewrite run_bind, run_await.
Qed.

(** The ranked list of a successful response: the first [limit] groups of
    the ranking, numbered from 1. *)
Lemma board_of_get store_leaderboard store_rank req w board userRank totalEntries :
  (run (get store_leaderboard store_rank req) w).1
    = Ranking board userRank totalEntries →
  ∃ users,
    board = combine_data users
              (take (Z.to_nat (limit_of (query_limit req)))
                 (allRankings store_leaderboard (db.submissions w)))
    ∧ totalEntries
      = len (take (Z.to_nat (limit_of (query_limit req)))
               (allRankings store_leaderboard (db.submissions w)))
    ∧ (0 < limit_of (query_limit req))%Z.
Proof.
  rewrite run_get. cbn [fst]. unfold leaderboard_pipeline.
  destruct (Z.leb_spec (limit_of (query_limit req)) 0); [done|].
  intros [= <- _ <-]. by eexists.
Qed.

(** An entry of the ranked list: its rank is its position, and it shows a
    submission of its participant that none of the participant's
    submissions precedes. *)
Lemma entry_of_board store_leaderboard store_rank req w board userRank
    totalEntries (i : nat) (e : Entry) :
  (run (get store_leaderboard store_rank req) w).1
    = Ranking board userRank totalEntries →
  board !! i = Some e →
  rank e = (Z.of_nat i + 1)%Z
  ∧ ∃ doc, doc ∈ db.submissions w
      ∧ Submission.userId doc = userId e
      ∧ Submission.accuracy doc = accuracy e
      ∧ Submission.f1 doc = f1 e
      ∧ Submission.attemptNumber doc = entry_attemptNumber e
      ∧ ∀ doc', doc' ∈ db.submissions w → Submission.userId doc' = userId e →
          not_behind (accuracy e) (f1 e)
            (Submission.accuracy doc') (Submission.f1 doc').
Proof.
  intros (users & -> & _ & _)%board_of_get.
  unfold combine_data. rewrite list_lookup_imap.
  destruct (take _ _ !! i) as [g|] eqn:Hg; [|done].
  intros [= <-]. simpl.
  apply lookup_take_Some in Hg as [Hg Hi].
  split; [done|].
  apply list_elem_of_lookup_2, allRankings_best in Hg
    as (doc & Hdoc & -> & Hbest).
  exists doc. simpl. repeat (split; [done|]).
  intros doc' Hdoc' Huser. apply desc2_spec. by apply Hbest.
Qed.

(** C2, as amended. In the ranked list the rank of an entry is its position
    counted from 1; an entry carries the accuracy, f1 and attempt number of a
    submission of its participant that no submission of that participant
    precedes in the order accuracy descending, then f1 descending; the list
    is sorted by that order, an earlier entry never being behind a later one;
    and no participant is listed twice.  This holds however the store
    arranges documents with equal keys; the order has no third key. *)
Theorem leaderboard_ranks_best_submissions store_leaderboard store_rank req w
    board userRank totalEntries (i : nat) (e : Entry) :
  (run (get store_leaderboard store_rank req) w).1
    = Ranking board userRank totalEntries →
  board !! i = Some e →
  rank e = (Z.of_nat i + 1)%Z
  ∧ (∃ doc, doc ∈ db.submissions w
       ∧ Submission.userId doc = userId e
       ∧ Submission.accuracy doc = accuracy e
       ∧ Submission.f1 doc = f1 e
       ∧ Submission.attemptNumber doc = entry_attemptNumber e
       ∧ ∀ doc', doc' ∈ db.submissions w → Submission.userId doc' = userId e →
           not_behind (accuracy e) (f1 e)
             (Submission.accuracy doc') (Submission.f1 doc'))
  ∧ ∀ (j : nat) (e' : Entry), (i < j)%nat → board !! j = Some e' →
      not_behind (accuracy e) (f1 e) (accuracy e') (f1 e')
      ∧ userId e ≠ userId e'.
Proof.
  intros (users & -> & _ & _)%board_of_get.
  set (docs := db.submissions w).
  unfold combine_data. rewrite list_lookup_imap.
  destruct (take _ _ !! i) as [g|] eqn:Hg; [|done].
  intros [= <-]. simpl.
  apply lookup_take_Some in Hg as [Hg Hi].
  split; [done|]. split.
  - apply list_elem_of_lookup_2, allRankings_best in Hg
      as (doc & Hdoc & -> & Hbest).
    exists doc. simpl. repeat (split; [done|]).
    intros doc' Hdoc' Huser. apply desc2_spec. by apply Hbest.
  - intros j e'. intros Hij. rewrite list_lookup_imap.
    destruct (take _ _ !! j) as [g'|] eqn:Hg'; [|done].
    intros [= <-]. simpl.
    apply lookup_take_Some in Hg' as [Hg' Hj]. split.
    + apply desc2_spec.
      by apply (StronglySorted_lookup _ _ i j g g'
                  (allRankings_sorted store_leaderboard docs)).
    + intros Hsame.
      pose proof (NoDup_lookup _ i j (_id g)
                    (allRankings_NoDup store_leaderboard docs)) as Hnd.
      rewrite !list_lookup_fmap, Hg, Hg' in Hnd. simpl in Hnd.
      rewrite Hsame in Hnd. specialize (Hnd eq_refl eq_refl). lia.
Qed.

Lemma leaderboard_ranks_best_submissions_witness :
  let req := {| query_limit := None; includeRank := false;
                currentUserId := None |} in
  let board := board_of (run (get from_latest from_latest req) history_world).1 in
  ∃ e, board !! 0%nat = Some e
    ∧ rank e = (Z.of_nat 0 + 1)%Z
    ∧ (∃ doc, doc ∈ sample_history
         ∧ Submission.userId doc = userId e
         ∧ Submission.accuracy doc = accuracy e
         ∧ Submission.f1 doc = f1 e
         ∧ Submission.attemptNumber doc = entry_attemptNumber e
         ∧ ∀ doc', doc' ∈ sample_history → Submission.userId doc' = userId e →
             not_behind (accuracy e) (f1 e)
               (Submission.accuracy doc') (Submission.f1 doc'))
    ∧ ∀ (j : nat) (e' : Entry), (0 < j)%nat → board !! j = Some e' →
        not_behind (accuracy e) (f1 e) (accuracy e') (f1 e')
        ∧ userId e ≠ userId e'.
Proof.
  intros req board. eexists. split; [reflexivity|].
  apply (leaderboard_ranks_best_submissions from_latest from_latest req
           history_world board None 2 0); reflexivity.
Defined.

(** C2, the claim as written fails.  Participant 1 reaches accuracy and f1
    0.9 at the first attempt and again at the second, participant 2 reaches
    the same at the first attempt.  When the store hands the documents over
    latest first, the entry of participant 1 is the second attempt, although
    the first attempt is as good and earlier, and that entry is ranked before
    the entry of participant 2 with its first attempt: under the order with
    the earlier attempt first it would come after.  When the store hands the
    documents over in saving order, the entry of participant 1 is the first
    attempt: the code leaves it to the store. *)
Lemma ranking_ignores_attempt_number :
  let req := {| query_limit := None; includeRank := false;
                currentUserId := None |} in
  (∃ e1 e2,
     (run (get from_latest from_latest req) tied_world).1
       = Ranking [e1; e2] None 2
     ∧ rank e1 = 1%Z ∧ rank e2 = 2%Z
     ∧ userId e1 = 1%N ∧ userId e2 = 2%N
     ∧ accuracy e1 == accuracy e2 ∧ f1 e1 == f1 e2
     ∧ entry_attemptNumber e1 = 2%Z ∧ entry_attemptNumber e2 = 1%Z
     ∧ scored 1 1 (9 # 10) ∈ db.submissions tied_world
     ∧ ¬ spec_not_behind e1 e2)
  ∧ ∃ e1 e2,
      (run (get in_saving_order in_saving_order req) tied_world).1
        = Ranking [e1; e2] None 2
      ∧ userId e1 = 1%N ∧ entry_attemptNumber e1 = 1%Z.
Proof.
  intros req. split.
  - eexists _, _. split; [vm_compute; reflexivity|].
    repeat (split; [reflexivity|]).
    split; [apply list_elem_of_here|].
    unfold spec_not_behind. simpl. intros [Hacc|[_ [Hf1|[_ Hattempt]]]].
    + revert Hacc. apply Qlt_irrefl.
    + revert Hf1. apply Qlt_irrefl.
    + lia.
  - eexists _, _. split; [vm_compute; reflexivity|]. by split.
Qed.

End leaderboard_facts.

(** * Further properties *)

(** ** The metrics calculator: ranges and extremes *)
Section metrics_more.

Import metrics.

Implicit Types (l predictions : list Prediction) (pred : Prediction).

Lemma class_precision_le_1 l label : class_precision l label <= 1.
Proof.
  unfold class_precision.
  pose proof (len_nonneg (List.filter
    (λ pred, bool_decide (predicted pred = label)
             && bool_decide (actual pred = label)) l)) as Htp.
  pose proof (len_nonneg (List.filter
    (λ pred, bool_decide (predicted pred = label)
             && negb (bool_decide (actual pred = label))) l)) as Hfp.
  fold (tp l label) in Htp. fold (fp l label) in Hfp.
  destruct (Z.ltb_spec 0 (tp l label + fp l label)) as [Hpos|]; [|done].
  apply Qle_shift_div_r.
  - by rewrite (Zlt_Qlt 0) in Hpos.
  - rewrite Qmult_1_l, <- Zle_Qle. lia.
Qed.

Lemma class_recall_le_1 l label : class_recall l label <= 1.
Proof.
  unfold class_recall.
  pose proof (len_nonneg (List.filter
    (λ pred, bool_decide (predicted pred = label)
             && bool_decide (actual pred = label)) l)) as Htp.
  pose proof (len_nonneg (List.filter
    (λ pred, negb (bool_decide (predicted pred = label))
             && bool_decide (actual pred = label)) l)) as Hfn.
  fold (tp l label) in Htp. fold (fn l label) in Hfn.
  destruct (Z.ltb_spec 0 (tp l label + fn l label)) as [Hpos|]; [|done].
  apply Qle_shift_div_r.
  - by rewrite (Zlt_Qlt 0) in Hpos.
  - rewrite Qmult_1_l, <- Zle_Qle. lia.
Qed.

Lemma sum_le_len (xs : list Q) (start : Q) :
  Forall (λ x, x <= 1) xs →
  fold_left (λ sum p, sum + p) xs start <= start + inject_Z (len xs).
Proof.
  intros Hxs. revert start.
  induction Hxs as [|x xs Hx _ IH]; intros start; simpl.
  - change (start <= start + 0). lra.
  - specialize (IH (start + x)).
    replace (len (x :: xs)) with (len xs + 1)%Z by (unfold len; simpl; lia).
    rewrite inject_Z_plus. change (inject_Z 1) with 1. lra.
Qed.

Lemma average_le_1 (xs : list Q) : Forall (λ x, x <= 1) xs → average xs <= 1.
Proof.
  intros Hxs. unfold average.
  pose proof (sum_le_len xs 0 Hxs) as Hsum.
  pose proof (len_nonneg xs) as Hlen.
  destruct (Z.eq_dec (len xs) 0%Z) as [Hzero|Hne].
  - rewrite Hzero. unfold Qdiv. change (/ inject_Z 0) with 0. lra.
  - apply Qle_shift_div_r; [|lra].
    assert (0 < len xs)%Z as Hpos by lia. by rewrite (Zlt_Qlt 0) in Hpos.
Qed.

Lemma avgPrecision_le_1 l : avgPrecision l <= 1.
Proof.
  apply average_le_1, Forall_forall. intros x Hx.
  apply list_elem_of_In, in_map_iff in Hx as (label & <- & _).
  apply class_precision_le_1.
Qed.

Lemma avgRecall_le_1 l : avgRecall l <= 1.
Proof.
  apply average_le_1, Forall_forall. intros x Hx.
  apply list_elem_of_In, in_map_iff in Hx as (label & <- & _).
  apply class_recall_le_1.
Qed.

Lemma f1_score_range (p r : Q) :
  0 <= p → p <= 1 → 0 <= r → r <= 1 → 0 <= f1_score p r ∧ f1_score p r <= 1.
Proof.
  intros Hp0 Hp1 Hr0 Hr1. unfold f1_score.
  destruct (Qpositive (p + r)) eqn:Hpos; [|split; lra].
  apply Qpositive_spec in Hpos.
  assert (0 <= p * r) as Hpr by (apply Qmult_le_0_compat; lra).
  assert (p * r <= p) as Hprp by nra.
  assert (p * r <= r) as Hprr by nra.
  split.
  - apply Qle_shift_div_l; [done|]. lra.
  - apply Qle_shift_div_r; [done|]. lra.
Qed.

Lemma computeMetrics_ranges (predictions : option (list Prediction)) :
  let m := computeMetrics predictions in
  (0 <= accuracy m ∧ accuracy m <= 1)
  ∧ (0 <= precision m ∧ precision m <= 1)
  ∧ (0 <= recall m ∧ recall m <= 1)
  ∧ (0 <= f1 m ∧ f1 m <= 1).
Proof.
  destruct predictions as [[|pred l]|]; simpl;
    try (repeat split; first [done | lra]).
  pose proof (count_matches_bounds (pred :: l)) as Hm.
  assert (pred :: l ≠ []) as Hne by done.
  pose proof (len_pos _ Hne) as Ht.
  destruct (ratio_range _ _ Hm Ht) as [Hr0 Hr1].
  pose proof (avgPrecision_nonneg (pred :: l)).
  pose proof (avgPrecision_le_1 (pred :: l)).
  pose proof (avgRecall_nonneg (pred :: l)).
  pose proof (avgRecall_le_1 (pred :: l)).
  split; [by apply toFixed6_range|].
  split; [by apply toFixed6_range|].
  split; [by apply toFixed6_range|].
  apply toFixed6_range; by apply f1_score_range.
Qed.

Lemma computeMetrics_matches (predictions : option (list Prediction)) :
  (0 <= matches (computeMetrics predictions) <= len (default [] predictions))%Z.
Proof.
  destruct predictions as [[|pred l]|]; simpl; try done.
  apply (count_matches_bounds (pred :: l)).
Qed.

(** X1. Whatever array it is given, [computeMetrics] returns an accuracy, a
    precision, a recall and an f1 between 0 and 1, and a number of matches
    between 0 and the number of rows. *)
Theorem metrics_in_unit_interval (predictions : option (list Prediction)) :
  let m := computeMetrics predictions in
  (0 <= accuracy m ∧ accuracy m <= 1)
  ∧ (0 <= precision m ∧ precision m <= 1)
  ∧ (0 <= recall m ∧ recall m <= 1)
  ∧ (0 <= f1 m ∧ f1 m <= 1)
  ∧ (0 <= matches m <= len (default [] predictions))%Z.
Proof.
  intros m. subst m.
  destruct (computeMetrics_ranges predictions) as (Ha & Hp & Hr & Hf).
  pose proof (computeMetrics_matches predictions) as Hm.
  split; [exact Ha|]. split; [exact Hp|]. split; [exact Hr|].
  split; [exact Hf|exact Hm].
Qed.

(** *** The label universe *)

Lemma Set_add_elem (x y : string) (s : list string) :
  y ∈ Set_add x s ↔ y = x ∨ y ∈ s.
Proof.
  unfold Set_add. case_bool_decide as Hin.
  - split; [by right|]. intros [->|?]; done.
  - rewrite elem_of_app, list_elem_of_singleton. tauto.
Qed.

Lemma Set_add_NoDup (x : string) (s : list string) : NoDup s → NoDup (Set_add x s).
Proof.
  intros Hnd. unfold Set_add. case_bool_decide as Hin; [done|].
  apply NoDup_app. split; [done|]. split; [|apply NoDup_singleton].
  intros y Hy Hx. apply list_elem_of_singleton in Hx as ->. contradiction.
Qed.

Lemma labels_from l (s : list string) (label : string) :
  label ∈ fold_left
            (λ s pred, Set_add (actual pred) (Set_add (predicted pred) s)) l s
  ↔ label ∈ s ∨ ∃ pred, pred ∈ l ∧ (predicted pred = label ∨ actual pred = label).
Proof.
  revert s. induction l as [|pred l IH]; intros s; simpl.
  - split; [by left|]. intros [?|(pred & Hin & _)]; [done|].
    by apply elem_of_nil in Hin.
  - rewrite IH, !Set_add_elem. split.
    + intros [[->|[->|?]]|(p & Hp & Hl)].
      * right. exists pred. split; [apply list_elem_of_here|by right].
      * right. exists pred. split; [apply list_elem_of_here|by left].
      * by left.
      * right. exists p. split; [by apply list_elem_of_further|done].
    + intros [?|(p & Hp & Hl)]; [by left; right; right|].
      apply elem_of_cons in Hp as [->|Hp].
      * left. destruct Hl as [<-|<-]; [right; by left|by left].
      * right. by exists p.
Qed.

Lemma labels_from_NoDup l (s : list string) :
  NoDup s →
  NoDup (fold_left
           (λ s pred, Set_add (actual pred) (Set_add (predicted pred) s)) l s).
Proof.
  revert s. induction l as [|pred l IH]; intros s Hnd; simpl; [done|].
  apply IH. by do 2 apply Set_add_NoDup.
Qed.

Lemma elem_of_allLabels l (label : string) :
  label ∈ allLabels l
  ↔ ∃ pred, pred ∈ l ∧ (predicted pred = label ∨ actual pred = label).
Proof.
  unfold allLabels. rewrite labels_from. split; [|by right].
  intros [Hin|?]; [|done]. by apply elem_of_nil in Hin.
Qed.

Lemma allLabels_NoDup l : NoDup (allLabels l).
Proof. apply labels_from_NoDup. constructor. Qed.

Lemma allLabels_nonempty l : l ≠ [] → allLabels l ≠ [].
Proof.
  destruct l as [|pred l]; [done|]. intros _ Hnil.
  assert (predicted pred ∈ allLabels (pred :: l)) as Hin.
  { apply elem_of_allLabels. exists pred. split; [apply list_elem_of_here|by left]. }
  rewrite Hnil in Hin. by apply elem_of_nil in Hin.
Qed.

(** *** Averages of constant lists *)

Lemma sum_const (c : Q) (xs : list Q) (start : Q) :
  Forall (λ x, x == c) xs →
  fold_left (λ sum p, sum + p) xs start == start + c * inject_Z (len xs).
Proof.
  intros Hxs. revert start.
  induction Hxs as [|x xs Hx _ IH]; intros start; simpl.
  - change (start == start + c * 0). lra.
  - rewrite IH.
    replace (len (x :: xs)) with (len xs + 1)%Z by (unfold len; simpl; lia).
    rewrite inject_Z_plus. change (inject_Z 1) with 1. rewrite Hx. ring.
Qed.

Lemma average_const (c : Q) (xs : list Q) :
  Forall (λ x, x == c) xs → xs ≠ [] → average xs == c.
Proof.
  intros Hxs Hne. unfold average. rewrite (sum_const c) by done.
  pose proof (len_pos xs Hne) as Hpos. rewrite (Zlt_Qlt 0) in Hpos.
  change (inject_Z 0) with 0 in Hpos. field. lra.
Qed.

Lemma filter_nil_Forall {A : Type} (f : A → bool) (xs : list A) :
  Forall (λ x, f x = false) xs → List.filter f xs = [].
Proof.
  induction 1 as [|x xs Hx _ IH]; [done|]. simpl. by rewrite Hx.
Qed.

Lemma filter_nonempty {A : Type} (f : A → bool) (xs : list A) (x : A) :
  x ∈ xs → f x = true → (0 < len (List.filter f xs))%Z.
Proof.
  intros Hin Hx. apply len_pos. intros Hnil.
  assert (In x (List.filter f xs)) as Hfiltered.
  { apply filter_In. split; [by apply list_elem_of_In|done]. }
  by rewrite Hnil in Hfiltered.
Qed.

Lemma f1_score_proper (p p' r r' : Q) :
  p == p' → r == r' → f1_score p r == f1_score p' r'.
Proof.
  intros Hp Hr. unfold f1_score.
  assert (Qpositive (p + r) = Qpositive (p' + r')) as ->.
  { apply eq_true_iff_eq. rewrite !Qpositive_spec. by rewrite Hp, Hr. }
  destruct (Qpositive (p' + r')); [|reflexivity].
  by rewrite Hp, Hr.
Qed.

(** X2. When every row of a non-empty array is predicted correctly, the
    accuracy, the precision, the recall and the f1 are all 1 and every row
    is counted as a match. *)
Theorem all_correct_scores_one l :
  l ≠ [] →
  Forall (λ pred, predicted pred = actual pred) l →
  let m := computeMetrics (Some l) in
  accuracy m == 1 ∧ precision m == 1 ∧ recall m == 1 ∧ f1 m == 1
  ∧ matches m = len l.
Proof.
  intros Hne Hall.
  assert (count_matches l = len l) as Hcount by by apply count_matches_all.
  assert (∀ label, label ∈ allLabels l →
            (0 < tp l label)%Z ∧ fp l label = 0%Z ∧ fn l label = 0%Z) as Hclass.
  { intros label Hlabel. apply elem_of_allLabels in Hlabel as (p & Hp & Hl).
    rewrite Forall_forall in Hall.
    assert (predicted p = label ∧ actual p = label) as [Hpl Hal].
    { pose proof (Hall p Hp). destruct Hl; split; congruence. }
    split; [|split].
    - apply (filter_nonempty _ _ p Hp).
      by rewrite !bool_decide_eq_true_2.
    - unfold fp. rewrite filter_nil_Forall; [done|].
      apply Forall_forall. intros q Hq. specialize (Hall q Hq).
      rewrite Hall. by destruct (bool_decide (actual q = label)).
    - unfold fn. rewrite filter_nil_Forall; [done|].
      apply Forall_forall. intros q Hq. specialize (Hall q Hq).
      rewrite Hall. by destruct (bool_decide (actual q = label)). }
  assert (avgPrecision l == 1) as Hp.
  { apply average_const.
    - apply Forall_forall. intros x Hx.
      apply list_elem_of_In, in_map_iff in Hx as (label & <- & Hlabel).
      apply list_elem_of_In, Hclass in Hlabel as (Htp & Hfp & _).
      unfold class_precision. rewrite Hfp, Z.add_0_r.
      destruct (Z.ltb_spec 0 (tp l label)); [|lia].
      rewrite (Zlt_Qlt 0) in Htp. change (inject_Z 0) with 0 in Htp.
      field. lra.
    - intros Hnil. apply map_eq_nil in Hnil. by apply allLabels_nonempty in Hnil. }
  assert (avgRecall l == 1) as Hr.
  { apply average_const.
    - apply Forall_forall. intros x Hx.
      apply list_elem_of_In, in_map_iff in Hx as (label & <- & Hlabel).
      apply list_elem_of_In, Hclass in Hlabel as (Htp & _ & Hfn).
      unfold class_recall. rewrite Hfn, Z.add_0_r.
      destruct (Z.ltb_spec 0 (tp l label)); [|lia].
      rewrite (Zlt_Qlt 0) in Htp. change (inject_Z 0) with 0 in Htp.
      field. lra.
    - intros Hnil. apply map_eq_nil in Hnil. by apply allLabels_nonempty in Hnil. }
  destruct l as [|pred l]; [done|]. simpl.
  pose proof (len_pos (pred :: l) Hne) as Hpos.
  rewrite (Zlt_Qlt 0) in Hpos. change (inject_Z 0) with 0 in Hpos.
  split; [|split; [|split; [|split; [|done]]]].
  - rewrite <- toFixed6_1. apply toFixed6_proper. rewrite Hcount. field. lra.
  - rewrite <- toFixed6_1. by apply toFixed6_proper.
  - rewrite <- toFixed6_1. by apply toFixed6_proper.
  - rewrite <- toFixed6_1. apply toFixed6_proper.
    rewrite (f1_score_proper _ 1 _ 1) by done. reflexivity.
Qed.

Lemma all_correct_scores_one_witness :
  let m := computeMetrics (Some [hit_row; hit_row]) in
  accuracy m == 1 ∧ precision m == 1 ∧ recall m == 1 ∧ f1 m == 1
  ∧ matches m = len [hit_row; hit_row].
Proof.
  apply (all_correct_scores_one [hit_row; hit_row]); [discriminate|].
  repeat constructor.
Defined.

(** X3. When no row of a non-empty array is predicted correctly, the
    accuracy, the precision, the recall and the f1 are all 0 and no row is
    counted as a match. *)
Theorem all_wrong_scores_zero l :
  l ≠ [] →
  Forall (λ pred, predicted pred ≠ actual pred) l →
  let m := computeMetrics (Some l) in
  accuracy m == 0 ∧ precision m == 0 ∧ recall m == 0 ∧ f1 m == 0
  ∧ matches m = 0%Z.
Proof.
  intros Hne Hnone.
  assert (count_matches l = 0%Z) as Hcount by by apply count_matches_none.
  assert (∀ label, tp l label = 0%Z) as Htp.
  { intros label. unfold tp. rewrite filter_nil_Forall; [done|].
    eapply Forall_impl; [exact Hnone|]. intros q Hq. simpl.
    case_bool_decide as Hp; [|done]. case_bool_decide as Ha; [|done].
    congruence. }
  assert (avgPrecision l == 0) as Hp.
  { apply average_const.
    - apply Forall_forall. intros x Hx.
      apply list_elem_of_In, in_map_iff in Hx as (label & <- & _).
      unfold class_precision. rewrite Htp.
      destruct (0 <? 0 + fp l label)%Z; [|reflexivity].
      unfold Qdiv. change (inject_Z 0) with 0. ring.
    - intros Hnil. apply map_eq_nil in Hnil. by apply allLabels_nonempty in Hnil. }
  assert (avgRecall l == 0) as Hr.
  { apply average_const.
    - apply Forall_forall. intros x Hx.
      apply list_elem_of_In, in_map_iff in Hx as (label & <- & _).
      unfold class_recall. rewrite Htp.
      destruct (0 <? 0 + fn l label)%Z; [|reflexivity].
      unfold Qdiv. change (inject_Z 0) with 0. ring.
    - intros Hnil. apply map_eq_nil in Hnil. by apply allLabels_nonempty in Hnil. }
  destruct l as [|pred l]; [done|]. simpl.
  split; [|split; [|split; [|split; [|done]]]].
  - rewrite <- toFixed6_0. apply toFixed6_proper. rewrite Hcount.
    unfold Qdiv. change (inject_Z 0) with 0. ring.
  - rewrite <- toFixed6_0. by apply toFixed6_proper.
  - rewrite <- toFixed6_0. by apply toFixed6_proper.
  - rewrite <- toFixed6_0. apply toFixed6_proper.
    rewrite (f1_score_proper _ 0 _ 0) by done. reflexivity.
Qed.

Lemma all_wrong_scores_zero_witness :
  let m := computeMetrics (Some [miss_row; miss_row]) in
  accuracy m == 0 ∧ precision m == 0 ∧ recall m == 0 ∧ f1 m == 0
  ∧ matches m = 0%Z.
Proof.
  apply (all_wrong_scores_zero [miss_row; miss_row]); [discriminate|].
  repeat constructor; discriminate.
Defined.

(** *** Row order *)

Lemma filter_length_perm {A : Type} (f : A → bool) (xs ys : list A) :
  xs ≡ₚ ys → length (List.filter f xs) = length (List.filter f ys).
Proof.
  induction 1 as [|x xs ys _ IH|x y xs|xs ys zs _ IH1 _ IH2]; simpl.
  - done.
  - destruct (f x); simpl; by rewrite IH.
  - by destruct (f x), (f y).
  - by rewrite IH1.
Qed.

Lemma allLabels_perm l l' : l ≡ₚ l' → allLabels l ≡ₚ allLabels l'.
Proof.
  intros Hperm. apply NoDup_Permutation; try apply allLabels_NoDup.
  intros label. rewrite !elem_of_allLabels.
  split; intros (p & Hp & Hl); exists p; split; try done.
  - by rewrite <- Hperm.
  - by rewrite Hperm.
Qed.

Lemma seven_rows_perm : seven_rows ≡ₚ seven_rows_reordered.
Proof.
  unfold seven_rows, seven_rows_reordered.
  apply (Permutation_cons_app
           [compared "C" "C"; compared "B" "B"; compared "A" "D"; compared "D" "D"]
           [compared "B" "D"; compared "A" "A"]). simpl.
  apply (Permutation_cons_app
           [compared "C" "C"; compared "B" "B"; compared "A" "D"]
           [compared "B" "D"; compared "A" "A"]). simpl.
  apply (Permutation_cons_app [compared "C" "C"]
           [compared "A" "D"; compared "B" "D"; compared "A" "A"]). simpl.
  apply (Permutation_cons_app
           [compared "C" "C"; compared "A" "D"; compared "B" "D"] []). simpl.
  apply (Permutation_cons_app [compared "C" "C"; compared "A" "D"] []). simpl.
  apply perm_skip. reflexivity.
Qed.

(** X4. What [computeMetrics] returns for the same rows in another order:
    the matches and the accuracy are the same, every class has the same
    precision and recall, and the labels are the same up to their order.
    The macro averages add the class ratios in the order in which the labels
    are first seen, each sum rounded to binary64, so that the returned
    precision, recall and f1 may change with the order of the rows: they do
    for the seven rows of [seven_rows]. *)
Theorem row_order_changes_only_macro_averages l l' :
  l ≡ₚ l' →
  let m := binary64.computeMetrics (Some l) in
  let m' := binary64.computeMetrics (Some l') in
  binary64.matches m = binary64.matches m'
  ∧ binary64.accuracy m = binary64.accuracy m'
  ∧ allLabels l ≡ₚ allLabels l'
  ∧ (∀ label, binary64.class_precision l label = binary64.class_precision l' label
              ∧ binary64.class_recall l label = binary64.class_recall l' label)
  ∧ seven_rows ≡ₚ seven_rows_reordered
  ∧ binary64.f1 (binary64.computeMetrics (Some seven_rows))
    ≠ binary64.f1 (binary64.computeMetrics (Some seven_rows_reordered)).
Proof.
  intros Hperm.
  assert (count_matches l = count_matches l') as Hcount.
  { rewrite !count_matches_filter. unfold len.
    by rewrite (filter_length_perm _ _ _ Hperm). }
  assert (len l = len l') as Hlen.
  { unfold len. by rewrite (Permutation_length Hperm). }
  intros m m'. subst m m'. split; [by rewrite !matches_binary64|]. split.
  { destruct l as [|pred l].
    { by apply Permutation_nil_l in Hperm as <-. }
    destruct l' as [|pred' l'].
    { by apply Permutation_nil_r in Hperm. }
    rewrite !accuracy_binary64 by done. by rewrite Hcount, Hlen. }
  split; [by apply allLabels_perm|]. split.
  { intros label.
    unfold binary64.class_precision, binary64.class_recall, tp, fp, fn, len.
    by rewrite !(filter_length_perm _ _ _ Hperm). }
  split; [apply seven_rows_perm|vm_compute; discriminate].
Qed.

Lemma row_order_changes_only_macro_averages_witness :
  binary64.accuracy (binary64.computeMetrics (Some seven_rows))
  = binary64.accuracy (binary64.computeMetrics (Some seven_rows_reordered))
  ∧ binary64.f1 (binary64.computeMetrics (Some seven_rows)) = binary64.decimal6 false 664062
  ∧ binary64.f1 (binary64.computeMetrics (Some seven_rows_reordered))
    = binary64.decimal6 false 664063.
Proof.
  destruct (row_order_changes_only_macro_averages seven_rows seven_rows_reordered
              seven_rows_perm) as (_ & Haccuracy & _).
  split; [exact Haccuracy|]. split; vm_compute; reflexivity.
Defined.

End metrics_more.

(** ** The comparison engine: counts, order and irrelevant rows *)
Section comparison_more.

Import metrics.

Implicit Types (rows user answer : list Row.t) (m : gmap string string).

Lemma filter_split_length {A : Type} (P : A → Prop) `{!∀ x, Decision (P x)}
    (xs : list A) :
  (length (filter P xs) + length (filter (λ x, ¬ P x) xs) = length xs)%nat.
Proof.
  induction xs as [|x xs IH]; [done|].
  rewrite !filter_cons. destruct (decide (P x)) as [Hp|Hp].
  - rewrite decide_False by tauto. simpl. lia.
  - rewrite decide_True by done. simpl. lia.
Qed.

Lemma metrics_compareCSVData user answer :
  metrics.metrics (compareCSVData user answer)
  = computeMetrics (Some (comparisons (compareCSVData user answer))).
Proof. unfold compareCSVData. by rewrite fold_check_answer_row. Qed.

Lemma rowsIn_compareCSVData user answer :
  rowsInCanonical (compareCSVData user answer) = len answer
  ∧ rowsInSubmission (compareCSVData user answer) = len user.
Proof. unfold compareCSVData. by rewrite fold_check_answer_row. Qed.

Lemma compared_plus_missing user answer :
  (rowsCompared (compareCSVData user answer)
   + missingRows (compareCSVData user answer) = len answer)%Z.
Proof.
  rewrite rowsCompared_compareCSVData, missingRows_compareCSVData.
  unfold len. rewrite length_omap_join.
  pose proof (filter_split_length
                (λ row, is_Some (label_map user !! Row.row_id row)) answer) as Hsplit.
  rewrite (filter_rows_ext (λ row, label_map user !! Row.row_id row = None)
             (λ row, ¬ is_Some (label_map user !! Row.row_id row))).
  - lia.
  - intros row. by rewrite eq_None_not_Some.
Qed.

Lemma extraRows_bounds user answer :
  (0 <= extraRows (compareCSVData user answer) <= len user)%Z.
Proof.
  rewrite extraRows_compareCSVData. unfold len.
  pose proof (length_filter (λ row, label_map answer !! Row.row_id row = None) user).
  lia.
Qed.

Lemma matches_bounds user answer :
  (0 <= matches (metrics.metrics (compareCSVData user answer))
   <= rowsCompared (compareCSVData user answer))%Z.
Proof.
  rewrite metrics_compareCSVData, comparisons_compareCSVData,
    rowsCompared_compareCSVData.
  exact (computeMetrics_matches (Some (omap (join_row (label_map user)) answer))).
Qed.

(** X5. The counts of a comparison add up: every canonical row is either
    compared or missing, the extra rows are rows of the submission, and the
    matches are compared rows. *)
Theorem comparison_counts_add_up user answer :
  let result := compareCSVData user answer in
  rowsInCanonical result = len answer
  ∧ rowsInSubmission result = len user
  ∧ rowsCompared result = len (comparisons result)
  ∧ (rowsCompared result + missingRows result = rowsInCanonical result)%Z
  ∧ (0 <= extraRows result <= rowsInSubmission result)%Z
  ∧ (0 <= matches (metrics.metrics result) <= rowsCompared result)%Z.
Proof.
  intros result. subst result.
  destruct (rowsIn_compareCSVData user answer) as [-> ->].
  split; [done|]. split; [done|]. split.
  { by rewrite rowsCompared_compareCSVData, comparisons_compareCSVData. }
  split; [apply compared_plus_missing|].
  split; [apply extraRows_bounds|apply matches_bounds].
Qed.

Lemma label_map_Some rows (i lab : string) :
  label_map rows !! i = Some lab →
  ∃ row, row ∈ rows ∧ Row.row_id row = i ∧ Row.label row = lab.
Proof.
  induction rows as [|row rows IH] using rev_ind.
  - unfold label_map. simpl. by rewrite lookup_empty.
  - rewrite label_map_app. simpl. unfold set_row.
    destruct (decide (Row.row_id row = i)) as [Hi|Hi].
    + rewrite Hi, lookup_insert_eq. intros [= <-].
      exists row. split; [|done]. apply elem_of_app. right. apply list_elem_of_here.
    + rewrite lookup_insert_ne by done. intros Hm.
      destruct (IH Hm) as (r & Hr & ?). exists r. split; [|done].
      apply elem_of_app. by left.
Qed.

Lemma omap_join_keys m answer :
  (λ c, (row_id c, actual c)) <$> omap (join_row m) answer
  = (λ row, (Row.row_id row, Row.label row))
    <$> filter (λ row, is_Some (m !! Row.row_id row)) answer.
Proof.
  induction answer as [|row answer IH]; [done|].
  rewrite filter_cons. simpl. unfold join_row at 1.
  destruct (m !! Row.row_id row) as [lab|] eqn:Hm; simpl.
  - f_equal. exact IH.
  - exact IH.
Qed.

(** X6. The triples of a comparison are emitted in the order of the canonical
    rows, one for each canonical row whose identifier was submitted, with the
    identifier and the label of that row; the prediction of a triple is a
    label submitted under that identifier, and its flag tells whether the
    prediction equals the canonical label. *)
Theorem comparisons_follow_canonical_rows user answer :
  let result := compareCSVData user answer in
  (λ c, (row_id c, actual c)) <$> comparisons result
  = (λ row, (Row.row_id row, Row.label row))
    <$> filter (λ row, Row.row_id row ∈ ids user) answer
  ∧ ∀ c, c ∈ comparisons result →
      matched c = bool_decide (predicted c = actual c)
      ∧ ∃ row, row ∈ user ∧ Row.row_id row = row_id c
                ∧ Row.label row = predicted c.
Proof.
  intros result. subst result. split.
  - rewrite comparisons_compareCSVData, omap_join_keys. f_equal.
    apply filter_rows_ext. intros row. apply label_map_dom.
  - intros c Hc. apply elem_of_comparisons in Hc as (Hm & Hflag & _).
    split; [done|]. by apply label_map_Some.
Qed.

(** X7. The samples of missing and of extra identifiers are the first ten,
    in file order, of the canonical identifiers that were not submitted and
    of the submitted identifiers that are not canonical. *)
Theorem samples_are_first_ten user answer :
  let result := compareCSVData user answer in
  missingRowIds result
  = take 10 (Row.row_id <$> filter (λ row, Row.row_id row ∉ ids user) answer)
  ∧ extraRowIds result
    = take 10 (Row.row_id <$> filter (λ row, Row.row_id row ∉ ids answer) user)
  ∧ len (missingRowIds result) = Z.min 10 (missingRows result)
  ∧ len (extraRowIds result) = Z.min 10 (extraRows result).
Proof.
  intros result. subst result. unfold compareCSVData.
  rewrite fold_check_answer_row, fold_check_user_row. simpl.
  rewrite (filter_rows_ext (λ row, label_map user !! Row.row_id row = None)
             (λ row, Row.row_id row ∉ ids user))
    by (intros row; apply label_map_None).
  rewrite (filter_rows_ext (λ row, label_map answer !! Row.row_id row = None)
             (λ row, Row.row_id row ∉ ids answer))
    by (intros row; apply label_map_None).
  split; [done|]. split; [done|].
  unfold len. rewrite !length_take. lia.
Qed.


Lemma filter_no_rows (P : Row.t → Prop) `{!∀ x, Decision (P x)} rows :
  (∀ row, row ∈ rows → ¬ P row) → filter P rows = [].
Proof.
  induction rows as [|row rows IH]; intros Hall; [done|].
  rewrite filter_cons, decide_False by (apply Hall, list_elem_of_here).
  apply IH. intros r Hr. apply Hall. by apply list_elem_of_further.
Qed.

Lemma filter_all_rows (P : Row.t → Prop) `{!∀ x, Decision (P x)} rows :
  (∀ row, row ∈ rows → P row) → filter P rows = rows.
Proof.
  induction rows as [|row rows IH]; intros Hall; [done|].
  rewrite filter_cons, decide_True by (apply Hall, list_elem_of_here).
  f_equal. apply IH. intros r Hr. apply Hall. by apply list_elem_of_further.
Qed.

Lemma label_map_NoDup rows (row : Row.t) :
  NoDup (Row.row_id <$> rows) → row ∈ rows →
  label_map rows !! Row.row_id row = Some (Row.label row).
Proof.
  intros Hnd Hrow. apply list_elem_of_split in Hrow as (pre & post & ->).
  apply label_map_last.
  rewrite fmap_app, fmap_cons in Hnd.
  apply NoDup_app in Hnd as (_ & _ & Hnd). by apply NoDup_cons in Hnd as [? _].
Qed.

Lemma omap_join_self rows answer :
  (∀ row, row ∈ answer →
     label_map rows !! Row.row_id row = Some (Row.label row)) →
  omap (join_row (label_map rows)) answer
  = (λ row, {| row_id := Row.row_id row; predicted := Row.label row;
               actual := Row.label row; matched := true |}) <$> answer.
Proof.
  induction answer as [|row answer IH]; intros Hall; [done|].
  simpl. unfold join_row at 1.
  rewrite (Hall row) by apply list_elem_of_here. simpl.
  rewrite bool_decide_eq_true_2 by done. f_equal.
  apply IH. intros r Hr. apply Hall. by apply list_elem_of_further.
Qed.

Lemma comparisons_of_canonical_rows answer :
  NoDup (Row.row_id <$> answer) →
  comparisons (compareCSVData answer answer)
  = (λ row, {| row_id := Row.row_id row; predicted := Row.label row;
               actual := Row.label row; matched := true |}) <$> answer.
Proof.
  intros Hnd. rewrite comparisons_compareCSVData.
  apply omap_join_self. intros row. by apply label_map_NoDup.
Qed.

Lemma accuracy_all_correct (cs : list Prediction) :
  cs ≠ [] → Forall (λ c, predicted c = actual c) cs →
  accuracy (computeMetrics (Some cs)) == 1
  ∧ matches (computeMetrics (Some cs)) = len cs.
Proof.
  intros Hcs Hall.
  assert (count_matches cs = len cs) as Hcount by by apply count_matches_all.
  rewrite accuracy_computeMetrics by done.
  pose proof (len_pos cs Hcs) as Hpos.
  rewrite (Zlt_Qlt 0) in Hpos. change (inject_Z 0) with 0 in Hpos.
  split.
  - rewrite Hcount, <- toFixed6_1. apply toFixed6_proper. field. lra.
  - by destruct cs.
Qed.

(** X8. Submitting the canonical rows themselves, when no identifier is
    repeated among them, compares every row and finds every row correct:
    nothing is missing or extra, the matches are all the rows and the
    accuracy is 1. *)
Theorem canonical_rows_score_one answer :
  answer ≠ [] → NoDup (Row.row_id <$> answer) →
  let result := compareCSVData answer answer in
  rowsCompared result = len answer
  ∧ missingRows result = 0%Z ∧ extraRows result = 0%Z
  ∧ matches (metrics.metrics result) = len answer
  ∧ accuracy (metrics.metrics result) == 1.
Proof.
  intros Hne Hnd result. subst result.
  pose proof (comparisons_of_canonical_rows answer Hnd) as Hcs.
  rewrite metrics_compareCSVData, Hcs.
  rewrite missingRows_compareCSVData, extraRows_compareCSVData.
  assert (rowsCompared (compareCSVData answer answer) = len answer) as ->.
  { rewrite rowsCompared_compareCSVData, <- comparisons_compareCSVData, Hcs.
    unfold len. by rewrite length_fmap. }
  rewrite filter_no_rows by (intros row Hrow; by rewrite label_map_NoDup).
  destruct (accuracy_all_correct
              ((λ row, {| row_id := Row.row_id row; predicted := Row.label row;
                          actual := Row.label row; matched := true |}) <$> answer))
    as [Haccuracy Hmatches].
  - by destruct answer.
  - apply Forall_forall. intros c Hc.
    by apply list_elem_of_fmap in Hc as (row & -> & _).
  - split; [done|]. split; [done|]. split; [done|].
    split; [|done]. rewrite Hmatches. unfold len. by rewrite length_fmap.
Qed.

Lemma canonical_rows_score_one_witness :
  let answer := [row "1" "A"; row "2" "B"] in
  let result := compareCSVData answer answer in
  rowsCompared result = len answer
  ∧ missingRows result = 0%Z ∧ extraRows result = 0%Z
  ∧ matches (metrics.metrics result) = len answer
  ∧ accuracy (metrics.metrics result) == 1.
Proof.
  apply (canonical_rows_score_one [row "1" "A"; row "2" "B"]);
    [discriminate|compute_done].
Defined.

Lemma omap_join_none m answer :
  (∀ row, row ∈ answer → m !! Row.row_id row = None) →
  omap (join_row m) answer = [].
Proof.
  induction answer as [|row answer IH]; intros Hall; [done|].
  simpl. unfold join_row at 1.
  rewrite (Hall row) by apply list_elem_of_here. simpl.
  apply IH. intros r Hr. apply Hall. by apply list_elem_of_further.
Qed.

(** X9. A submission that shares no identifier with the canonical rows is
    compared with nothing: there is no triple, every canonical row is
    missing, every submitted row is extra, and the metrics are the zero
    metrics of the empty array. *)
Theorem disjoint_rows_compare_nothing user answer :
  ids user ## ids answer →
  let result := compareCSVData user answer in
  comparisons result = []
  ∧ rowsCompared result = 0%Z
  ∧ missingRows result = len answer
  ∧ extraRows result = len user
  ∧ metrics.metrics result = zero_metrics.
Proof.
  intros Hdisjoint result. subst result.
  rewrite metrics_compareCSVData, comparisons_compareCSVData.
  rewrite rowsCompared_compareCSVData, missingRows_compareCSVData,
    extraRows_compareCSVData.
  assert (∀ row, row ∈ answer → label_map user !! Row.row_id row = None) as Ha.
  { intros row Hrow. apply label_map_None. intros Hin.
    apply (Hdisjoint (Row.row_id row)); [done|].
    unfold ids. rewrite elem_of_list_to_set. by apply list_elem_of_fmap_2. }
  assert (∀ row, row ∈ user → label_map answer !! Row.row_id row = None) as Hu.
  { intros row Hrow. apply label_map_None. intros Hin.
    apply (Hdisjoint (Row.row_id row)); [|done].
    unfold ids. rewrite elem_of_list_to_set. by apply list_elem_of_fmap_2. }
  rewrite omap_join_none by done.
  rewrite !filter_all_rows by done.
  by repeat split.
Qed.


Lemma disjoint_rows_compare_nothing_witness :
  let result := compareCSVData [row "2" "A"; row "3" "B"] [row "1" "A"] in
  comparisons result = []
  ∧ rowsCompared result = 0%Z
  ∧ missingRows result = len [row "1" "A"]
  ∧ extraRows result = len [row "2" "A"; row "3" "B"]
  ∧ metrics.metrics result = zero_metrics.
Proof.
  apply (disjoint_rows_compare_nothing [row "2" "A"; row "3" "B"] [row "1" "A"]).
  unfold ids. simpl. set_solver.
Defined.

Lemma label_map_filter (X : gset string) rows (i : string) :
  i ∈ X →
  label_map (filter (λ row, Row.row_id row ∈ X) rows) !! i = label_map rows !! i.
Proof.
  intros Hi. induction rows as [|row rows IH] using rev_ind; [done|].
  rewrite filter_app, filter_cons, filter_nil.
  destruct (decide (Row.row_id row ∈ X)) as [Hrow|Hrow].
  - rewrite !label_map_app. simpl. unfold set_row.
    destruct (decide (Row.row_id row = i)) as [->|Hne].
    + by rewrite !lookup_insert_eq.
    + by rewrite !lookup_insert_ne.
  - rewrite app_nil_r, label_map_app. simpl. unfold set_row.
    rewrite lookup_insert_ne; [done|]. intros Heq. apply Hrow. by rewrite Heq.
Qed.

Lemma filter_rows_ext_in (P Q : Row.t → Prop) `{!∀ x, Decision (P x)}
    `{!∀ x, Decision (Q x)} rows :
  (∀ row, row ∈ rows → (P row ↔ Q row)) → filter P rows = filter Q rows.
Proof.
  induction rows as [|row rows IH]; intros Hiff; [done|].
  rewrite !filter_cons.
  rewrite IH by (intros r Hr; apply Hiff; by apply list_elem_of_further).
  destruct (decide (P row)) as [Hp|Hp].
  - rewrite decide_True; [done|]. by apply (Hiff row (list_elem_of_here _ _)).
  - rewrite decide_False; [done|].
    intros Hq. apply Hp. by apply (Hiff row (list_elem_of_here _ _)).
Qed.

Lemma omap_join_ext m m' answer :
  (∀ row, row ∈ answer → m !! Row.row_id row = m' !! Row.row_id row) →
  omap (join_row m) answer = omap (join_row m') answer.
Proof.
  induction answer as [|row answer IH]; intros Hall; [done|].
  assert (omap (join_row m) answer = omap (join_row m') answer) as Hrest.
  { apply IH. intros r Hr. apply Hall. by apply list_elem_of_further. }
  assert (join_row m row = join_row m' row) as Hrow.
  { unfold join_row. by rewrite (Hall row) by apply list_elem_of_here. }
  change (match join_row m row with
          | Some c => c :: omap (join_row m) answer
          | None => omap (join_row m) answer
          end
          = match join_row m' row with
            | Some c => c :: omap (join_row m') answer
            | None => omap (join_row m') answer
            end).
  by rewrite Hrow, Hrest.
Qed.

(** X10. The rows of a submission whose identifiers are not canonical play no
    part in the evaluation: the triples, the metrics and the missing rows are
    those of the submission without these rows, which then has no extra row;
    the extra rows are exactly the rows left out. *)
Theorem extra_rows_are_ignored user answer :
  let kept := filter (λ row, Row.row_id row ∈ ids answer) user in
  let result := compareCSVData user answer in
  let result' := compareCSVData kept answer in
  comparisons result = comparisons result'
  ∧ metrics.metrics result = metrics.metrics result'
  ∧ rowsCompared result = rowsCompared result'
  ∧ missingRows result = missingRows result'
  ∧ extraRows result' = 0%Z
  ∧ extraRows result = (len user - len kept)%Z.
Proof.
  intros kept result result'. subst result result'.
  assert (omap (join_row (label_map user)) answer
          = omap (join_row (label_map kept)) answer) as Hjoin.
  { apply omap_join_ext. intros row Hrow. symmetry. unfold kept.
    apply label_map_filter.
    unfold ids. rewrite elem_of_list_to_set. by apply list_elem_of_fmap_2. }
  rewrite !metrics_compareCSVData, !comparisons_compareCSVData.
  rewrite !rowsCompared_compareCSVData, !missingRows_compareCSVData,
    !extraRows_compareCSVData, Hjoin.
  assert (∀ i, i ∈ ids answer → label_map kept !! i = label_map user !! i)
    as Hkept.
  { intros i Hi. unfold kept.
    by apply label_map_filter. }
  split; [done|]. split; [done|]. split; [done|]. split; [|split].
  - unfold len. f_equal. f_equal. apply filter_rows_ext_in. intros row Hrow.
    rewrite Hkept; [done|].
    unfold ids. rewrite elem_of_list_to_set. by apply list_elem_of_fmap_2.
  - rewrite filter_no_rows; [done|]. intros row Hrow.
    apply list_elem_of_filter in Hrow as [Hcanonical _].
    rewrite label_map_None. tauto.
  - pose proof (filter_split_length (λ row, Row.row_id row ∈ ids answer) user)
      as Hsplit.
    rewrite (filter_rows_ext (λ row, label_map answer !! Row.row_id row = None)
               (λ row, ¬ Row.row_id row ∈ ids answer))
      by (intros row; apply label_map_None).
    unfold len. fold kept in Hsplit. lia.
Qed.

End comparison_more.

(** ** The upload handler: outcomes and what a request may change *)
Section upload_more.

Import metrics submissions.

(** X11. A submission is saved exactly when the request is answered as
    processed, and that is exactly when it passes every check, [req.user]
    being set and the file having a name: then the saved document is the one
    of the answer and it is appended to the collection; in every other case,
    the [catch] block included, the collection is left as it was.  As the
    route is mounted no request is answered as processed. *)
Theorem upload_saves_exactly_when_processed req w :
  let response := (run (upload req) w).1 in
  let w' := (run (upload req) w).2 in
  ((∃ doc mismatches, response = Processed doc mismatches)
   ↔ ∃ file answerCSV, accepted req file answerCSV w)
  ∧ (∀ doc mismatches, response = Processed doc mismatches →
       db.submissions w' = db.submissions w ++ [doc])
  ∧ ((∀ doc mismatches, response ≠ Processed doc mismatches) →
       db.submissions w' = db.submissions w)
  ∧ ∀ session_user file doc mismatches,
      (run (post_upload session_user file) w).1 ≠ Processed doc mismatches.
Proof.
  intros response w'. subst response w'.
  assert (∀ session_user file doc mismatches,
            (run (post_upload session_user file) w).1 ≠ Processed doc mismatches)
    as Hmounted.
  { intros [session_user|] file doc mismatches; [|done].
    intros (file' & answerCSV & [_ _ [user Huser] _ _ _ _ _ _] & _)%run_upload_processed.
    done. }
  split; [|split; [|split; [|exact Hmounted]]].
  - split.
    + intros (doc & m & (file & answerCSV & Hok & _)%run_upload_processed).
      by eauto.
    + intros (file & answerCSV & Hok).
      rewrite (run_upload_accepted _ _ _ _ Hok). simpl. by eauto.
  - intros doc m Hrun.
    pose proof Hrun as (file & answerCSV & Hok & -> & _ & ->)%run_upload_processed.
    apply submissions_after_save. by destruct Hok.
  - intros Hno.
    destruct (run_upload_cases req w) as [Hsame|(file & answerCSV & Hok)];
      [done|].
    exfalso. rewrite (run_upload_accepted _ _ _ _ Hok) in Hno. simpl in Hno.
    by destruct (Hno _ _ eq_refl).
Qed.

(** X12. A request changes nothing but its own file and the end of the
    collection of submissions, also when it ends in the [catch] block: the
    canonical answers and the configuration are those of before, the
    uploaded file, if there is one, is removed and no other file is, and the
    submissions of before are still there, in order, at most one document
    having been appended. *)
Theorem upload_changes_only_its_file_and_appends req w :
  let w' := (run (upload req) w).2 in
  db.answercsvs w' = db.answercsvs w
  ∧ db.configs w' = db.configs w
  ∧ db.uploads w'
    = match submissions.file req with
      | Some file => db.uploads w ∖ {[path file]}
      | None => db.uploads w
      end
  ∧ ∃ appended, db.submissions w' = db.submissions w ++ appended
      ∧ (length appended ≤ 1)%nat
      ∧ ∀ doc, doc ∈ appended → Submission.userId doc = userId req.
Proof.
  intros w'. subst w'.
  pose proof (run_upload_outcome req w) as Hout.
  destruct (submissions.file req) as [file|] eqn:Hfile.
  - destruct Hout as [(answerCSV & Hok)|(response & Hrun & Hno)].
    + rewrite (run_upload_accepted _ _ _ _ Hok). simpl.
      rewrite saved_named by by destruct Hok. simpl.
      split; [done|]. split; [done|]. split; [done|].
      eexists [_]. split; [done|]. split; [done|].
      intros doc Hdoc. by apply list_elem_of_singleton in Hdoc as ->.
    + rewrite Hrun. simpl. split; [done|]. split; [done|]. split; [done|].
      exists []. split; [by rewrite app_nil_r|]. split; [simpl; lia|].
      intros doc Hdoc. by apply elem_of_nil in Hdoc.
  - rewrite Hout. simpl. split; [done|]. split; [done|]. split; [done|].
    exists []. split; [by rewrite app_nil_r|]. split; [simpl; lia|].
    intros doc Hdoc. by apply elem_of_nil in Hdoc.
Qed.


(** X13. The checks of the handler come in a fixed order.  With a file but
    without canonical answers the request is refused whatever else holds.
    With canonical answers the handler reads [req.user]: when it is not set,
    as for every request that comes through the router, the request ends in
    the [catch] block whatever the file holds; when it is set and there is
    room under the limit, parse errors are reported first, then missing
    columns, then an empty file.  In each of these cases the file is removed
    and nothing else changes. *)
Theorem upload_rejections_in_order req file w :
  submissions.file req = Some file →
  let outcome := run (upload req) w in
  let cleaned := db.unlinkSync (path file) w in
  (head (db.answercsvs w) = None →
   outcome = (BadRequest "No canonical answer CSV has been uploaded yet. Please contact admin.",
              cleaned))
  ∧ (is_Some (head (db.answercsvs w)) →
     (submissions.user req = None →
      outcome = (ServerError "Failed to process submission", cleaned))
     ∧ ∀ user,
         submissions.user req = Some user →
         (submission_count (userId req) w < effective_quota user w)%Z →
         (errors (parseResult file) ≠ [] →
          outcome = (ParsingError (errors (parseResult file)), cleaned))
         ∧ (errors (parseResult file) = [] →
            "row_id" ∉ fields (parseResult file) ∨ "label" ∉ fields (parseResult file) →
            outcome = (MissingColumns (fields (parseResult file)), cleaned))
         ∧ (errors (parseResult file) = [] →
            "row_id" ∈ fields (parseResult file) →
            "label" ∈ fields (parseResult file) →
            data (parseResult file) = [] →
            outcome = (BadRequest "CSV file is empty", cleaned))).
Proof.
  intros Hfile outcome cleaned. subst outcome cleaned. split.
  - intros Hanswer. unfold upload. rewrite Hfile, run_bind, run_await. simpl.
    rewrite Hanswer. reflexivity.
  - intros [answerCSV Hanswer]. split; [by eapply run_upload_unset|].
    intros user Huser Hroom.
    rewrite (run_upload _ _ _ _ _ Hfile Hanswer Huser).
    destruct (Z.leb_spec (effective_quota user w)
                (submission_count (userId req) w)); [lia|].
    unfold evaluate. split; [|split].
    + intros Herrors.
      destruct (errors (parseResult file)) as [|e es]; [done|]. reflexivity.
    + intros -> Hcolumns. simpl.
      destruct Hcolumns as [Hid|Hlabel].
      * by rewrite (bool_decide_eq_false_2 _ Hid).
      * by rewrite (bool_decide_eq_false_2 _ Hlabel), orb_true_r.
    + intros -> Hid Hlabel Hdata. simpl.
      rewrite !bool_decide_eq_true_2 by done. simpl.
      rewrite len_extract, Hdata. reflexivity.
Qed.

Lemma upload_rejections_in_order_witness :
  run (upload (sample_upload "uploads/a" [])) sample_world
  = (BadRequest "CSV file is empty", db.unlinkSync "uploads/a" sample_world)
  ∧ run (post_upload (Some participant7) (Some (sample_file "uploads/a" [])))
      sample_world
    = (ServerError "Failed to process submission",
       db.unlinkSync "uploads/a" sample_world).
Proof.
  split.
  - refine (proj2 (proj2 (proj2 (proj2
              (upload_rejections_in_order (sample_upload "uploads/a" []) _
                 sample_world eq_refl) _)
              participant7 eq_refl _)) eq_refl _ _ eq_refl).
    + by eexists.
    + vm_compute. reflexivity.
    + simpl. set_solver.
    + simpl. set_solver.
  - refine (proj1 (proj2
              (upload_rejections_in_order
                 {| submissions.file := Some (sample_file "uploads/a" []);
                    userId := 7; submissions.user := None |} _
                 sample_world eq_refl) _) eq_refl).
    by eexists.
Defined.

(** X30. The upload route as the router mounts it never saves a
    submission.  A request without a session is answered with 401; a request
    without a file, or made while there are no canonical answers, is refused
    as by the handler; and every other request ends in the [catch] block,
    because the handler reads [req.user], which nothing sets.  The
    collections are left as they were, and the uploaded file is removed
    whenever the handler got one. *)
Theorem mounted_upload_never_saves session_user file w :
  let response := (run (post_upload session_user file) w).1 in
  let w' := (run (post_upload session_user file) w).2 in
  response
  = match session_user, file, head (db.answercsvs w) with
    | None, _, _ => AuthenticationRequired
    | Some _, None, _ => BadRequest "No file uploaded"
    | Some _, Some _, None =>
        BadRequest "No canonical answer CSV has been uploaded yet. Please contact admin."
    | Some _, Some _, Some _ => ServerError "Failed to process submission"
    end
  ∧ db.submissions w' = db.submissions w
  ∧ db.answercsvs w' = db.answercsvs w
  ∧ db.configs w' = db.configs w
  ∧ db.uploads w'
    = match session_user, file with
      | Some _, Some file => db.uploads w ∖ {[path file]}
      | _, _ => db.uploads w
      end.
Proof.
  intros response w'. subst response w'.
  destruct session_user as [session_user|]; [|done].
  destruct file as [file|]; [|done].
  destruct (head (db.answercsvs w)) as [answerCSV|] eqn:Hanswer.
  - by rewrite (run_post_upload _ _ _ _ Hanswer).
  - unfold post_upload, auth.requireAuth, upload. cbn [submissions.file].
    rewrite run_bind, run_await. simpl. by rewrite Hanswer.
Qed.

Lemma serve_snoc reqs req w :
  serve (reqs ++ [req]) w = (run (upload req) (serve reqs w)).2.
Proof. unfold serve. by rewrite fold_left_app. Qed.

Lemma configs_after_upload req w :
  db.configs (run (upload req) w).2 = db.configs w.
Proof.
  pose proof (run_upload_outcome req w) as Hout.
  destruct (submissions.file req) as [file|].
  - destruct Hout as [(answerCSV & Hok)|(response & Hrun & _)].
    + rewrite (run_upload_accepted _ _ _ _ Hok). simpl.
      by rewrite saved_named by by destruct Hok.
    + by rewrite Hrun.
  - by rewrite Hout.
Qed.

Lemma configs_after_serve reqs w : db.configs (serve reqs w) = db.configs w.
Proof.
  induction reqs as [|req reqs IH] using rev_ind; [done|].
  by rewrite serve_snoc, configs_after_upload.
Qed.

Lemma effective_quota_configs user w w' :
  db.configs w' = db.configs w → effective_quota user w' = effective_quota user w.
Proof.
  intros Hconfigs. unfold effective_quota, global_default. by rewrite Hconfigs.
Qed.

Lemma count_after_upload userId req w :
  submission_count userId (run (upload req) w).2 = submission_count userId w
  ∨ (submissions.userId req = userId
     ∧ (∃ user, submissions.user req = Some user
          ∧ (submission_count userId w < effective_quota user w)%Z)
     ∧ submission_count userId (run (upload req) w).2
       = (submission_count userId w + 1)%Z).
Proof.
  pose proof (run_upload_outcome req w) as Hout.
  destruct (submissions.file req) as [file|].
  - destruct Hout as [(answerCSV & Hok)|(response & Hrun & _)].
    + rewrite (run_upload_accepted _ _ _ _ Hok). simpl.
      rewrite submission_count_after_save by by destruct Hok. simpl.
      case_bool_decide as Huser.
      * right. split; [done|]. split; [|done].
        destruct Hok as [_ _ [user Hset] Hquota _ _ _ _ _].
        exists user. split; [done|]. rewrite <- Huser. by apply Hquota.
      * left. lia.
    + left. by rewrite Hrun.
  - left. by rewrite Hout.
Qed.

(** X14. Requests that are served one after the other never take a
    participant beyond the limit: if the participant has at most [q]
    submissions and every request of the participant that has [req.user]
    set is made under a limit of at most [q], the participant has at most
    [q] submissions afterwards. *)
Theorem serial_uploads_stay_within_quota userId (q : Z) reqs w :
  (submission_count userId w <= q)%Z →
  (∀ req user, req ∈ reqs → submissions.userId req = userId →
               submissions.user req = Some user →
               (effective_quota user w <= q)%Z) →
  (submission_count userId (serve reqs w) <= q)%Z.
Proof.
  intros Hstart. induction reqs as [|req reqs IH] using rev_ind; intros Hquota;
    [done|].
  rewrite serve_snoc.
  assert (submission_count userId (serve reqs w) <= q)%Z as Hbefore.
  { apply IH. intros r user Hr. apply Hquota, elem_of_app. by left. }
  destruct (count_after_upload userId req (serve reqs w))
    as [->|(Huser & (user & Hset & Hroom) & ->)]; [done|].
  rewrite (effective_quota_configs _ w) in Hroom by apply configs_after_serve.
  assert (effective_quota user w <= q)%Z.
  { apply (Hquota req); [|done..]. apply elem_of_app. right.
    apply list_elem_of_here. }
  lia.
Qed.

Lemma serial_uploads_stay_within_quota_witness :
  let req := {| submissions.file :=
                  submissions.file (sample_upload "uploads/a" [row "1" "A"]);
                userId := 7;
                submissions.user :=
                  Some {| auth.id := 7; auth.uploadLimit := Some 1%Z |} |} in
  (submission_count 7 (serve [req; req; req] sample_world) <= 1)%Z.
Proof.
  intros req.
  apply (serial_uploads_stay_within_quota 7 1 [req; req; req] sample_world).
  - vm_compute. discriminate.
  - intros r user Hr _.
    assert (r = req) as ->.
    { apply elem_of_cons in Hr as [?|Hr]; [done|].
      apply elem_of_cons in Hr as [?|Hr]; [done|].
      by apply list_elem_of_singleton in Hr. }
    intros [= <-]. vm_compute. discriminate.
Defined.


(** X15. The document saved for a processed request is consistent: it
    belongs to the participant of the request, its file had at least one
    row, its compared and missing rows add up to the canonical rows, its
    extra rows are rows of the file, its matches and the reported mismatches
    add up to the compared rows, its four metrics lie between 0 and 1, its
    attempt number is at least 1 and its preview has at most 20 rows. *)
Theorem processed_submission_is_consistent req w doc (mismatches : Z) :
  (run (upload req) w).1 = Processed doc mismatches →
  Submission.userId doc = userId req
  ∧ Submission.rowsTotal doc = Submission.rowsCompared doc
  ∧ (0 < Submission.rowsInSubmission doc)%Z
  ∧ (Submission.rowsCompared doc + Submission.missingRows doc
     = Submission.rowsInCanonical doc)%Z
  ∧ (0 <= Submission.extraRows doc <= Submission.rowsInSubmission doc)%Z
  ∧ (0 <= Submission.matches doc)%Z ∧ (0 <= mismatches)%Z
  ∧ (Submission.matches doc + mismatches = Submission.rowsCompared doc)%Z
  ∧ (0 <= Submission.accuracy doc ∧ Submission.accuracy doc <= 1)
  ∧ (0 <= Submission.precision doc ∧ Submission.precision doc <= 1)
  ∧ (0 <= Submission.recall doc ∧ Submission.recall doc <= 1)
  ∧ (0 <= Submission.f1 doc ∧ Submission.f1 doc <= 1)
  ∧ (1 <= Submission.attemptNumber doc)%Z
  ∧ (length (Submission.fileDataPreview doc) ≤ 20)%nat.
Proof.
  intros (file & answerCSV & Hok & -> & -> & _)%run_upload_processed.
  cbn [new_Submission Submission.userId Submission.rowsTotal
       Submission.rowsCompared Submission.rowsInSubmission
       Submission.missingRows Submission.rowsInCanonical Submission.extraRows
       Submission.matches Submission.accuracy Submission.precision
       Submission.recall Submission.f1 Submission.attemptNumber
       Submission.fileDataPreview].
  unfold comparison_of.
  set (user := extract (data (parseResult file))).
  set (answer := db.data answerCSV).
  destruct (rowsIn_compareCSVData user answer) as [Hcanonical Hsubmission].
  pose proof (compared_plus_missing user answer) as Hpartition.
  pose proof (extraRows_bounds user answer) as Hextra.
  pose proof (matches_bounds user answer) as Hmatches.
  pose proof (computeMetrics_ranges (Some (comparisons (compareCSVData user answer))))
    as (Ha & Hp & Hr & Hf).
  rewrite <- metrics_compareCSVData in Ha, Hp, Hr, Hf.
  assert (0 < len user)%Z as Hrows.
  { unfold user. rewrite len_extract. apply len_pos. by destruct Hok. }
  pose proof (len_nonneg (List.filter
    (λ s, bool_decide (Submission.userId s = userId req)) (db.submissions w)))
    as Hcount.
  fold (submission_count (userId req) w) in Hcount.
  rewrite Hcanonical, Hsubmission.
  split; [done|]. split; [done|]. split; [done|]. split; [done|].
  split; [done|]. split; [lia|]. split; [lia|]. split; [lia|].
  split; [done|]. split; [done|]. split; [done|]. split; [done|].
  split; [lia|].
  unfold preview. rewrite length_take. lia.
Qed.

Lemma processed_submission_is_consistent_witness :
  ∃ doc, db.submissions
           (run (upload (sample_upload "uploads/a" [row "1" "B"])) sample_world).2
         = [doc]
    ∧ (Submission.rowsCompared doc + Submission.missingRows doc
       = Submission.rowsInCanonical doc)%Z
    ∧ (1 <= Submission.attemptNumber doc)%Z.
Proof.
  eexists. split; [vm_compute; reflexivity|].
  pose proof (processed_submission_is_consistent
                (sample_upload "uploads/a" [row "1" "B"]) sample_world _ _ eq_refl)
    as (_ & _ & _ & Hpartition & _ & _ & _ & _ & _ & _ & _ & _ & Hattempt & _).
  split; [exact Hpartition|exact Hattempt].
Defined.

End upload_more.

(** ** The reading routes of a participant *)
Section reading_more.

Import submissions_get.

Lemma sort_insert_last {A : Type} (before : A → A → bool) (x : A) (l : list A) :
  (∀ y, y ∈ l → before x y = false) →
  leaderboard.sort_insert before x l = l ++ [x].
Proof.
  induction l as [|y l IH]; intros Hall; [done|]. simpl.
  rewrite (Hall y) by apply list_elem_of_here. f_equal.
  apply IH. intros z Hz. apply Hall. by apply list_elem_of_further.
Qed.

Lemma by_attemptNumber_total (a b : Submission.t) :
  by_attemptNumber a b = false → by_attemptNumber b a = true.
Proof. unfold by_attemptNumber. rewrite Z.leb_gt, Z.leb_le. lia. Qed.

Lemma by_attemptNumber_trans (a b c : Submission.t) :
  by_attemptNumber a b = true → by_attemptNumber b c = true →
  by_attemptNumber a c = true.
Proof. unfold by_attemptNumber. rewrite !Z.leb_le. lia. Qed.

(** Documents numbered upwards from [first], inserted one by one, are
    listed backwards. *)
Lemma insertion_numbered (docs : list Submission.t) (first : Z) :
  Submission.attemptNumber <$> docs = seqZ first (len docs) →
  foldr (leaderboard.sort_insert by_attemptNumber) [] docs = reverse docs
  ∧ ∀ doc, doc ∈ docs → (first <= Submission.attemptNumber doc)%Z.
Proof.
  revert first. induction docs as [|d docs IH]; intros first Hnum.
  - split; [done|]. intros doc Hdoc. by apply elem_of_nil in Hdoc.
  - replace (len (d :: docs)) with (Z.succ (len docs)) in Hnum
      by (unfold len; simpl; lia).
    rewrite seqZ_cons in Hnum by (pose proof (len_nonneg docs); lia).
    rewrite Z.pred_succ, fmap_cons in Hnum. injection Hnum as Hd Hrest.
    destruct (IH _ Hrest) as [Hsorted Hlater].
    split.
    + simpl. rewrite Hsorted, reverse_cons. apply sort_insert_last.
      intros y Hy. apply elem_of_reverse, Hlater in Hy.
      unfold by_attemptNumber. apply Z.leb_gt. lia.
    + intros doc Hdoc. apply elem_of_cons in Hdoc as [->|Hdoc]; [lia|].
      apply Hlater in Hdoc. lia.
Qed.

Lemma StronglySorted_fmap_impl {A B : Type} (R : relation A) (R' : relation B)
    (f : A → B) (l : list A) :
  (∀ a b, R a b → R' (f a) (f b)) →
  StronglySorted R l → StronglySorted R' (f <$> l).
Proof.
  intros Himpl. induction 1 as [|x l _ IH Hx]; [constructor|].
  rewrite fmap_cons. constructor; [exact IH|].
  apply Forall_fmap. eapply Forall_impl; [exact Hx|].
  intros y Hy. by apply Himpl.
Qed.

Lemma StronglySorted_weaken {A : Type} (R R' : relation A) (l : list A) :
  (∀ a b, R a b → R' a b) → StronglySorted R l → StronglySorted R' l.
Proof.
  intros Himpl. induction 1 as [|x l _ IH Hx]; constructor; [done|].
  eapply Forall_impl; [exact Hx|]. intros y. apply Himpl.
Qed.

(** Two arrangements of the same documents that are both sorted by a key
    which no two of the documents share are the same list. *)
Lemma perm_same_keys {A : Type} (key : A → Z) (l l' : list A) :
  l ≡ₚ l' → key <$> l = key <$> l' → NoDup (key <$> l) → l = l'.
Proof.
  revert l'. induction l as [|x l IH]; intros l' Hperm Hkeys Hnd.
  - by apply Permutation_nil_l in Hperm.
  - destruct l' as [|y l']; [done|].
    rewrite !fmap_cons in Hkeys. injection Hkeys as Hxy Hrest.
    rewrite fmap_cons in Hnd. apply NoDup_cons in Hnd as [Hx Hnd].
    assert (x = y) as <-.
    { assert (x ∈ y :: l') as Hin by (rewrite <- Hperm; apply list_elem_of_here).
      apply elem_of_cons in Hin as [?|Hin]; [done|].
      exfalso. apply Hx. rewrite Hrest. by apply list_elem_of_fmap_2. }
    f_equal. apply IH; [|done..]. by eapply Permutation_cons_inv.
Qed.

Lemma sorted_perm_by_key {A : Type} (key : A → Z) (l l' : list A) :
  l ≡ₚ l' → NoDup (key <$> l) →
  StronglySorted (λ a b, (key b <= key a)%Z) l →
  StronglySorted (λ a b, (key b <= key a)%Z) l' →
  l = l'.
Proof.
  intros Hperm Hnd Hl Hl'. apply (perm_same_keys key); [done| |done].
  assert (AntiSymm (=) (λ x y : Z, (y <= x)%Z)) as Hanti
    by (intros x y ? ?; lia).
  apply (StronglySorted_unique (λ x y : Z, (y <= x)%Z)).
  - by apply (StronglySorted_fmap_impl _ _ key l (λ a b H, H)).
  - by apply (StronglySorted_fmap_impl _ _ key l' (λ a b H, H)).
  - by apply fmap_Permutation.
Qed.

(** However the store arranges them, documents numbered upwards from
    [first] are listed backwards by the sort on the attempt number. *)
Lemma sort_numbered (store : leaderboard.Order Submission.t)
    (docs : list Submission.t) (first : Z) :
  Submission.attemptNumber <$> docs = seqZ first (len docs) →
  leaderboard.sort_stage store by_attemptNumber docs = reverse docs.
Proof.
  intros Hnum.
  assert (∀ l, StronglySorted
                 (λ a b, (Submission.attemptNumber b <= Submission.attemptNumber a)%Z)
                 (foldr (leaderboard.sort_insert by_attemptNumber) [] l)) as Hsorted.
  { intros l.
    eapply StronglySorted_weaken;
      [|exact (insertion_sorted by_attemptNumber by_attemptNumber_total
                 by_attemptNumber_trans l)].
    intros a b Hab. unfold by_attemptNumber in Hab. by apply Z.leb_le in Hab. }
  apply (sorted_perm_by_key Submission.attemptNumber).
  - rewrite sort_stage_perm. symmetry. apply reverse_Permutation.
  - rewrite sort_stage_perm, Hnum. apply NoDup_seqZ.
  - apply Hsorted.
  - destruct (insertion_numbered docs first Hnum) as [<- _]. apply Hsorted.
Qed.

Lemma attemptNumber_select (docs : list Submission.t) :
  attemptNumber <$> (select_without_preview <$> docs)
  = Submission.attemptNumber <$> docs.
Proof. induction docs as [|d docs IH]; [done|]. simpl. by f_equal. Qed.

(** X16. The list of a participant's submissions.  The handler reads the
    participant from [req.user]: when that is not set, as for every request
    that comes through the router, the answer is the error of the server.
    When it is set, the list holds one entry for each submission of the
    participant and for no other, each without its preview, ordered by
    attempt number with the latest first; and when the attempts are numbered
    1, 2, ... in saving order, as they are after requests served one after
    the other, the list shows them counted down to 1, however the store
    arranges the documents. *)
Theorem get_all_lists_own_submissions store user w :
  (∀ session_user,
     router_get_all store (Some session_user) w
     = ServerError "Failed to fetch submissions")
  ∧ ∃ items,
      get_all store (Some user) w = Submissions items
      ∧ items ≡ₚ select_without_preview <$> find (auth.id user) w
      ∧ len items = submission_count (auth.id user) w
      ∧ (∀ item, item ∈ items → submissions_get.userId item = auth.id user)
      ∧ StronglySorted (λ a b, (attemptNumber b <= attemptNumber a)%Z) items
      ∧ (numbered (auth.id user) w →
         attemptNumber <$> items
         = reverse (seqZ 1 (submission_count (auth.id user) w))).
Proof.
  split; [done|]. eexists. split; [reflexivity|].
  set (userId := auth.id user).
  pose proof (sort_stage_perm by_attemptNumber store (find userId w)) as Hperm.
  split; [by rewrite Hperm|]. split; [|split; [|split]].
  - unfold len, submission_count. rewrite length_fmap.
    by rewrite (Permutation_length Hperm).
  - intros item Hitem. apply list_elem_of_fmap in Hitem as (doc & -> & Hdoc).
    rewrite Hperm in Hdoc. unfold find in Hdoc.
    apply list_elem_of_In, filter_In in Hdoc as [_ Huser].
    by apply bool_decide_eq_true_1 in Huser.
  - eapply StronglySorted_fmap_impl;
      [|exact (sort_stage_sorted by_attemptNumber by_attemptNumber_total
                 by_attemptNumber_trans store (find userId w))].
    intros a b Hab. simpl. unfold by_attemptNumber in Hab.
    by apply Z.leb_le in Hab.
  - intros Hnum. unfold numbered in Hnum. fold (find userId w) in Hnum.
    rewrite (sort_numbered store (find userId w) 1) by done.
    by rewrite attemptNumber_select, fmap_reverse, Hnum.
Qed.

Lemma get_all_lists_own_submissions_witness :
  let w := serve [sample_upload "uploads/a" [row "1" "A"];
                  sample_upload "uploads/b" [row "1" "B"]] sample_world in
  ∃ items,
    get_all saving_order (Some participant7) w = Submissions items
    ∧ attemptNumber <$> items = [2; 1]%Z.
Proof.
  intros w.
  destruct (get_all_lists_own_submissions saving_order participant7 w)
    as (_ & items & Hget & _ & _ & _ & _ & Hnumbered).
  exists items. split; [exact Hget|]. apply Hnumbered. vm_compute. reflexivity.
Defined.

End reading_more.

Section best_more.

Import submissions_get.

Lemma find_elem userId w (doc : Submission.t) :
  doc ∈ find userId w ↔ doc ∈ db.submissions w ∧ Submission.userId doc = userId.
Proof.
  unfold find. rewrite list_elem_of_In, filter_In, bool_decide_eq_true.
  by rewrite <- list_elem_of_In.
Qed.

(** What the best-submission query finds. *)
Lemma best_of_user store userId w :
  let best := head (leaderboard.sort_stage store leaderboard.by_accuracy_f1
                      (find userId w)) in
  (best = None ↔ submission_count userId w = 0%Z)
  ∧ ∀ doc, best = Some doc →
      doc ∈ db.submissions w ∧ Submission.userId doc = userId
      ∧ ∀ doc', doc' ∈ db.submissions w → Submission.userId doc' = userId →
          not_behind (Submission.accuracy doc) (Submission.f1 doc)
            (Submission.accuracy doc') (Submission.f1 doc').
Proof.
  intros best. subst best.
  pose proof (sort_stage_perm leaderboard.by_accuracy_f1 store (find userId w))
    as Hperm.
  pose proof (sort_stage_sorted leaderboard.by_accuracy_f1 by_accuracy_f1_total
                by_accuracy_f1_trans store (find userId w)) as Hsorted.
  destruct (leaderboard.sort_stage store leaderboard.by_accuracy_f1 (find userId w))
    as [|best rest] eqn:Hsort; simpl.
  - apply Permutation_nil_l in Hperm. split; [|done].
    split; [|done]. intros _. unfold submission_count.
    fold (find userId w). by rewrite <- Hperm.
  - split.
    + split; [done|]. intros Hcount. exfalso.
      unfold submission_count in Hcount. fold (find userId w) in Hcount.
      destruct (find userId w) as [|d ds]; [|unfold len in Hcount; simpl in Hcount; lia].
      by apply Permutation_nil_r in Hperm.
    + intros doc [= <-].
      assert (best ∈ find userId w) as Hbest
        by (rewrite <- Hperm; apply list_elem_of_here).
      apply find_elem in Hbest as [Hin Huser].
      split; [done|]. split; [done|].
      intros doc' Hdoc' Huser'.
      assert (doc' ∈ best :: rest) as Hmember
        by (rewrite Hperm; by apply find_elem).
      apply desc2_spec.
      apply elem_of_cons in Hmember as [->|Hlater]; [apply desc2_refl|].
      apply StronglySorted_cons in Hsorted as [Hall _].
      rewrite Forall_forall in Hall. by apply Hall.
Qed.

(** X17. The best submission of a participant.  The handler reads the
    participant from [req.user]: when that is not set, as for every request
    that comes through the router, the answer is the error of the server.
    When it is set, the answer is [null] exactly when the participant has no
    submission; otherwise it is one of the participant's submissions, and
    none of them precedes it in the order accuracy descending, then f1
    descending, however the store arranges the documents. *)
Theorem get_best_is_best store user w :
  (∀ session_user,
     router_get_best store (Some session_user) w
     = ServerError "Failed to fetch best submission")
  ∧ ∃ best,
      get_best store (Some user) w = BestSubmission best
      ∧ (best = None ↔ submission_count (auth.id user) w = 0%Z)
      ∧ ∀ doc, best = Some doc →
          doc ∈ db.submissions w ∧ Submission.userId doc = auth.id user
          ∧ ∀ doc', doc' ∈ db.submissions w →
              Submission.userId doc' = auth.id user →
              not_behind (Submission.accuracy doc) (Submission.f1 doc)
                (Submission.accuracy doc') (Submission.f1 doc').
Proof.
  split; [done|]. eexists. split; [reflexivity|].
  apply best_of_user.
Qed.

(** Two pairs neither of which is behind the other are equal. *)
Lemma not_behind_antisym (a f a' f' : Q) :
  not_behind a f a' f' → not_behind a' f' a f → a == a' ∧ f == f'.
Proof. unfold not_behind. intros [?|[? ?]] [?|[? ?]]; split; lra. Qed.

(** X18. The leaderboard and the best-submission route agree on the scores:
    when both are answered from the same collection, an entry of the
    leaderboard carries the accuracy and the f1 of the submission that the
    route returns as the best one of that participant, however the store
    arranges documents with equal keys for either query.  (Among
    submissions that tie on both, the two may show different ones.) *)
Theorem leaderboard_entry_is_get_best store_leaderboard store_rank store req
    user w board userRank totalEntries (e : leaderboard.Entry) :
  (run (leaderboard.get store_leaderboard store_rank req) w).1
    = leaderboard.Ranking board userRank totalEntries →
  e ∈ board →
  auth.id user = leaderboard.userId e →
  ∃ doc, get_best store (Some user) w = BestSubmission (Some doc)
    ∧ Submission.accuracy doc == leaderboard.accuracy e
    ∧ Submission.f1 doc == leaderboard.f1 e.
Proof.
  intros Hget He Huser.
  apply list_elem_of_lookup in He as (i & He).
  destruct (entry_of_board _ _ _ _ _ _ _ _ _ Hget He)
    as (_ & shown & Hshown & Hid & Hacc & Hf1 & _ & Hbest).
  destruct (best_of_user store (auth.id user) w) as [Hnone Hsome].
  unfold get_best.
  destruct (head _) as [doc|] eqn:Hhead.
  - exists doc. split; [done|].
    destruct (Hsome doc eq_refl) as (Hdoc & Hmine & Hnot).
    rewrite <- Hacc, <- Hf1.
    apply not_behind_antisym.
    + apply Hnot; [done|congruence].
    + rewrite Hacc, Hf1. apply Hbest; [done|congruence].
  - exfalso. apply proj1 in Hnone. specialize (Hnone eq_refl).
    unfold submission_count in Hnone.
    assert (shown ∈ List.filter
              (λ s, bool_decide (Submission.userId s = auth.id user))
              (db.submissions w)) as Hin.
    { apply list_elem_of_In, filter_In. split; [by apply list_elem_of_In|].
      apply bool_decide_eq_true_2. congruence. }
    destruct (List.filter _ _); [by apply elem_of_nil in Hin|].
    unfold len in Hnone. simpl in Hnone. lia.
Qed.

Lemma leaderboard_entry_is_get_best_witness :
  let req := {| leaderboard.query_limit := None;
                leaderboard.includeRank := false;
                leaderboard.currentUserId := None |} in
  let board :=
    board_of (run (leaderboard.get from_latest from_latest req) tied_world).1 in
  ∃ e, board !! 0%nat = Some e
    ∧ ∃ doc, get_best saving_order
               (Some {| auth.id := 1; auth.uploadLimit := None |}) tied_world
             = BestSubmission (Some doc)
        ∧ Submission.accuracy doc == leaderboard.accuracy e
        ∧ Submission.f1 doc == leaderboard.f1 e
        ∧ Submission.attemptNumber doc = 1%Z
        ∧ leaderboard.entry_attemptNumber e = 2%Z.
Proof.
  intros req board.
  assert (is_Some (board !! 0%nat)) as [e He] by (by eexists).
  exists e. split; [exact He|].
  destruct (leaderboard_entry_is_get_best from_latest from_latest saving_order
              req {| auth.id := 1; auth.uploadLimit := None |} tied_world
              board None 2 e eq_refl)
    as (doc & Hbest & Hacc & Hf1).
  - by eapply (list_elem_of_lookup_2 _ 0%nat).
  - by injection He as <-.
  - exists doc. split; [exact Hbest|]. split; [exact Hacc|]. split; [exact Hf1|].
    injection He as <-. by injection Hbest as <-.
Defined.

End best_more.

(** ** The leaderboard: participants, limits and the rank of a user *)
Section leaderboard_more.

Import leaderboard.

Lemma group_fold_covers docs groups (u : N) :
  u ∈ (_id <$> groups) ∨ u ∈ (Submission.userId <$> docs) →
  u ∈ _id <$> fold_left add_group docs groups.
Proof.
  revert groups. induction docs as [|d docs IH]; intros groups; simpl.
  - intros [?|Hin]; [done|]. by apply elem_of_nil in Hin.
  - intros [Hin|Hin]; apply IH.
    + left. by apply add_group_grows.
    + apply elem_of_cons in Hin as [->|Hin]; [left; apply add_group_covers|].
      by right.
Qed.

Lemma allRankings_ids store docs (u : N) :
  u ∈ (_id <$> allRankings store docs) ↔ u ∈ participants docs.
Proof.
  unfold participants. rewrite elem_of_list_to_set.
  unfold allRankings. rewrite sort_stage_perm. split.
  - intros Hu. apply list_elem_of_fmap in Hu as (g & -> & Hg).
    apply group_fold_first in Hg
      as [Hg|(pre & doc & post & Hdocs & -> & _ & _)].
    { by apply elem_of_nil in Hg. }
    simpl.
    rewrite <- (sort_stage_perm by_accuracy_f1 (of_submissions store) docs), Hdocs.
    rewrite fmap_app, fmap_cons, elem_of_app. right. apply list_elem_of_here.
  - intros Hu. apply (group_fold_covers _ []). right.
    by rewrite sort_stage_perm.
Qed.

Lemma allRankings_length store docs :
  length (allRankings store docs) = size (participants docs).
Proof.
  rewrite <- (length_fmap _id).
  rewrite <- (size_list_to_set (C:=gset N)) by apply allRankings_NoDup.
  f_equal. apply set_eq. intros u.
  rewrite elem_of_list_to_set. apply allRankings_ids.
Qed.

Lemma userId_combine_data users groups :
  userId <$> combine_data users groups = _id <$> groups.
Proof.
  unfold combine_data. apply list_eq. intros i.
  rewrite !list_lookup_fmap, list_lookup_imap.
  by destruct (groups !! i).
Qed.

(** X19. The leaderboard lists participants, that is users with at least one
    submission, each at most once; the number of entries it reports is the
    length of the list, which is the smaller of the limit and the number of
    participants; when the limit allows it, every participant is listed.
    This holds however the store arranges documents with equal keys. *)
Theorem leaderboard_lists_participants store_leaderboard store_rank req w
    board userRank totalEntries :
  (run (get store_leaderboard store_rank req) w).1
    = Ranking board userRank totalEntries →
  let docs := db.submissions w in
  totalEntries = len board
  ∧ len board
    = Z.min (limit_of (query_limit req)) (Z.of_nat (size (participants docs)))
  ∧ NoDup (userId <$> board)
  ∧ (∀ e, e ∈ board → userId e ∈ participants docs)
  ∧ ((Z.of_nat (size (participants docs)) <= limit_of (query_limit req))%Z →
     ∀ u, u ∈ participants docs → u ∈ userId <$> board).
Proof.
  intros (users & -> & -> & Hlimit)%board_of_get docs.
  pose proof (allRankings_length store_leaderboard docs) as Hlength.
  fold docs.
  split; [|split; [|split; [|split]]].
  - unfold len, combine_data. by rewrite length_imap.
  - unfold len, combine_data. rewrite length_imap, length_take. lia.
  - rewrite userId_combine_data, fmap_take.
    eapply sublist_NoDup; [apply allRankings_NoDup|apply sublist_take].
  - intros e He. apply (list_elem_of_fmap_2 userId) in He.
    rewrite userId_combine_data in He.
    apply (allRankings_ids store_leaderboard).
    apply list_elem_of_fmap in He as (g & -> & Hg).
    apply list_elem_of_fmap_2.
    apply elem_of_take in Hg as (i & Hi & _). by eapply list_elem_of_lookup_2.
  - intros Hall u Hu. rewrite userId_combine_data.
    rewrite take_ge by lia. by apply allRankings_ids.
Qed.

Lemma leaderboard_lists_participants_witness :
  let req := {| query_limit := Some 1%Z; includeRank := false;
                currentUserId := None |} in
  let board := board_of (run (get from_latest from_latest req) history_world).1 in
  1%Z = len board
  ∧ len board = Z.min 1 (Z.of_nat (size (participants sample_history)))
  ∧ NoDup (userId <$> board)
  ∧ (∀ e, e ∈ board → userId e ∈ participants sample_history)
  ∧ ((Z.of_nat (size (participants sample_history)) <= 1)%Z →
     ∀ u, u ∈ participants sample_history → u ∈ userId <$> board).
Proof.
  intros req board.
  apply (leaderboard_lists_participants from_latest from_latest req history_world
           board None 1).
  reflexivity.
Defined.



Lemma findIndex_Some (u : N) (groups : list Group) (i : nat) :
  findIndex u groups = Some i →
  ∃ g, groups !! i = Some g ∧ _id g = u.
Proof.
  revert i. induction groups as [|g groups IH]; intros i; simpl; [done|].
  case_bool_decide as Hg.
  - intros [= <-]. by exists g.
  - destruct (findIndex u groups) as [j|]; simpl; [|done].
    intros [= <-]. by apply IH.
Qed.

Lemma findIndex_None (u : N) (groups : list Group) :
  findIndex u groups = None ↔ u ∉ (_id <$> groups).
Proof.
  induction groups as [|g groups IH]; simpl.
  - split; [intros _; apply not_elem_of_nil|done].
  - rewrite not_elem_of_cons. case_bool_decide as Hg.
    + split; [done|]. intros [Hne _]. by destruct Hne.
    + destruct (findIndex u groups) as [j|]; simpl.
      * split; [done|]. intros [_ Hout]. by apply IH in Hout.
      * split; [|done]. intros _. split; [done|]. by apply IH.
Qed.

(** The answer of a successful request names the rank of the user as the
    second pipeline gives it. *)
Lemma userRank_of_get store_leaderboard store_rank req w board userRank
    totalEntries :
  (run (get store_leaderboard store_rank req) w).1
    = Ranking board userRank totalEntries →
  userRank
  = match currentUserId req with
    | Some currentUserId =>
        if includeRank req
        then find_userRank currentUserId
               (allRankings store_rank (db.submissions w))
        else None
    | None => None
    end.
Proof.
  rewrite run_get. cbn [fst].
  destruct (leaderboard_pipeline _ _ _); [|done]. by intros [= _ <- _].
Qed.

(** X21. The rank of the current user.  It is absent when the request does
    not ask for it or when [req.user] is not set, as for every request that
    comes through the application, and otherwise exactly when the user has
    no submission.  When it is there, it lies between 1 and the number of
    participants, which is reported as the total, and it agrees with the
    ranked list on the scores: an entry of the list for that user carries
    the same accuracy and f1.  The two come from separate queries, so that
    among participants with equal scores the rank of the entry and the rank
    reported for the user may differ. *)
Theorem user_rank_agrees_with_leaderboard store_leaderboard store_rank req w
    board userRank totalEntries :
  (run (get store_leaderboard store_rank req) w).1
    = Ranking board userRank totalEntries →
  let docs := db.submissions w in
  (currentUserId req = None ∨ includeRank req = false → userRank = None)
  ∧ ∀ u, currentUserId req = Some u → includeRank req = true →
      (userRank = None ↔ u ∉ participants docs)
      ∧ ∀ r, userRank = Some r →
          (1 <= my_rank r <= totalUsers r)%Z
          ∧ totalUsers r = Z.of_nat (size (participants docs))
          ∧ ∀ e, e ∈ board → userId e = u →
              accuracy e == my_accuracy r ∧ f1 e == my_f1 r.
Proof.
  intros Hget docs.
  pose proof (userRank_of_get _ _ _ _ _ _ _ Hget) as ->. split.
  { intros [-> | ->]; [done|]. by destruct (currentUserId req). }
  intros u -> ->. fold docs. unfold find_userRank.
  destruct (findIndex u (allRankings store_rank docs)) as [i|] eqn:Hindex; simpl.
  - apply findIndex_Some in Hindex as (g & Hg & Hu).
    rewrite Hg. simpl. split.
    + split; [done|]. intros Hout. exfalso.
      apply Hout, (allRankings_ids store_rank).
      rewrite <- Hu. apply list_elem_of_fmap_2. by eapply list_elem_of_lookup_2.
    + intros r [= <-]. simpl.
      pose proof (lookup_lt_Some _ _ _ Hg) as Hi.
      unfold len. rewrite allRankings_length in *.
      split; [lia|]. split; [done|].
      intros e He Heu.
      apply list_elem_of_lookup in He as (j & He).
      destruct (entry_of_board _ _ _ _ _ _ _ _ _ Hget He)
        as (_ & shown & Hshown & Hid & Hacc & Hf1 & _ & Hbest).
      apply list_elem_of_lookup_2, allRankings_best in Hg
        as (mine & Hmine & -> & Hmybest).
      simpl in *. rewrite <- Hacc, <- Hf1.
      apply not_behind_antisym.
      * rewrite Hacc, Hf1. apply Hbest; [done|congruence].
      * apply desc2_spec. apply Hmybest; [done|congruence].
  - split; [|done]. split; [|done]. intros _.
    apply findIndex_None in Hindex.
    by rewrite <- (allRankings_ids store_rank).
Qed.

Lemma user_rank_agrees_with_leaderboard_witness :
  let req := {| query_limit := None; includeRank := true;
                currentUserId := Some 2%N |} in
  ∃ board r totalEntries,
    (run (get from_latest in_saving_order req) tied_world).1
    = Ranking board (Some r) totalEntries
    ∧ (1 <= my_rank r <= totalUsers r)%Z
    ∧ totalUsers r = Z.of_nat (size (participants tied_history))
    ∧ ∀ e, e ∈ board → userId e = 2%N →
        accuracy e == my_accuracy r ∧ f1 e == my_f1 r.
Proof.
  intros req. eexists _, _, _. split; [vm_compute; reflexivity|].
  refine (proj2 (proj2 (user_rank_agrees_with_leaderboard from_latest
                          in_saving_order req tied_world _ _ _ eq_refl)
                   2%N eq_refl eq_refl) _ eq_refl).
Defined.

End leaderboard_more.

(** ** The administration routes and the requests that follow them *)
Section admin_more.

Import metrics submissions.

(** The outcomes of an upload of canonical answers, by what the file holds. *)
Lemma post_answer_csv_cases file w :
  match file with
  | None => admin.post_answer_csv file w = (admin.AnswerRefused "No file uploaded", w)
  | Some f =>
      let rows := extract (data (parseResult f)) in
      let answerCSV := {| db.answer_filename := originalname f; db.data := rows |} in
      let cleaned := db.unlinkSync (path f) in
      (∃ response,
         admin.post_answer_csv file w = (response, cleaned w)
         ∧ (∀ n columns, response ≠ admin.AnswerUploaded n columns)
         ∧ (∀ error, response ≠ admin.AnswerFailed error))
      ∨ (errors (parseResult f) = []
         ∧ "row_id" ∈ fields (parseResult f) ∧ "label" ∈ fields (parseResult f)
         ∧ data (parseResult f) ≠ []
         ∧ if db.valid_AnswerCSV answerCSV
           then admin.post_answer_csv file w
                = (admin.AnswerUploaded (len (data (parseResult f)))
                     (fields (parseResult f)),
                   cleaned (admin.with_answercsvs [answerCSV] w))
           else admin.post_answer_csv file w
                = (admin.AnswerFailed "Failed to upload answer CSV",
                   cleaned (admin.with_answercsvs [] w)))
  end.
Proof.
  destruct file as [f|]; [|done]. intros rows answerCSV cleaned.
  unfold admin.post_answer_csv.
  destruct (errors (parseResult f)) as [|e es] eqn:Herrors.
  2: { left. eexists. by split. }
  simpl.
  destruct (decide ("row_id" ∈ fields (parseResult f))) as [Hid|Hid].
  2: { left. rewrite (bool_decide_eq_false_2 _ Hid). eexists. by split. }
  destruct (decide ("label" ∈ fields (parseResult f))) as [Hlabel|Hlabel].
  2: { left. rewrite (bool_decide_eq_false_2 _ Hlabel), orb_true_r.
       eexists. by split. }
  rewrite !bool_decide_eq_true_2 by done. simpl. rewrite len_extract.
  destruct (decide (data (parseResult f) = [])) as [Hrows|Hrows].
  { left. rewrite Hrows. eexists. by split. }
  right. destruct (Z.eqb_spec (len (data (parseResult f))) 0) as [Hzero|_].
  { pose proof (len_pos _ Hrows). lia. }
  fold rows. fold answerCSV.
  repeat (split; [done|]). by destruct (db.valid_AnswerCSV answerCSV).
Qed.


(** What a successful upload of canonical answers says about its file. *)
Lemma post_answer_csv_uploaded file w (n : Z) columns w' :
  admin.post_answer_csv file w = (admin.AnswerUploaded n columns, w') →
  ∃ f, file = Some f
    ∧ errors (parseResult f) = []
    ∧ "row_id" ∈ fields (parseResult f) ∧ "label" ∈ fields (parseResult f)
    ∧ data (parseResult f) ≠ []
    ∧ n = len (data (parseResult f))
    ∧ db.valid_AnswerCSV
        {| db.answer_filename := originalname f;
           db.data := extract (data (parseResult f)) |} = true
    ∧ w' = db.unlinkSync (path f)
             (admin.with_answercsvs
                [ {| db.answer_filename := originalname f;
                     db.data := extract (data (parseResult f)) |} ] w).
Proof.
  intros Hrun. pose proof (post_answer_csv_cases file w) as Hcases.
  destruct file as [f|]; [|by rewrite Hcases in Hrun].
  destruct Hcases as [(response & Hrun' & Hno & _)|(Herrors & Hid & Hlabel & Hrows & Hcase)].
  { rewrite Hrun' in Hrun. injection Hrun as -> _. by destruct (Hno n columns). }
  destruct (db.valid_AnswerCSV _) eqn:Hvalid; rewrite Hcase in Hrun; [|done].
  injection Hrun as <- _ <-. by exists f.
Qed.


(** X23. After the canonical answers have been uploaded from a file in which
    no identifier is repeated, a request with [req.user] set, a named file
    with the same rows and room under the limit is processed with every row
    compared and correct: no mismatch, nothing missing or extra,
    accuracy 1. *)
Theorem canonical_file_scores_one file w (n : Z) columns w' req file' user :
  admin.post_answer_csv (Some file) w = (admin.AnswerUploaded n columns, w') →
  NoDup (Row.row_id <$> extract (data (parseResult file))) →
  submissions.file req = Some file' →
  parseResult file' = parseResult file →
  originalname file' ≠ EmptyString →
  submissions.user req = Some user →
  (submission_count (userId req) w' < effective_quota user w')%Z →
  ∃ doc,
    (run (upload req) w').1 = Processed doc 0
    ∧ Submission.accuracy doc == 1
    ∧ Submission.matches doc = n
    ∧ Submission.rowsCompared doc = n
    ∧ Submission.missingRows doc = 0%Z
    ∧ Submission.extraRows doc = 0%Z.
Proof.
  intros Hadmin Hnd Hfile Hsame Hname Huser Hroom.
  apply post_answer_csv_uploaded in Hadmin
    as (f & [= <-] & Herrors & Hid & Hlabel & Hrows & -> & _ & ->).
  set (rows := extract (data (parseResult file))) in *.
  set (answerCSV := {| db.answer_filename := originalname file; db.data := rows |}).
  assert (accepted req file' answerCSV
            (db.unlinkSync (path file) (admin.with_answercsvs [answerCSV] w)))
    as Hok.
  { split; [done|done|by eexists| |done|by rewrite Hsame..].
    intros user' Huser'. by replace user' with user by congruence. }
  rewrite (run_upload_accepted _ _ _ _ Hok).
  unfold comparison_of. rewrite Hsame. fold rows. simpl db.data.
  assert (rows ≠ []) as Hne.
  { unfold rows, extract. intros Hnil. by apply map_eq_nil in Hnil. }
  assert (len rows = len (data (parseResult file))) as Hlen
    by apply len_extract.
  pose proof (comparisons_of_canonical_rows rows Hnd) as Hcs.
  destruct (accuracy_all_correct (comparisons (compareCSVData rows rows)))
    as [Haccuracy Hmatches].
  { rewrite Hcs. by destruct rows. }
  { rewrite Hcs. apply Forall_forall. intros c Hc.
    by apply list_elem_of_fmap in Hc as (r & -> & _). }
  rewrite <- metrics_compareCSVData in Haccuracy, Hmatches.
  assert (rowsCompared (compareCSVData rows rows) = len rows) as Hcompared.
  { rewrite rowsCompared_compareCSVData, <- comparisons_compareCSVData, Hcs.
    unfold len. by rewrite length_fmap. }
  assert (len (comparisons (compareCSVData rows rows)) = len rows) as Hlencs.
  { rewrite Hcs. unfold len. by rewrite length_fmap. }
  eexists. cbn [fst]. split.
  - f_equal. rewrite Hmatches, Hcompared, Hlencs. lia.
  - cbn [new_Submission Submission.accuracy Submission.matches
         Submission.rowsCompared Submission.missingRows Submission.extraRows].
    split; [done|]. split; [by rewrite Hmatches, Hlencs|].
    split; [by rewrite Hcompared|].
    rewrite missingRows_compareCSVData, extraRows_compareCSVData.
    rewrite filter_no_rows by (intros r Hr; by rewrite label_map_NoDup).
    done.
Qed.


Lemma canonical_file_scores_one_witness :
  let rows := [row "1" "A"; row " 2" "B "] in
  let w' := (admin.post_answer_csv (Some (sample_file "uploads/a" rows))
               sample_world).2 in
  ∃ doc,
    (run (upload (sample_upload "uploads/b" rows)) w').1 = Processed doc 0
    ∧ Submission.accuracy doc == 1
    ∧ Submission.matches doc = 2%Z
    ∧ Submission.rowsCompared doc = 2%Z
    ∧ Submission.missingRows doc = 0%Z
    ∧ Submission.extraRows doc = 0%Z.
Proof.
  intros rows w'.
  apply (canonical_file_scores_one (sample_file "uploads/a" rows) sample_world
           2 ["row_id"; "label"] w' (sample_upload "uploads/b" rows)
           (sample_file "uploads/b" rows) participant7).
  - reflexivity.
  - compute_done.
  - reflexivity.
  - reflexivity.
  - discriminate.
  - reflexivity.
  - vm_compute. reflexivity.
Defined.

(** X24. The default limit that the configuration route shows is the limit
    that uploads enforce on participants without a limit of their own: the
    configured value, or 15, marked as the default, when none is
    configured. *)
Theorem shown_default_is_enforced_default w :
  ∃ (value : Z) (isDefault : bool),
    admin.get_config "defaultUploadLimit" w
    = admin.ConfigValue "defaultUploadLimit" value isDefault
    ∧ (isDefault = true ↔ db.configs w !! "defaultUploadLimit" = None)
    ∧ (isDefault = true → value = 15%Z)
    ∧ ∀ user, auth.uploadLimit user = None → effective_quota user w = value.
Proof.
  unfold admin.get_config, effective_quota, global_default.
  destruct (db.configs w !! "defaultUploadLimit") as [value|].
  - exists value, false. split; [done|]. split; [done|]. split; [done|].
    by intros user ->.
  - exists 15%Z, true. split; [done|]. split; [done|]. split; [done|].
    by intros user ->.
Qed.

(** X25. Setting the default limit takes effect at once and touches nothing
    else: the configuration route then shows the new value, users without a
    limit of their own are held to it, so that a request with such a user as
    [req.user] whose participant already has that many submissions is
    refused, users with a limit of their own keep it, and the submissions
    and the canonical answers are unchanged.  Any other key is refused and
    changes nothing. *)
Theorem put_config_sets_the_enforced_default (value : Z) w :
  let w' := (admin.put_config "defaultUploadLimit" (Some value) w).2 in
  admin.get_config "defaultUploadLimit" w'
  = admin.ConfigValue "defaultUploadLimit" value false
  ∧ db.submissions w' = db.submissions w
  ∧ db.answercsvs w' = db.answercsvs w
  ∧ (∀ user, effective_quota user w'
             = match auth.uploadLimit user with
               | Some override => override
               | None => value
               end)
  ∧ (∀ req file user,
       submissions.file req = Some file →
       submissions.user req = Some user → auth.uploadLimit user = None →
       is_Some (head (db.answercsvs w)) →
       (value <= submission_count (userId req) w)%Z →
       (run (upload req) w').1
       = LimitReached (submission_count (userId req) w) value)
  ∧ ∀ key other, key ≠ "defaultUploadLimit" →
      (admin.put_config key other w).2 = w
      ∧ ∃ error, (admin.put_config key other w).1 = admin.ConfigRefused error.
Proof.
  intros w'. subst w'. simpl.
  assert (∀ user,
            effective_quota user
              {| db.answercsvs := db.answercsvs w;
                 db.submissions := db.submissions w;
                 db.configs := <["defaultUploadLimit" := value]> (db.configs w);
                 db.users := db.users w;
                 db.uploads := db.uploads w |}
            = match auth.uploadLimit user with
              | Some override => override
              | None => value
              end) as Hquota.
  { intros user. unfold effective_quota, global_default. simpl.
    by rewrite lookup_insert_eq. }
  split; [|split; [done|split; [done|split; [done|split]]]].
  - unfold admin.get_config. simpl. by rewrite lookup_insert_eq.
  - intros req file user Hfile Huser Hnone [answerCSV Hanswer] Hfull.
    rewrite (run_upload _ file user answerCSV) by done.
    rewrite Hquota, Hnone.
    change (submission_count (userId req) _) with (submission_count (userId req) w).
    by destruct (Z.leb_spec value (submission_count (userId req) w)); [|lia].
  - intros key other Hkey. unfold admin.put_config.
    destruct key as [|c key]; [split; [done|by eexists]|].
    destruct other as [other|]; [|split; [done|by eexists]].
    rewrite bool_decide_eq_false_2; [split; [done|by eexists]|].
    intros Hin. by apply list_elem_of_singleton in Hin.
Qed.

End admin_more.

(** ** Deleting a user, and uploads seen through the reading routes *)
Section lifecycle_more.

Import submissions_get.

Lemma filter_filter_other (id u : N) (docs : list Submission.t) :
  u ≠ id →
  List.filter (λ s, bool_decide (Submission.userId s = u))
    (List.filter (λ s, negb (bool_decide (Submission.userId s = id))) docs)
  = List.filter (λ s, bool_decide (Submission.userId s = u)) docs.
Proof.
  intros Hne. induction docs as [|d docs IH]; [done|]. simpl.
  destruct (bool_decide (Submission.userId d = id)) eqn:Hid; simpl.
  - apply bool_decide_eq_true_1 in Hid.
    rewrite bool_decide_eq_false_2 by congruence. exact IH.
  - by rewrite IH.
Qed.

Lemma filter_filter_self (id : N) (docs : list Submission.t) :
  List.filter (λ s, bool_decide (Submission.userId s = id))
    (List.filter (λ s, negb (bool_decide (Submission.userId s = id))) docs)
  = [].
Proof.
  induction docs as [|d docs IH]; [done|]. simpl.
  destruct (bool_decide (Submission.userId d = id)) eqn:Hid; simpl; [done|].
  by rewrite Hid.
Qed.

(** X26. Deleting a user.  The request is carried out exactly when it names
    an existing user other than the administrator who asks.  Then the user
    and all the submissions of the user are gone, so that the user is no
    longer a participant of the leaderboard, while the submissions of every
    other user, and their numbering, are as before.  A request that is not
    carried out changes nothing. *)
Theorem delete_user_removes_own_submissions_only (id sessionUserId : N) w :
  let response := (admin.delete_user id sessionUserId w).1 in
  let w' := (admin.delete_user id sessionUserId w).2 in
  (response = admin.UserDeleted
   ↔ id ≠ sessionUserId ∧ is_Some (db.users w !! id))
  ∧ (response = admin.UserDeleted →
       db.users w' !! id = None
       ∧ (∀ u, u ≠ id → db.users w' !! u = db.users w !! u)
       ∧ find id w' = []
       ∧ (id ∉ participants (db.submissions w'))
       ∧ (∀ u, u ≠ id → find u w' = find u w)
       ∧ (∀ u, numbered u w → numbered u w')
       ∧ db.answercsvs w' = db.answercsvs w ∧ db.configs w' = db.configs w)
  ∧ (response ≠ admin.UserDeleted → w' = w).
Proof.
  intros response w'. subst response w'.
  unfold admin.delete_user. case_bool_decide as Hself.
  { simpl. split; [split; [done|tauto]|done]. }
  destruct (db.users w !! id) as [user|] eqn:Huser; simpl.
  2: { split; [split; [done|intros [_ [? ?]]; done]|done]. }
  split; [split; [done|by eauto]|]. split; [|done].
  intros _. split; [apply lookup_delete_eq|].
  split; [intros u Hu; by rewrite lookup_delete_ne|].
  split; [apply filter_filter_self|]. split.
  { unfold participants. rewrite elem_of_list_to_set.
    intros Hin. apply list_elem_of_fmap in Hin as (doc & Hid & Hdoc).
    apply list_elem_of_In, filter_In in Hdoc as [_ Hdoc].
    apply negb_true_iff, bool_decide_eq_false_1 in Hdoc. congruence. }
  split; [intros u Hu; by apply filter_filter_other|].
  split; [|done].
  intros u Hnum. unfold numbered, submission_count in *. simpl.
  destruct (decide (u = id)) as [->|Hne].
  - by rewrite filter_filter_self.
  - by rewrite filter_filter_other.
Qed.

Lemma find_after_save userId doc path w :
  Submission.filename doc ≠ EmptyString →
  find userId (db.unlinkSync path (saved doc w))
  = find userId w
    ++ (if bool_decide (Submission.userId doc = userId) then [doc] else []).
Proof.
  intros Hname.
  unfold find. rewrite submissions_after_save, List.filter_app by done. simpl.
  by destruct (bool_decide (Submission.userId doc = userId)).
Qed.

(** X27. A processed upload shows at once in the list of the participant:
    when the attempts of the participant are numbered 1, 2, ... in saving
    order, the list after the upload is the new submission, without its
    preview, followed by the list of before, however the store arranges the
    documents for either list. *)
Theorem processed_upload_heads_the_list req w doc (mismatches : Z) store store'
    user :
  numbered (submissions.userId req) w →
  (run (submissions.upload req) w).1 = submissions.Processed doc mismatches →
  auth.id user = submissions.userId req →
  ∃ listed,
    get_all store (Some user) w = Submissions listed
    ∧ get_all store' (Some user) (run (submissions.upload req) w).2
      = Submissions (select_without_preview doc :: listed).
Proof.
  intros Hnum Hrun Huser.
  pose proof (numbered_run_upload _ req w Hnum) as Hnum'.
  apply run_upload_processed in Hrun as (file & answerCSV & Hok & Hdoc & _ & Hw).
  rewrite Hw in Hnum' |- *.
  assert (Submission.filename doc ≠ EmptyString) as Hname.
  { rewrite Hdoc. by destruct Hok. }
  eexists. split; [reflexivity|].
  unfold get_all. rewrite Huser. f_equal.
  unfold numbered in Hnum, Hnum'.
  fold (find (submissions.userId req) w) in Hnum.
  fold (find (submissions.userId req)
          (db.unlinkSync (submissions.path file) (saved doc w))) in Hnum'.
  rewrite (sort_numbered store _ 1 Hnum).
  rewrite (sort_numbered store' _ 1 Hnum').
  rewrite find_after_save by done.
  rewrite bool_decide_eq_true_2 by (by rewrite Hdoc).
  by rewrite reverse_app.
Qed.

Lemma processed_upload_heads_the_list_witness :
  let req := sample_upload "uploads/a" [row "1" "A"] in
  ∃ doc mismatches,
    (run (submissions.upload req) sample_world).1
    = submissions.Processed doc mismatches
    ∧ get_all latest_first (Some participant7)
        (run (submissions.upload req) sample_world).2
      = Submissions [select_without_preview doc].
Proof.
  intros req.
  assert (numbered 7 sample_world) as Hnumbered by (vm_compute; reflexivity).
  destruct (processed_upload_heads_the_list req sample_world _ 0 saving_order
              latest_first participant7 Hnumbered eq_refl eq_refl)
    as (listed & Hbefore & Hafter).
  eexists _, _. split; [reflexivity|].
  rewrite Hafter. by injection Hbefore as <-.
Defined.

(** X28. A processed upload puts its participant on the leaderboard: the
    ranking computed from the submissions after the upload has a group for
    the participant, and the accuracy and f1 of that group are not behind
    those of the submission just saved, however the store arranges the
    documents. *)
Theorem processed_upload_reaches_leaderboard req w doc (mismatches : Z) store :
  (run (submissions.upload req) w).1 = submissions.Processed doc mismatches →
  ∃ g, g ∈ leaderboard.allRankings store
             (db.submissions (run (submissions.upload req) w).2)
    ∧ leaderboard._id g = submissions.userId req
    ∧ not_behind (leaderboard.bestAccuracy g) (leaderboard.bestF1 g)
        (Submission.accuracy doc) (Submission.f1 doc).
Proof.
  intros Hrun.
  apply run_upload_processed in Hrun as (file & answerCSV & Hok & Hdoc & _ & Hw).
  assert (Submission.filename doc ≠ EmptyString) as Hname.
  { rewrite Hdoc. by destruct Hok. }
  rewrite Hw, submissions_after_save by done.
  set (docs := db.submissions w ++ _).
  assert (doc ∈ docs) as Hin.
  { unfold docs. apply elem_of_app. right. apply list_elem_of_here. }
  assert (Submission.userId doc = submissions.userId req) as Huser
    by by rewrite Hdoc.
  assert (submissions.userId req
          ∈ (leaderboard._id <$> leaderboard.allRankings store docs))
    as Hranked.
  { apply allRankings_ids. unfold participants. rewrite elem_of_list_to_set.
    rewrite <- Huser. by apply list_elem_of_fmap_2. }
  apply list_elem_of_fmap in Hranked as (g & Hg & Hgin).
  exists g. split; [done|]. split; [done|].
  apply allRankings_best in Hgin as (best & _ & -> & Hbest).
  apply desc2_spec. apply Hbest; [done|].
  simpl in Hg. congruence.
Qed.

Lemma processed_upload_reaches_leaderboard_witness :
  let req := sample_upload "uploads/a" [row "1" "A"] in
  ∃ doc g,
    g ∈ leaderboard.allRankings from_latest
          (db.submissions (run (submissions.upload req) sample_world).2)
    ∧ leaderboard._id g = 7%N
    ∧ not_behind (leaderboard.bestAccuracy g) (leaderboard.bestF1 g)
        (Submission.accuracy doc) (Submission.f1 doc).
Proof.
  intros req. eexists.
  exact (processed_upload_reaches_leaderboard req sample_world _ 0 from_latest
           eq_refl).
Defined.

End lifecycle_more.

(** *** A submission that does not beat the best *)
Section resubmission_leaderboard.

Import leaderboard.

(** X29. A new submission that does not beat an earlier submission of the
    same participant, in the order accuracy descending, then f1 descending,
    changes no score of the ranking: the participants are those of before,
    and every participant has the best accuracy and the best f1 of before,
    however the store arranges the documents before and after.  (With a
    tie, the group of the participant may be made from the new
    submission.) *)
Theorem resubmission_keeps_leaderboard store store' docs (doc d : Submission.t) :
  doc ∈ docs →
  Submission.userId doc = Submission.userId d →
  not_behind (Submission.accuracy doc) (Submission.f1 doc)
    (Submission.accuracy d) (Submission.f1 d) →
  participants (docs ++ [d]) = participants docs
  ∧ length (allRankings store' (docs ++ [d])) = length (allRankings store docs)
  ∧ ∀ g g', g ∈ allRankings store docs → g' ∈ allRankings store' (docs ++ [d]) →
      _id g = _id g' →
      bestAccuracy g == bestAccuracy g' ∧ bestF1 g == bestF1 g'.
Proof.
  intros Hdoc Huser Hbest.
  assert (participants (docs ++ [d]) = participants docs) as Hsame.
  { unfold participants. rewrite fmap_app, list_to_set_app_L. simpl.
    assert (Submission.userId d ∈ (list_to_set (Submission.userId <$> docs) : gset N)).
    { rewrite elem_of_list_to_set, <- Huser. by apply list_elem_of_fmap_2. }
    set_solver. }
  split; [done|]. split; [by rewrite !allRankings_length, Hsame|].
  intros g g' Hg Hg' Hid.
  apply allRankings_best in Hg as (best & Hin & -> & Hmax).
  apply allRankings_best in Hg' as (best' & Hin' & -> & Hmax').
  simpl in *. apply not_behind_antisym; apply desc2_spec.
  - apply elem_of_app in Hin' as [Hin'|Hnew].
    + by apply Hmax.
    + apply list_elem_of_singleton in Hnew as ->.
      eapply by_accuracy_f1_trans; [apply Hmax; [exact Hdoc|congruence]|].
      by apply desc2_spec.
  - apply Hmax'; [|done]. apply elem_of_app. by left.
Qed.

Lemma resubmission_keeps_leaderboard_witness :
  participants (sample_history ++ [scored 1 3 (9 # 10)]) = participants sample_history
  ∧ length (allRankings from_latest (sample_history ++ [scored 1 3 (9 # 10)]))
    = length (allRankings in_saving_order sample_history)
  ∧ ∀ g g', g ∈ allRankings in_saving_order sample_history →
      g' ∈ allRankings from_latest (sample_history ++ [scored 1 3 (9 # 10)]) →
      _id g = _id g' →
      bestAccuracy g == bestAccuracy g' ∧ bestF1 g == bestF1 g'.
Proof.
  apply (resubmission_keeps_leaderboard in_saving_order from_latest
           sample_history (scored 1 2 (9 # 10)) (scored 1 3 (9 # 10))).
  - unfold sample_history. set_solver.
  - reflexivity.
  - right. split; [reflexivity|apply Qle_refl].
Defined.

End resubmission_leaderboard.
